(** * Typing game: the session core and the error classifier

    A shallow embedding of
      - [src/app/services/game.ts]            (class [GameService]),
      - the word service it imports from [./word] (class [WordService]),
      - [src/app/services/error-feedback.ts]  (class [ErrorFeedbackService]:
        its keyboard table, [classifyError], the log of errors and its
        analysis; class [HeatMapService]: [recordKeystroke]),
      - [src/app/services/custom-text.ts]     (class [CustomTextService]:
        [cleanText] and [extractWords], and of [recordUsage] the reading
        of the clock),
    followed by the properties of the session state machine, of its two
    timers and of the classifier, and then by those of the word lists, of
    the error log, of the custom texts and of the heat map.

    Conventions of the embedding.
      - A JavaScript number that only ever holds an integer (score, counters,
        streak, seconds remaining, millisecond timestamps) is a [Z]; a double
        holds such a value exactly below 2^53.
      - The multiplier only takes the values 1, 1.5, ..., 5, which a double
        holds exactly; it is a [Q], and so is its product with an integer.
      - A duration in seconds ([timeTaken], [elapsed], [timePerWord]) is the
        quotient of a millisecond count by 1000 and is rounded by the
        division; it is a binary64 [float], computed with the kernel's
        IEEE 754 operations, as is the product [(3 - timeTaken) * 5].
      - A string is the sequence of its code units, for code units below 256.
      - The class is a state record; a method is a function in a state and
        exception monad. [Date.now()] and [Math.random()] read an oracle,
        and so does the question whether the custom text service holds a
        text.
      - An rxjs subscription of [interval(..)] is an entry of a table of live
        subscriptions; one emission of the interval is one call of [fire]. *)

From Stdlib Require Import ZArith QArith Qminmax Qround String Ascii List Bool Lia.
From Stdlib Require Import Lqa.
From Stdlib Require Import Floats.
From stdpp Require Import base option gmap.
Import ListNotations.

Local Open Scope string_scope.
Local Open Scope Z_scope.

(* 0.1 has no exact binary64 value: the literal denotes the nearest double,
   as it does in the source. *)
Set Warnings "-inexact-float".

(* ===================================================================== *)
(** ** JavaScript numbers *)
(* ===================================================================== *)

Module JS.

(** The double of an integer-valued number, for integers of magnitude
    below 2^63; the integers below 2^53, among them every timestamp and
    every difference of two timestamps, are doubles themselves. *)
Definition float_of_Z (z : Z) : float :=
  if z <? 0 then PrimFloat.opp (PrimFloat.of_uint63 (Uint63.of_Z (- z)))
  else PrimFloat.of_uint63 (Uint63.of_Z z).

(** [Math.round]: the integer nearest to [x], a tie going up. The argument is
    finite wherever the program calls it; the other cases give 0. *)
Definition Math_round (x : float) : Z :=
  match Prim2SF x with
  | S754_finite s m e =>
      let v := if s then Z.neg m else Z.pos m in
      if 0 <=? e then v * 2 ^ e
      else (2 * v + 2 ^ (- e)) / 2 ^ (- e + 1)
  | _ => 0
  end.

(** [Math.floor] of a finite double. *)
Definition Math_floor (x : float) : Z :=
  match Prim2SF x with
  | S754_finite s m e =>
      let v := if s then Z.neg m else Z.pos m in
      if 0 <=? e then v * 2 ^ e else v / 2 ^ (- e)
  | _ => 0
  end.

(** [Math.round] of an exact rational. *)
Definition Math_roundQ (q : Q) : Z := Qfloor (q + (1 # 2)).

(** [(a - b) / 1000] for two millisecond timestamps. *)
Definition seconds_between (a b : Z) : float :=
  (float_of_Z (a - b) / 1000)%float.

(* --------------------------------------------------------------------- *)
(** *** Strings *)

(** [String.prototype.toLowerCase] on one code unit below 256: A-Z and the
    Latin-1 capitals (all of 192..222 but the multiplication sign 215). *)
Definition toLowerCase_char (c : ascii) : ascii :=
  let n := nat_of_ascii c in
  if ((65 <=? n) && (n <=? 90))%nat
     || ((192 <=? n) && (n <=? 222) && negb (n =? 215))%nat
  then ascii_of_nat (n + 32) else c.

Fixpoint toLowerCase (s : string) : string :=
  match s with
  | EmptyString => EmptyString
  | String c r => String (toLowerCase_char c) (toLowerCase r)
  end.

(** The class [\s] of a regular expression, below 256: tab, line feed,
    vertical tab, form feed, carriage return, space, no-break space. *)
Definition isWhitespace (c : ascii) : bool :=
  let n := nat_of_ascii c in
  ((9 <=? n) && (n <=? 13) || (n =? 32) || (n =? 160))%nat.

(** [s.split(/\s+/)]: the pieces between the maximal runs of white space;
    a leading or trailing run leaves an empty piece, and the empty string
    gives one empty piece. *)
Fixpoint split_whitespace (s : string) : list string :=
  match s with
  | EmptyString => [EmptyString]
  | String c r =>
      let pieces := split_whitespace r in
      if isWhitespace c then
        match r with
        | String c' _ => if isWhitespace c' then pieces else EmptyString :: pieces
        | EmptyString => EmptyString :: pieces
        end
      else
        match pieces with
        | p :: ps => String c p :: ps
        | [] => [String c EmptyString]
        end
  end.

(** The character class of the pattern in [initializeCustomText]: full stop,
    comma, exclamation and question marks, semicolon, colon, double quote
    (code 34), apostrophe, both parentheses and the hyphen. *)
Definition isPunctuation (c : ascii) : bool :=
  existsb (Ascii.eqb c)
    ["."%char; ","%char; "!"%char; "?"%char; ";"%char; ":"%char;
     ascii_of_nat 34; "'"%char; "("%char; ")"%char; "-"%char].

(** [word.replace] with that pattern, flag g, and the empty replacement. *)
Fixpoint strip_punctuation (s : string) : string :=
  match s with
  | EmptyString => EmptyString
  | String c r =>
      if isPunctuation c then strip_punctuation r
      else String c (strip_punctuation r)
  end.

End JS.

(* ===================================================================== *)
(** ** The environment: clock and random numbers *)
(* ===================================================================== *)

(** [Date_now n] is what the n-th call of [Date.now()] returns, in
    milliseconds; [Math_random n] is what the n-th call of [Math.random()]
    returns, a double in [0, 1). [Text_stored n id] tells whether the
    custom text service holds a text with this id once the clock has been
    read [n] times: the texts belong to that service, which the game
    service only asks. *)
Record World := {
  Date_now : nat -> Z;
  Math_random : nat -> float;
  Text_stored : nat -> string -> bool
}.

(* ===================================================================== *)
(** ** [WordService] *)
(* ===================================================================== *)

Module WordService.

Record WordCategory := {
  cat_name : string;
  words : list string
}.

Record DifficultyLevel := {
  diff_name : string;
  wordLength_min : nat;
  wordLength_max : nat;
  timePerWord : float   (* seconds *)
}.

Definition categories : list WordCategory :=
  [ {| cat_name := "Basic";
       words :=
        ["the"; "and"; "for"; "are"; "but"; "not"; "you"; "all"; "can"; "had";
         "her"; "was"; "one"; "our"; "out"; "day"; "get"; "has"; "him"; "his";
         "how"; "man"; "new"; "now"; "old"; "see"; "two"; "way"; "who"; "boy";
         "did"; "its"; "let"; "put"; "say"; "she"; "too"; "use"] |};
    {| cat_name := "Common";
       words :=
        ["about"; "after"; "again"; "before"; "being"; "below"; "between"; "both";
         "during"; "each"; "few"; "from"; "further"; "here"; "how"; "other";
         "own"; "same"; "should"; "such"; "than"; "them"; "very"; "were";
         "what"; "when"; "where"; "which"; "while"; "with"; "would"; "your"] |};
    {| cat_name := "Programming";
       words :=
        ["function"; "variable"; "array"; "object"; "string"; "number"; "boolean";
         "interface"; "class"; "method"; "property"; "return"; "import"; "export";
         "component"; "service"; "module"; "package"; "library"; "framework";
         "algorithm"; "database"; "server"; "client"; "response"; "request";
         "parameter"; "argument"; "callback"; "promise"; "async"; "await"] |};
    {| cat_name := "Advanced";
       words :=
        ["development"; "implementation"; "architecture"; "optimization";
         "performance"; "scalability"; "maintainability"; "responsibility";
         "configuration"; "authentication"; "authorization"; "infrastructure";
         "documentation"; "specification"; "integration"; "deployment";
         "environment"; "orchestration"; "containerization"; "virtualization";
         "microservices"; "monolithic"; "distributed"; "synchronization";
         "asynchronous"] |} ].

Definition difficultyLevels : list DifficultyLevel :=
  [ {| diff_name := "Easy";   wordLength_min := 2; wordLength_max := 5;
       timePerWord := 4 |};
    {| diff_name := "Medium"; wordLength_min := 4; wordLength_max := 8;
       timePerWord := 2.5 |};
    {| diff_name := "Hard";   wordLength_min := 6; wordLength_max := 12;
       timePerWord := 1.5 |};
    {| diff_name := "Expert"; wordLength_min := 8; wordLength_max := 15;
       timePerWord := 1 |} ].

Definition find_category (category : string) : option WordCategory :=
  List.find (fun cat => String.eqb (cat_name cat) category) categories.

Definition find_difficulty (difficulty : string) : option DifficultyLevel :=
  List.find (fun diff => String.eqb (diff_name diff) difficulty) difficultyLevels.

(** [arr[Math.floor(r * arr.length)]], with [r] the value of
    [Math.random()]; the index is in range for every [r] in [0, 1). *)
Definition pick (r : float) (arr : list string) : string :=
  let i := JS.Math_floor (r * JS.float_of_Z (Z.of_nat (List.length arr)))%float in
  nth (Z.to_nat i) arr "".

(** The first half of [getRandomWord]: the array the word is drawn from.
    [inr msg] is [throw new Error(msg)]. *)
Definition candidates (category difficulty : string) : list string + string :=
  match find_category category with
  | None => inr ("Category '" ++ category ++ "' not found")
  | Some categoryData =>
      match find_difficulty difficulty with
      | None => inr ("Difficulty '" ++ difficulty ++ "' not found")
      | Some difficultyData =>
          (* Filter words by difficulty length requirements *)
          let filteredWords :=
            List.filter
              (fun word =>
                 (wordLength_min difficultyData <=? String.length word)%nat
                 && (String.length word <=? wordLength_max difficultyData)%nat)
              (words categoryData) in
          if (List.length filteredWords =? 0)%nat
          then inl (words categoryData)
          else inl filteredWords
      end
  end.

(** [getRandomWord], given the value [r] that [Math.random()] returns. *)
Definition getRandomWord (category difficulty : string) (r : float)
  : string + string :=
  match candidates category difficulty with
  | inl arr => inl (pick r arr)
  | inr msg => inr msg
  end.

Definition getTimePerWord (difficulty : string) : float :=
  match find_difficulty difficulty with
  | Some difficultyData => timePerWord difficultyData
  | None => 2.5%float
  end.

End WordService.

(* ===================================================================== *)
(** ** [GameService]: state *)
(* ===================================================================== *)

Module Game.

Record GameState := {
  isPlaying : bool;
  isGameOver : bool;
  isPaused : bool;
  currentWord : string;
  userInput : string;
  score : Z;
  correctWords : Z;
  totalWords : Z;
  accuracy : Z;
  wpm : Z;
  timeRemaining : Z;
  streak : Z;
  multiplier : Q;
  gameTimeTotal : Z;
  wordsTyped : list string;
  mistakes : Z
}.

(** The fields of [CustomText] that [GameService] reads. *)
Record CustomText := {
  ct_id : string;
  ct_content : string
}.

(** [customText?] and [isCustomMode?] may be undefined ([None]). *)
Record GameSettings := {
  difficulty : string;
  category : string;
  gameDuration : Z;
  wordsPerGame : Z;
  customText : option CustomText;
  isCustomMode : option bool
}.

(** [Partial<GameSettings>]: a key may be missing ([None]); an optional key
    may be there and hold undefined ([Some None]), which the spread copies. *)
Record PartialGameSettings := {
  p_difficulty : option string;
  p_category : option string;
  p_gameDuration : option Z;
  p_wordsPerGame : option Z;
  p_customText : option (option CustomText);
  p_isCustomMode : option (option bool)
}.

Record TypingResult := {
  isCorrect : bool;
  timeTaken : float;
  word : string
}.

(** What an [interval(..).pipe(takeWhile(..), tap(..))] subscription runs:
    the session countdown of [startGameTimer], or the per-word countdown of
    [startWordTimer] with the [timePerWord] its closure captured. *)
Inductive Timer :=
| GameTimer
| WordTimer (timePerWord : float).

(** The fields of the class, then the run-time around it: the table of the
    subscriptions that are still open, the next fresh subscription, the
    delays of the pending [setTimeout(() => this.endGame(), ..)] calls, and
    how many times the clock and the random generator were read. *)
Record GameService := {
  gameState : GameState;
  currentSettings : GameSettings;
  timerSubscription : option nat;
  wordTimerSubscription : option nat;
  gameStartTime : Z;
  wordStartTime : Z;
  customTextWords : list string;
  customTextIndex : nat;
  subscriptions : gmap nat Timer;
  nextSubscription : nat;
  timeouts : list Z;
  clockReads : nat;
  randomDraws : nat
}.

Definition set_gameState (v : GameState) (s : GameService) : GameService :=
  {| gameState := v; currentSettings := currentSettings s;
     timerSubscription := timerSubscription s;
     wordTimerSubscription := wordTimerSubscription s;
     gameStartTime := gameStartTime s; wordStartTime := wordStartTime s;
     customTextWords := customTextWords s; customTextIndex := customTextIndex s;
     subscriptions := subscriptions s; nextSubscription := nextSubscription s;
     timeouts := timeouts s; clockReads := clockReads s;
     randomDraws := randomDraws s |}.

Definition set_currentSettings (v : GameSettings) (s : GameService) : GameService :=
  {| gameState := gameState s; currentSettings := v;
     timerSubscription := timerSubscription s;
     wordTimerSubscription := wordTimerSubscription s;
     gameStartTime := gameStartTime s; wordStartTime := wordStartTime s;
     customTextWords := customTextWords s; customTextIndex := customTextIndex s;
     subscriptions := subscriptions s; nextSubscription := nextSubscription s;
     timeouts := timeouts s; clockReads := clockReads s;
     randomDraws := randomDraws s |}.

Definition set_timerSubscription (v : option nat) (s : GameService) : GameService :=
  {| gameState := gameState s; currentSettings := currentSettings s;
     timerSubscription := v;
     wordTimerSubscription := wordTimerSubscription s;
     gameStartTime := gameStartTime s; wordStartTime := wordStartTime s;
     customTextWords := customTextWords s; customTextIndex := customTextIndex s;
     subscriptions := subscriptions s; nextSubscription := nextSubscription s;
     timeouts := timeouts s; clockReads := clockReads s;
     randomDraws := randomDraws s |}.

Definition set_wordTimerSubscription (v : option nat) (s : GameService) : GameService :=
  {| gameState := gameState s; currentSettings := currentSettings s;
     timerSubscription := timerSubscription s;
     wordTimerSubscription := v;
     gameStartTime := gameStartTime s; wordStartTime := wordStartTime s;
     customTextWords := customTextWords s; customTextIndex := customTextIndex s;
     subscriptions := subscriptions s; nextSubscription := nextSubscription s;
     timeouts := timeouts s; clockReads := clockReads s;
     randomDraws := randomDraws s |}.

Definition set_gameStartTime (v : Z) (s : GameService) : GameService :=
  {| gameState := gameState s; currentSettings := currentSettings s;
     timerSubscription := timerSubscription s;
     wordTimerSubscription := wordTimerSubscription s;
     gameStartTime := v; wordStartTime := wordStartTime s;
     customTextWords := customTextWords s; customTextIndex := customTextIndex s;
     subscriptions := subscriptions s; nextSubscription := nextSubscription s;
     timeouts := timeouts s; clockReads := clockReads s;
     randomDraws := randomDraws s |}.

Definition set_wordStartTime (v : Z) (s : GameService) : GameService :=
  {| gameState := gameState s; currentSettings := currentSettings s;
     timerSubscription := timerSubscription s;
     wordTimerSubscription := wordTimerSubscription s;
     gameStartTime := gameStartTime s; wordStartTime := v;
     customTextWords := customTextWords s; customTextIndex := customTextIndex s;
     subscriptions := subscriptions s; nextSubscription := nextSubscription s;
     timeouts := timeouts s; clockReads := clockReads s;
     randomDraws := randomDraws s |}.

Definition set_customText (ws : list string) (i : nat) (s : GameService) : GameService :=
  {| gameState := gameState s; currentSettings := currentSettings s;
     timerSubscription := timerSubscription s;
     wordTimerSubscription := wordTimerSubscription s;
     gameStartTime := gameStartTime s; wordStartTime := wordStartTime s;
     customTextWords := ws; customTextIndex := i;
     subscriptions := subscriptions s; nextSubscription := nextSubscription s;
     timeouts := timeouts s; clockReads := clockReads s;
     randomDraws := randomDraws s |}.

Definition set_subscriptions (v : gmap nat Timer) (n : nat) (s : GameService)
  : GameService :=
  {| gameState := gameState s; currentSettings := currentSettings s;
     timerSubscription := timerSubscription s;
     wordTimerSubscription := wordTimerSubscription s;
     gameStartTime := gameStartTime s; wordStartTime := wordStartTime s;
     customTextWords := customTextWords s; customTextIndex := customTextIndex s;
     subscriptions := v; nextSubscription := n;
     timeouts := timeouts s; clockReads := clockReads s;
     randomDraws := randomDraws s |}.

Definition set_timeouts (v : list Z) (s : GameService) : GameService :=
  {| gameState := gameState s; currentSettings := currentSettings s;
     timerSubscription := timerSubscription s;
     wordTimerSubscription := wordTimerSubscription s;
     gameStartTime := gameStartTime s; wordStartTime := wordStartTime s;
     customTextWords := customTextWords s; customTextIndex := customTextIndex s;
     subscriptions := subscriptions s; nextSubscription := nextSubscription s;
     timeouts := v; clockReads := clockReads s;
     randomDraws := randomDraws s |}.

Definition set_reads (c r : nat) (s : GameService) : GameService :=
  {| gameState := gameState s; currentSettings := currentSettings s;
     timerSubscription := timerSubscription s;
     wordTimerSubscription := wordTimerSubscription s;
     gameStartTime := gameStartTime s; wordStartTime := wordStartTime s;
     customTextWords := customTextWords s; customTextIndex := customTextIndex s;
     subscriptions := subscriptions s; nextSubscription := nextSubscription s;
     timeouts := timeouts s; clockReads := c; randomDraws := r |}.

(* --------------------------------------------------------------------- *)
(** *** The monad of the methods *)

(** A method either returns, or throws; both leave a state behind. *)
Inductive Outcome (A : Type) :=
| Ok (a : A) (s : GameService)
| Throw (msg : string) (s : GameService).
Arguments Ok {A} a s.
Arguments Throw {A} msg s.

Definition M (A : Type) : Type := GameService -> Outcome A.

Definition ret {A} (a : A) : M A := fun s => Ok a s.

Definition bind {A B} (m : M A) (k : A -> M B) : M B :=
  fun s => match m s with
           | Ok a s' => k a s'
           | Throw msg s' => Throw msg s'
           end.

Definition throw {A} (msg : string) : M A := fun s => Throw msg s.

Definition gets {A} (f : GameService -> A) : M A := fun s => Ok (f s) s.

Definition modify (f : GameService -> GameService) : M unit :=
  fun s => Ok tt (f s).

(** Run [m]; if it throws, run [cleanup] on the state and throw on. *)
Definition finally_on_throw {A} (m : M A) (cleanup : GameService -> GameService)
  : M A :=
  fun s => match m s with
           | Ok a s' => Ok a s'
           | Throw msg s' => Throw msg (cleanup s')
           end.

Declare Scope game_scope.
Delimit Scope game_scope with game.
Notation "'let*' x := c 'in' k" := (bind c (fun x => k))
  (at level 10, x name, c at level 100, k at level 200) : game_scope.
Notation "c ;;; k" := (bind c (fun _ => k))
  (at level 100, k at level 200, right associativity) : game_scope.
Local Open Scope game_scope.

(** The state the method left, whether it returned or threw. *)
Definition state_of {A} (o : Outcome A) : GameService :=
  match o with Ok _ s => s | Throw _ s => s end.

(* --------------------------------------------------------------------- *)
(** *** Methods *)

Section Methods.

Variable W : World.

(** [Date.now()]. *)
Definition dateNow : M Z :=
  fun s => Ok (Date_now W (clockReads s))
              (set_reads (S (clockReads s)) (randomDraws s) s).

(** [Math.random()]. *)
Definition mathRandom : M float :=
  fun s => Ok (Math_random W (randomDraws s))
              (set_reads (clockReads s) (S (randomDraws s)) s).

(** [this.gameState.update(f)]. *)
Definition update_gameState (f : GameState -> GameState) : M unit :=
  modify (fun s => set_gameState (f (gameState s)) s).

(** [.subscribe()] on a fresh interval pipeline. *)
Definition subscribe (t : Timer) : M nat :=
  fun s => Ok (nextSubscription s)
              (set_subscriptions (<[nextSubscription s := t]> (subscriptions s))
                                 (S (nextSubscription s)) s).

(** The subscription closes (unsubscribed, completed or failed). *)
Definition close (id : nat) (s : GameService) : GameService :=
  set_subscriptions (delete id (subscriptions s)) (nextSubscription s) s.

(** [sub?.unsubscribe()]. *)
Definition unsubscribe (sub : option nat) : M unit :=
  match sub with
  | Some id => modify (close id)
  | None => ret tt
  end.

Definition getInitialState : GameState :=
  {| isPlaying := false; isGameOver := false; isPaused := false;
     currentWord := ""; userInput := "";
     score := 0; correctWords := 0; totalWords := 0;
     accuracy := 100; wpm := 0; timeRemaining := 60;
     streak := 0; multiplier := 1; gameTimeTotal := 60;
     wordsTyped := []; mistakes := 0 |}.

Definition stopTimers : M unit :=
  let* t := gets timerSubscription in
  unsubscribe t ;;;
  let* w := gets wordTimerSubscription in
  unsubscribe w.

Definition endGame : M unit :=
  stopTimers ;;;
  update_gameState (fun state =>
    {| isPlaying := false; isGameOver := true; isPaused := false;
       currentWord := currentWord state; userInput := userInput state;
       score := score state; correctWords := correctWords state;
       totalWords := totalWords state; accuracy := accuracy state;
       wpm := wpm state; timeRemaining := timeRemaining state;
       streak := streak state; multiplier := multiplier state;
       gameTimeTotal := gameTimeTotal state;
       wordsTyped := wordsTyped state; mistakes := mistakes state |}).

Definition resetGame : M unit :=
  stopTimers ;;;
  modify (set_gameState getInitialState).

Definition startGameTimer : M unit :=
  let* id := subscribe GameTimer in
  modify (set_timerSubscription (Some id)).

Definition startWordTimer : M unit :=
  let* settings := gets currentSettings in
  let timePerWord := WordService.getTimePerWord (difficulty settings) in
  let* id := subscribe (WordTimer timePerWord) in
  modify (set_wordTimerSubscription (Some id)).

Definition restartWordTimer : M unit :=
  let* w := gets wordTimerSubscription in
  unsubscribe w ;;;
  (* Only restart if game is still active *)
  let* gs := gets gameState in
  if isPlaying gs && negb (isGameOver gs) && negb (isPaused gs)
  then startWordTimer
  else ret tt.

(** [this.customTextService.recordUsage(id, 0, 0)]. When the custom text
    service holds no text with this id it returns at once. When it holds
    one, it updates the usage figures of that text, with
    [lastUsed: Date.now()], and saves its texts to the local storage,
    which is taken to accept them: that is state of the other service, and
    what the game service sees of it is one more reading of the clock,
    before the readings [startGame] takes for the start of the game and of
    the word. *)
Definition customTextService_recordUsage (id : string) : M unit :=
  let* reads := gets clockReads in
  if Text_stored W reads id
  then let* lastUsed := dateNow in ret tt
  else ret tt.

Definition initializeCustomText (customText : CustomText) : M unit :=
  (* Split the custom text content into words *)
  modify (set_customText
    (List.filter (fun word => (0 <? String.length word)%nat)
       (List.map JS.strip_punctuation
          (JS.split_whitespace (JS.toLowerCase (ct_content customText)))))
    0%nat) ;;;
  (* Record usage for analytics *)
  customTextService_recordUsage (ct_id customText).

(** [customTextIndex] is below the length of a word list that is not
    empty (it is 0 or a remainder modulo that length), so the element read
    is defined. *)
Definition getNextCustomWord : M string :=
  let* ws := gets customTextWords in
  if (List.length ws =? 0)%nat then ret "end" (* Fallback word *)
  else
    let* i := gets customTextIndex in
    let word := nth i ws "" in
    modify (set_customText ws ((i + 1) mod List.length ws)%nat) ;;;
    (* End game if we've completed the custom text *)
    let* i' := gets customTextIndex in
    let* gs := gets gameState in
    (if (i' =? 0)%nat && (0 <? totalWords gs)
     then modify (fun s => set_timeouts (timeouts s ++ [100]) s)
     else ret tt) ;;;
    ret word.

(** [this.wordService.getRandomWord(category, difficulty)]: it throws for
    an unknown name, and draws its random number otherwise. *)
Definition wordService_getRandomWord : M string :=
  let* settings := gets currentSettings in
  match WordService.candidates (category settings) (difficulty settings) with
  | inr msg => throw msg
  | inl arr =>
      let* r := mathRandom in
      ret (WordService.pick r arr)
  end.

Definition getNextWord : M string :=
  let* settings := gets currentSettings in
  if bool_decide (isCustomMode settings = Some true)
  then getNextCustomWord
  else wordService_getRandomWord.

(** The constants of [handleCorrectWord]. *)
Definition baseScore (currentWord : string) : Z :=
  Z.of_nat (String.length currentWord) * 10.

Definition timeBonus (timeTaken : float) : Z :=
  Z.max 0 (JS.Math_round ((3 - timeTaken) * 5)%float).

Definition streakBonus (streak : Z) : Z := streak / 5 * 50.

Definition totalScore (currentState : GameState) (timeTaken : float) : Q :=
  (inject_Z (baseScore (currentWord currentState) + timeBonus timeTaken
             + streakBonus (streak currentState))
   * multiplier currentState)%Q.

Definition newMultiplier (newStreak : Z) : Q :=
  Qmin 5 (1 + inject_Z (newStreak / 10) * (1 # 2)).

Definition handleCorrectWord (timeTaken : float) : M TypingResult :=
  let* currentState := gets gameState in
  let totalScore := totalScore currentState timeTaken in
  let newStreak := streak currentState + 1 in
  let newMultiplier := newMultiplier newStreak in
  (* this.gameState.update(state => ({ ...state, .. })) *)
  let* state := gets gameState in
  let* nextWord := getNextWord in
  modify (set_gameState
    {| isPlaying := isPlaying state; isGameOver := isGameOver state;
       isPaused := isPaused state;
       currentWord := nextWord;
       userInput := "";
       score := score state + JS.Math_roundQ totalScore;
       correctWords := correctWords state + 1;
       totalWords := totalWords state + 1;
       accuracy := accuracy state; wpm := wpm state;
       timeRemaining := timeRemaining state;
       streak := newStreak;
       multiplier := newMultiplier;
       gameTimeTotal := gameTimeTotal state;
       wordsTyped := wordsTyped state ++ [currentWord state];
       mistakes := mistakes state |}) ;;;
  let* now := dateNow in
  modify (set_wordStartTime now) ;;;
  restartWordTimer ;;;
  ret {| isCorrect := true; timeTaken := timeTaken;
         word := currentWord currentState |}.

Definition handleIncorrectWord (timeTaken : float) : M TypingResult :=
  let* currentState := gets gameState in
  let* state := gets gameState in
  let* nextWord := getNextWord in
  modify (set_gameState
    {| isPlaying := isPlaying state; isGameOver := isGameOver state;
       isPaused := isPaused state;
       currentWord := nextWord;
       userInput := "";
       score := score state;
       correctWords := correctWords state;
       totalWords := totalWords state + 1;
       accuracy := accuracy state; wpm := wpm state;
       timeRemaining := timeRemaining state;
       streak := 0;
       multiplier := 1;
       gameTimeTotal := gameTimeTotal state;
       wordsTyped := wordsTyped state ++ [currentWord state];
       mistakes := mistakes state + 1 |}) ;;;
  let* now := dateNow in
  modify (set_wordStartTime now) ;;;
  restartWordTimer ;;;
  ret {| isCorrect := false; timeTaken := timeTaken;
         word := currentWord currentState |}.

Definition processInput (input : string) : M TypingResult :=
  let* currentState := gets gameState in
  let* now := dateNow in
  let* started := gets wordStartTime in
  let timeTaken := JS.seconds_between now started in
  update_gameState (fun state =>
    {| isPlaying := isPlaying state; isGameOver := isGameOver state;
       isPaused := isPaused state; currentWord := currentWord state;
       userInput := input;
       score := score state; correctWords := correctWords state;
       totalWords := totalWords state; accuracy := accuracy state;
       wpm := wpm state; timeRemaining := timeRemaining state;
       streak := streak state; multiplier := multiplier state;
       gameTimeTotal := gameTimeTotal state;
       wordsTyped := wordsTyped state; mistakes := mistakes state |}) ;;;
  if String.eqb input (currentWord currentState)
  then handleCorrectWord timeTaken
  else if (String.length (currentWord currentState) <=? String.length input)%nat
  then handleIncorrectWord timeTaken
  else ret {| isCorrect := false; timeTaken := timeTaken;
              word := currentWord currentState |}.

Definition skipWord : M unit :=
  let* now := dateNow in
  let* started := gets wordStartTime in
  handleIncorrectWord (JS.seconds_between now started) ;;;
  ret tt.

(** [{ ...current, ...settings }]. *)
Definition merge_settings (current : GameSettings) (settings : PartialGameSettings)
  : GameSettings :=
  {| difficulty := default (difficulty current) (p_difficulty settings);
     category := default (category current) (p_category settings);
     gameDuration := default (gameDuration current) (p_gameDuration settings);
     wordsPerGame := default (wordsPerGame current) (p_wordsPerGame settings);
     customText := default (customText current) (p_customText settings);
     isCustomMode := default (isCustomMode current) (p_isCustomMode settings) |}.

Definition startGame (settings : option PartialGameSettings) : M unit :=
  match settings with
  | Some p => modify (fun s => set_currentSettings (merge_settings (currentSettings s) p) s)
  | None => ret tt
  end ;;;
  let* cs := gets currentSettings in
  let* newWord :=
    (* Check if we're using custom text *)
    match bool_decide (isCustomMode cs = Some true), customText cs with
    | true, Some text => initializeCustomText text ;;; getNextCustomWord
    | _, _ => wordService_getRandomWord
    end in
  let* cs := gets currentSettings in
  modify (set_gameState
    {| isPlaying := true; isGameOver := false; isPaused := false;
       currentWord := newWord; userInput := "";
       score := 0; correctWords := 0; totalWords := 0;
       accuracy := 100; wpm := 0; timeRemaining := gameDuration cs;
       streak := 0; multiplier := 1; gameTimeTotal := 60;
       wordsTyped := []; mistakes := 0 |}) ;;;
  let* now := dateNow in
  modify (set_gameStartTime now) ;;;
  let* now := dateNow in
  modify (set_wordStartTime now) ;;;
  startGameTimer ;;;
  startWordTimer.

Definition pauseGame : M unit :=
  update_gameState (fun state =>
    {| isPlaying := isPlaying state; isGameOver := isGameOver state;
       isPaused := negb (isPaused state);
       currentWord := currentWord state; userInput := userInput state;
       score := score state; correctWords := correctWords state;
       totalWords := totalWords state; accuracy := accuracy state;
       wpm := wpm state; timeRemaining := timeRemaining state;
       streak := streak state; multiplier := multiplier state;
       gameTimeTotal := gameTimeTotal state;
       wordsTyped := wordsTyped state; mistakes := mistakes state |}) ;;;
  let* gs := gets gameState in
  if isPaused gs then stopTimers
  else startGameTimer ;;; startWordTimer.

(* --------------------------------------------------------------------- *)
(** *** Timer emissions *)

(** One emission of the [interval(1000)] of [startGameTimer] through
    [takeWhile] and [tap]. A false [takeWhile] completes the subscription
    and the [tap] does not run. *)
Definition gameTimer_emit (id : nat) : M unit :=
  let* gs := gets gameState in
  if (0 <? timeRemaining gs) && isPlaying gs && negb (isPaused gs) then
    update_gameState (fun state =>
      {| isPlaying := isPlaying state; isGameOver := isGameOver state;
         isPaused := isPaused state;
         currentWord := currentWord state; userInput := userInput state;
         score := score state; correctWords := correctWords state;
         totalWords := totalWords state; accuracy := accuracy state;
         wpm := wpm state;
         timeRemaining := Z.max 0 (timeRemaining state - 1);
         streak := streak state; multiplier := multiplier state;
         gameTimeTotal := gameTimeTotal state;
         wordsTyped := wordsTyped state; mistakes := mistakes state |}) ;;;
    let* gs' := gets gameState in
    if timeRemaining gs' <=? 0 then endGame else ret tt
  else modify (close id).

(** One emission of the [interval(100)] of [startWordTimer]; [timePerWord]
    is the constant of the closure. The clock is read once in [takeWhile]
    and once more in [tap]. *)
Definition wordTimer_emit (id : nat) (timePerWord : float) : M unit :=
  let* now := dateNow in
  let* started := gets wordStartTime in
  let elapsed := JS.seconds_between now started in
  let* gs := gets gameState in
  if (elapsed <? timePerWord)%float
     && isPlaying gs && negb (isPaused gs) && negb (isGameOver gs)
  then
    let* now := dateNow in
    let* started := gets wordStartTime in
    let elapsed := JS.seconds_between now started in
    let* settings := gets currentSettings in
    let timePerWord := WordService.getTimePerWord (difficulty settings) in
    if (timePerWord <=? elapsed)%float then skipWord else ret tt
  else modify (close id).

(** The interval behind subscription [id] emits. A closed subscription
    receives nothing; an exception in the pipeline closes it. *)
Definition fire (id : nat) : M unit :=
  let* subs := gets subscriptions in
  match subs !! id with
  | None => ret tt
  | Some GameTimer => finally_on_throw (gameTimer_emit id) (close id)
  | Some (WordTimer timePerWord) =>
      finally_on_throw (wordTimer_emit id timePerWord) (close id)
  end.

(** The oldest pending [setTimeout(() => this.endGame(), ..)] runs. *)
Definition timeout_fire : M unit :=
  let* pending := gets timeouts in
  match pending with
  | [] => ret tt
  | _ :: rest => modify (set_timeouts rest) ;;; endGame
  end.

(** What the run-time delivers to the service between two calls of its
    methods: an emission of the interval of a subscription, or a timeout. *)
Inductive Event :=
| Emit (id : nat)
| TimeoutDue.

Definition deliver (e : Event) : M unit :=
  match e with
  | Emit id => fire id
  | TimeoutDue => timeout_fire
  end.

Fixpoint deliver_all (es : list Event) : M unit :=
  match es with
  | [] => ret tt
  | e :: es' => deliver e ;;; deliver_all es'
  end.

End Methods.

(** The service as its constructor leaves it. *)
Definition initial : GameService :=
  {| gameState := getInitialState;
     currentSettings :=
       {| difficulty := "Medium"; category := "Common"; gameDuration := 60;
          wordsPerGame := 50; customText := None; isCustomMode := None |};
     timerSubscription := None; wordTimerSubscription := None;
     gameStartTime := 0; wordStartTime := 0;
     customTextWords := []; customTextIndex := 0%nat;
     subscriptions := ∅; nextSubscription := 0%nat;
     timeouts := []; clockReads := 0%nat; randomDraws := 0%nat |}.

(** The settings serve a word: custom-text mode, or a category and a
    difficulty that [WordService] knows. With other settings
    [getNextWord] throws; a [startGame] that throws has merged such
    settings already and leaves them behind, in a session that was
    running too. *)
Definition wordSourceReady (s : GameService) : bool :=
  let cs := currentSettings s in
  bool_decide (isCustomMode cs = Some true)
  || match WordService.candidates (category cs) (difficulty cs) with
     | inl _ => true
     | inr _ => false
     end.

(** The phase of the session, read off the three flags. *)
Inductive Phase := Idle | Running | Paused | Over.

Definition phase (gs : GameState) : Phase :=
  if isGameOver gs then Over
  else if isPlaying gs then (if isPaused gs then Paused else Running)
  else Idle.

End Game.

(* ===================================================================== *)
(** ** [ErrorFeedbackService]: keyboard table and classifier *)
(* ===================================================================== *)

Module ErrorFeedback.

Inductive PatternType :=
| finger_slip | finger_confusion | timing | visual | muscle_memory
| keyboard_layout.

Inductive Severity := low | medium | high.

(** [ErrorPattern], without its [icon] (a pictograph). *)
Record ErrorPattern := {
  type : PatternType;
  severity : Severity;
  description : string;
  suggestion : string;
  color : string
}.

Record Key := {
  row : Z;
  col : Z;
  finger : string
}.

Definition PatternType_eqb (a b : PatternType) : bool :=
  match a, b with
  | finger_slip, finger_slip | finger_confusion, finger_confusion
  | timing, timing | visual, visual | muscle_memory, muscle_memory
  | keyboard_layout, keyboard_layout => true
  | _, _ => false
  end.

(** Keyboard layout for distance calculations: the object literal, as the
    list of its properties. *)
Definition keyboardLayout : list (ascii * Key) :=
  [ ("q"%char, {| row := 1; col := 0; finger := "left-pinky" |});
    ("w"%char, {| row := 1; col := 1; finger := "left-ring" |});
    ("e"%char, {| row := 1; col := 2; finger := "left-middle" |});
    ("r"%char, {| row := 1; col := 3; finger := "left-index" |});
    ("t"%char, {| row := 1; col := 4; finger := "left-index" |});
    ("y"%char, {| row := 1; col := 5; finger := "right-index" |});
    ("u"%char, {| row := 1; col := 6; finger := "right-index" |});
    ("i"%char, {| row := 1; col := 7; finger := "right-middle" |});
    ("o"%char, {| row := 1; col := 8; finger := "right-ring" |});
    ("p"%char, {| row := 1; col := 9; finger := "right-pinky" |});
    ("a"%char, {| row := 2; col := 0; finger := "left-pinky" |});
    ("s"%char, {| row := 2; col := 1; finger := "left-ring" |});
    ("d"%char, {| row := 2; col := 2; finger := "left-middle" |});
    ("f"%char, {| row := 2; col := 3; finger := "left-index" |});
    ("g"%char, {| row := 2; col := 4; finger := "left-index" |});
    ("h"%char, {| row := 2; col := 5; finger := "right-index" |});
    ("j"%char, {| row := 2; col := 6; finger := "right-index" |});
    ("k"%char, {| row := 2; col := 7; finger := "right-middle" |});
    ("l"%char, {| row := 2; col := 8; finger := "right-ring" |});
    ("z"%char, {| row := 3; col := 0; finger := "left-pinky" |});
    ("x"%char, {| row := 3; col := 1; finger := "left-ring" |});
    ("c"%char, {| row := 3; col := 2; finger := "left-middle" |});
    ("v"%char, {| row := 3; col := 3; finger := "left-index" |});
    ("b"%char, {| row := 3; col := 4; finger := "left-index" |});
    ("n"%char, {| row := 3; col := 5; finger := "right-index" |});
    ("m"%char, {| row := 3; col := 6; finger := "right-index" |});
    (" "%char, {| row := 4; col := 4; finger := "thumbs" |}) ].

(** [this.keyboardLayout[key]] for a one-character [key]; [None] is
    undefined. *)
Definition lookup_key (key : ascii) : option Key :=
  option_map snd (List.find (fun kv => Ascii.eqb (fst kv) key) keyboardLayout).

(** Error patterns for classification. *)
Definition errorPatterns : list ErrorPattern :=
  [ {| type := finger_slip; severity := low;
       description := "Adjacent key mistake";
       suggestion := "Slow down and focus on finger placement";
       color := "#ffc107" |};
    {| type := finger_confusion; severity := medium;
       description := "Wrong finger used";
       suggestion := "Practice proper finger positioning";
       color := "#fd7e14" |};
    {| type := timing; severity := medium;
       description := "Rushed keystroke";
       suggestion := "Maintain steady rhythm";
       color := "#17a2b8" |};
    {| type := visual; severity := high;
       description := "Visual recognition error";
       suggestion := "Focus on letter recognition";
       color := "#dc3545" |};
    {| type := muscle_memory; severity := high;
       description := "Muscle memory mismatch";
       suggestion := "Practice key combinations";
       color := "#6f42c1" |};
    {| type := keyboard_layout; severity := low;
       description := "Layout confusion";
       suggestion := "Practice with consistent keyboard";
       color := "#20c997" |} ].

(** [this.errorPatterns.find(p => p.type === t)]. *)
Definition find_pattern (t : PatternType) : option ErrorPattern :=
  List.find (fun p => PatternType_eqb (type p) t) errorPatterns.

(** [classifyError], on one-character strings [expected] and [actual], as
    [recordError] receives them from the game. [None] is undefined. *)
Definition classifyError (expected actual : ascii) (timeTaken : float)
  : option ErrorPattern :=
  match lookup_key (JS.toLowerCase_char expected),
        lookup_key (JS.toLowerCase_char actual) with
  | Some expectedKey, Some actualKey =>
      (* Calculate distance between keys *)
      let distance :=
        Z.abs (row expectedKey - row actualKey)
        + Z.abs (col expectedKey - col actualKey) in
      (* Classify based on various factors *)
      if distance =? 1 then find_pattern finger_slip
      else if negb (String.eqb (finger expectedKey) (finger actualKey))
              && (distance <=? 2)
      then find_pattern finger_confusion
      else if (timeTaken <? 0.1)%float then find_pattern timing
      else if 3 <? distance then find_pattern visual
      else find_pattern muscle_memory
  | _, _ => find_pattern visual
  end.

(** The rules of the classifier as the specification words them, on the
    characters as they are given: ordered, the first match wins. *)
Definition classify_rules (expectedChar actualChar : ascii)
    (timeTakenSeconds : float) : PatternType :=
  match lookup_key expectedChar, lookup_key actualChar with
  | Some k1, Some k2 =>
      let d := Z.abs (row k1 - row k2) + Z.abs (col k1 - col k2) in
      if d =? 1 then finger_slip
      else if negb (String.eqb (finger k1) (finger k2)) && (d <=? 2)
      then finger_confusion
      else if (timeTakenSeconds <? 0.1)%float then timing
      else if 3 <? d then visual
      else muscle_memory
  | _, _ => visual
  end.

End ErrorFeedback.

(* ===================================================================== *)
(** ** [ErrorFeedbackService]: the log of errors and its analysis *)
(* ===================================================================== *)

Module ErrorLog.

Import ErrorFeedback.

(** [TypingError]. Its [id] is the text made of the clock reading and of
    nine digits of the random number in base 36; the two numbers are kept
    as they are. The two characters are one-character strings. *)
Record TypingError := {
  id : Z * float;
  timestamp : Z;
  expectedChar : ascii;
  actualChar : ascii;
  word : string;
  position : Z;
  timeTaken : float;
  pattern : option ErrorPattern;
  fingerUsed : string;
  keyDistance : float
}.

(** The two signals of the service, and how often it has read the clock
    and drawn a random number. *)
Record Service := {
  errors : list TypingError;
  sessionErrors : list TypingError;
  clockReads : nat;
  randomDraws : nat
}.

Definition initial : Service :=
  {| errors := []; sessionErrors := []; clockReads := 0; randomDraws := 0 |}.

(** A call returns, or throws a [TypeError]. *)
Inductive Outcome :=
| Returned (s : Service)
| TypeError (s : Service).

Definition state_of (o : Outcome) : Service :=
  match o with Returned s | TypeError s => s end.

(** [this.keyboardLayout[key.toLowerCase()]?.finger || 'unknown']; no
    finger of the layout is the empty string. *)
Definition getFingerForKey (key : ascii) : string :=
  match lookup_key (JS.toLowerCase_char key) with
  | Some k => finger k
  | None => "unknown"
  end.

(** [calculateKeyDistance]: the square root, in binary64, of a sum of two
    squares of small integers. *)
Definition calculateKeyDistance (key1 key2 : ascii) : float :=
  match lookup_key (JS.toLowerCase_char key1),
        lookup_key (JS.toLowerCase_char key2) with
  | Some pos1, Some pos2 =>
      PrimFloat.sqrt
        (JS.float_of_Z ((row pos1 - row pos2) ^ 2 + (col pos1 - col pos2) ^ 2))
  | _, _ => 0%float
  end.

(** [errors.slice(-n)]. *)
Definition slice_last {A} (n : nat) (l : list A) : list A :=
  skipn (List.length l - n) l.

Section Recording.

Variable W : World.

(** [recordError]. The caller indexes the current word for
    [expectedChar], which is undefined ([None]) beyond the end of the
    word; [expectedChar.toLowerCase()] then throws, after the clock was
    read twice and one random number was drawn. *)
Definition recordError (expectedChar : option ascii) (actualChar : ascii)
    (word : string) (position : Z) (timeTaken : float) (s : Service)
  : Outcome :=
  let now1 := Date_now W (clockReads s) in
  let r := Math_random W (randomDraws s) in
  let now2 := Date_now W (S (clockReads s)) in
  match expectedChar with
  | None =>
      TypeError {| errors := errors s; sessionErrors := sessionErrors s;
                   clockReads := S (S (clockReads s));
                   randomDraws := S (randomDraws s) |}
  | Some expected =>
      let error :=
        {| id := (now1, r);
           timestamp := now2;
           expectedChar := JS.toLowerCase_char expected;
           actualChar := JS.toLowerCase_char actualChar;
           word := word;
           position := position;
           timeTaken := timeTaken;
           pattern := classifyError expected actualChar timeTaken;
           fingerUsed := getFingerForKey actualChar;
           keyDistance := calculateKeyDistance expected actualChar |} in
      (* Add to both persistent and session errors *)
      let errors1 := (errors s ++ [error])%list in
      let sessionErrors1 := (sessionErrors s ++ [error])%list in
      (* Limit stored errors to prevent memory issues *)
      Returned
        {| errors := if (1000 <? List.length errors1)%nat
                     then slice_last 800 errors1 else errors1;
           sessionErrors := sessionErrors1;
           clockReads := S (S (clockReads s));
           randomDraws := S (randomDraws s) |}
  end.

End Recording.

Definition clearSessionErrors (s : Service) : Service :=
  {| errors := errors s; sessionErrors := [];
     clockReads := clockReads s; randomDraws := randomDraws s |}.

Definition clearAllErrors (s : Service) : Service :=
  {| errors := []; sessionErrors := [];
     clockReads := clockReads s; randomDraws := randomDraws s |}.

Definition getErrorsForKey (key : string) (s : Service) : list TypingError :=
  List.filter
    (fun error =>
       String.eqb (String (expectedChar error) EmptyString) (JS.toLowerCase key))
    (errors s).

(* --------------------------------------------------------------------- *)
(** *** [analyzeErrors] *)

(** A [Map], as the list of its entries in the order of insertion. *)
Definition Map_get {K V} (eqb : K -> K -> bool) (k : K) (m : list (K * V))
  : option V :=
  option_map snd (List.find (fun kv => eqb (fst kv) k) m).

Fixpoint Map_set {K V} (eqb : K -> K -> bool) (k : K) (v : V)
    (m : list (K * V)) : list (K * V) :=
  match m with
  | [] => [(k, v)]
  | (k', v') :: rest =>
      if eqb k' k then (k', v) :: rest
      else (k', v') :: Map_set eqb k v rest
  end.

(** [{ total, errors }]. *)
Record KeyData := {
  total : Z;
  kd_errors : Z
}.

(** [{ pattern, count }]; the pattern is what [find] returned. *)
Record PatternCount := {
  pc_pattern : option ErrorPattern;
  count : Z
}.

(** [{ key, errorCount, accuracy }]. The accuracy is an exact rational:
    the quotient it is made of is a double whenever its divisor is 1. *)
Record ProblematicKey := {
  key : ascii;
  errorCount : Z;
  accuracy : Q
}.

(** [ErrorAnalysis]. The error rate is an exact rational: the quotient of
    a positive integer by itself is the double 1. *)
Record ErrorAnalysis := {
  totalErrors : Z;
  errorRate : Q;
  commonPatterns : list PatternCount;
  problematicKeys : list ProblematicKey;
  recommendations : list string;
  improvementFocus : list string
}.

(** [array.sort((a, b) => b.count - a.count)]: descending, and stable. *)
Fixpoint insert_desc {A} (count : A -> Z) (x : A) (l : list A) : list A :=
  match l with
  | [] => [x]
  | y :: rest =>
      if count x <? count y then y :: insert_desc count x rest
      else x :: y :: rest
  end.

Definition sort_desc {A} (count : A -> Z) (l : list A) : list A :=
  List.fold_right (insert_desc count) [] l.

(** One round of the [forEach] over the errors. *)
Definition count_error
    (maps : list (PatternType * Z) * list (ascii * KeyData))
    (error : TypingError) : list (PatternType * Z) * list (ascii * KeyData) :=
  let patternCounts := fst maps in
  let keyCounts := snd maps in
  let patternCounts' :=
    match pattern error with
    | Some p =>
        let key := type p in
        Map_set PatternType_eqb key
          (default 0 (Map_get PatternType_eqb key patternCounts) + 1)
          patternCounts
    | None => patternCounts
    end in
  let keyData :=
    default {| total := 0; kd_errors := 0 |}
            (Map_get Ascii.eqb (expectedChar error) keyCounts) in
  let keyData' := {| total := total keyData; kd_errors := kd_errors keyData + 1 |} in
  (patternCounts', Map_set Ascii.eqb (expectedChar error) keyData' keyCounts).

(** [generateRecommendations]; [None] is the [TypeError] of reading the
    suggestion of an undefined pattern. *)
Definition generateRecommendations (patterns : list PatternCount)
    (keys : list ProblematicKey) : option (list string) :=
  let first :=
    match patterns with
    | [] => Some []
    | topPattern :: _ =>
        match pc_pattern topPattern with
        | Some p => Some [suggestion p]
        | None => None
        end
    end in
  match first with
  | None => None
  | Some recommendations1 =>
      let recommendations2 :=
        match keys with
        | [] => []
        | _ =>
            let topKeys :=
              String.concat ", "
                (List.map (fun k => String (key k) EmptyString) (firstn 3 keys)) in
            ["Focus on improving accuracy for keys: " ++ topKeys]
        end in
      (* Add general recommendations based on error count *)
      let totalErrors := List.fold_left (fun sum p => sum + count p) patterns 0 in
      Some (recommendations1 ++ recommendations2
            ++ if 50 <? totalErrors
               then ["Consider slowing down to improve accuracy"] else [])%list
  end.

Definition focus_of (t : PatternType) : string :=
  match t with
  | finger_slip => "Finger placement precision"
  | finger_confusion => "Proper finger assignments"
  | timing => "Typing rhythm and pacing"
  | visual => "Letter recognition and focus"
  | muscle_memory => "Key combination practice"
  | keyboard_layout => "Keyboard familiarity"
  end.

(** [[...new Set(focus)]]: the first occurrence of each text, in order. *)
Fixpoint dedupe (seen : list string) (l : list string) : list string :=
  match l with
  | [] => []
  | x :: rest =>
      if existsb (String.eqb x) seen then dedupe seen rest
      else x :: dedupe (x :: seen) rest
  end.

(** [generateImprovementFocus]; [None] is the [TypeError] of reading the
    type of an undefined pattern. *)
Fixpoint improvement_focus (patterns : list PatternCount)
  : option (list string) :=
  match patterns with
  | [] => Some []
  | p :: rest =>
      if 5 <=? count p then
        match pc_pattern p with
        | None => None
        | Some pat =>
            match improvement_focus rest with
            | Some focus => Some (focus_of (type pat) :: focus)
            | None => None
            end
        end
      else improvement_focus rest
  end.

Definition generateImprovementFocus (patterns : list PatternCount)
  : option (list string) :=
  option_map (dedupe []) (improvement_focus patterns).

Definition analyzeErrors (s : Service) : option ErrorAnalysis :=
  match errors s with
  | [] =>
      Some {| totalErrors := 0; errorRate := 0; commonPatterns := [];
              problematicKeys := []; recommendations := [];
              improvementFocus := [] |}
  | _ =>
      (* Pattern analysis *)
      let maps := List.fold_left count_error (errors s) ([], []) in
      let patternCounts := fst maps in
      let keyCounts := snd maps in
      (* Common patterns *)
      let commonPatterns :=
        sort_desc count
          (List.map (fun entry => {| pc_pattern := find_pattern (fst entry);
                                     count := snd entry |})
                    patternCounts) in
      (* Problematic keys *)
      let problematicKeys :=
        sort_desc errorCount
          (List.filter (fun item => 3 <=? errorCount item)
             (List.map
                (fun entry =>
                   let data := snd entry in
                   {| key := fst entry;
                      errorCount := kd_errors data;
                      accuracy :=
                        Qmax 0 (100 - (inject_Z (kd_errors data)
                                       / inject_Z (Z.max (total data) 1)) * 100) |})
                keyCounts)) in
      (* Generate recommendations *)
      match generateRecommendations commonPatterns problematicKeys,
            generateImprovementFocus commonPatterns with
      | Some recommendations, Some improvementFocus =>
          let n := Z.of_nat (List.length (sessionErrors s)) in
          Some {| totalErrors := Z.of_nat (List.length (errors s));
                  errorRate := if 0 <? n
                               then (inject_Z n / inject_Z n) * 100 else 0;
                  commonPatterns := commonPatterns;
                  problematicKeys := problematicKeys;
                  recommendations := recommendations;
                  improvementFocus := improvementFocus |}
      | _, _ => None
      end
  end.

(** What the game component passes for [expectedChar] when the input
    field holds [input]: [currentWord[input.length - 1]], undefined at the
    index -1 and beyond the end of the word. *)
Definition expectedChar_at (currentWord input : string) : option ascii :=
  if (String.length input =? 0)%nat then None
  else String.get (String.length input - 1) currentWord.

End ErrorLog.

(* ===================================================================== *)
(** ** [CustomTextService]: cleaning a text and counting its words *)
(* ===================================================================== *)

Module CustomTextService.

(** The class [\w] of a regular expression: letters, digits, underscore. *)
Definition isWordChar (c : ascii) : bool :=
  let n := nat_of_ascii c in
  ((48 <=? n) && (n <=? 57) || (65 <=? n) && (n <=? 90)
   || (97 <=? n) && (n <=? 122) || (n =? 95))%nat.

(** [content.replace(/\s+/g, ' ')]: every maximal run of white space
    becomes one space. *)
Fixpoint normalize_whitespace (s : string) : string :=
  match s with
  | EmptyString => EmptyString
  | String c r =>
      if JS.isWhitespace c then
        match r with
        | String c' _ =>
            if JS.isWhitespace c' then normalize_whitespace r
            else String " " (normalize_whitespace r)
        | EmptyString => String " " EmptyString
        end
      else String c (normalize_whitespace r)
  end.

(** [.replace(..., '')] with the negated class of [cleanText]: what is
    neither a word character, nor white space, nor one of the punctuation
    marks is removed. *)
Fixpoint remove_special (s : string) : string :=
  match s with
  | EmptyString => EmptyString
  | String c r =>
      if isWordChar c || JS.isWhitespace c || JS.isPunctuation c
      then String c (remove_special r)
      else remove_special r
  end.

Fixpoint trimStart (s : string) : string :=
  match s with
  | EmptyString => EmptyString
  | String c r => if JS.isWhitespace c then trimStart r else s
  end.

Fixpoint trimEnd (s : string) : string :=
  match s with
  | EmptyString => EmptyString
  | String c r =>
      match trimEnd r with
      | EmptyString => if JS.isWhitespace c then EmptyString
                       else String c EmptyString
      | r' => String c r'
      end
  end.

(** [String.prototype.trim]. *)
Definition trim (s : string) : string := trimEnd (trimStart s).

(** [cleanText]: normalize white space, remove special characters, trim. *)
Definition cleanText (content : string) : string :=
  trim (remove_special (normalize_whitespace content)).

Definition extractWords (content : string) : list string :=
  List.map JS.strip_punctuation
    (List.filter (fun word => (0 <? String.length word)%nat)
       (JS.split_whitespace (JS.toLowerCase content))).

End CustomTextService.

(* ===================================================================== *)
(** ** [HeatMapService]: the count of keystrokes *)
(* ===================================================================== *)

Module HeatMap.

Record KeyInfo := {
  finger : string;
  position : Z * Z;   (* row, col *)
  difficulty : Z
}.

(** QWERTY keyboard layout with finger mapping. *)
Definition keyboardLayout : list (ascii * KeyInfo) :=
  [ ("1"%char, {| finger := "left-pinky"; position := (0, 0); difficulty := 3 |});
    ("2"%char, {| finger := "left-ring"; position := (0, 1); difficulty := 3 |});
    ("3"%char, {| finger := "left-middle"; position := (0, 2); difficulty := 3 |});
    ("4"%char, {| finger := "left-index"; position := (0, 3); difficulty := 3 |});
    ("5"%char, {| finger := "left-index"; position := (0, 4); difficulty := 3 |});
    ("6"%char, {| finger := "right-index"; position := (0, 5); difficulty := 3 |});
    ("7"%char, {| finger := "right-index"; position := (0, 6); difficulty := 3 |});
    ("8"%char, {| finger := "right-middle"; position := (0, 7); difficulty := 3 |});
    ("9"%char, {| finger := "right-ring"; position := (0, 8); difficulty := 3 |});
    ("0"%char, {| finger := "right-pinky"; position := (0, 9); difficulty := 3 |});
    ("q"%char, {| finger := "left-pinky"; position := (1, 0); difficulty := 2 |});
    ("w"%char, {| finger := "left-ring"; position := (1, 1); difficulty := 2 |});
    ("e"%char, {| finger := "left-middle"; position := (1, 2); difficulty := 1 |});
    ("r"%char, {| finger := "left-index"; position := (1, 3); difficulty := 1 |});
    ("t"%char, {| finger := "left-index"; position := (1, 4); difficulty := 2 |});
    ("y"%char, {| finger := "right-index"; position := (1, 5); difficulty := 2 |});
    ("u"%char, {| finger := "right-index"; position := (1, 6); difficulty := 2 |});
    ("i"%char, {| finger := "right-middle"; position := (1, 7); difficulty := 1 |});
    ("o"%char, {| finger := "right-ring"; position := (1, 8); difficulty := 1 |});
    ("p"%char, {| finger := "right-pinky"; position := (1, 9); difficulty := 2 |});
    ("a"%char, {| finger := "left-pinky"; position := (2, 0); difficulty := 1 |});
    ("s"%char, {| finger := "left-ring"; position := (2, 1); difficulty := 1 |});
    ("d"%char, {| finger := "left-middle"; position := (2, 2); difficulty := 1 |});
    ("f"%char, {| finger := "left-index"; position := (2, 3); difficulty := 1 |});
    ("g"%char, {| finger := "left-index"; position := (2, 4); difficulty := 1 |});
    ("h"%char, {| finger := "right-index"; position := (2, 5); difficulty := 1 |});
    ("j"%char, {| finger := "right-index"; position := (2, 6); difficulty := 1 |});
    ("k"%char, {| finger := "right-middle"; position := (2, 7); difficulty := 1 |});
    ("l"%char, {| finger := "right-ring"; position := (2, 8); difficulty := 1 |});
    ("z"%char, {| finger := "left-pinky"; position := (3, 0); difficulty := 2 |});
    ("x"%char, {| finger := "left-ring"; position := (3, 1); difficulty := 2 |});
    ("c"%char, {| finger := "left-middle"; position := (3, 2); difficulty := 2 |});
    ("v"%char, {| finger := "left-index"; position := (3, 3); difficulty := 2 |});
    ("b"%char, {| finger := "left-index"; position := (3, 4); difficulty := 2 |});
    ("n"%char, {| finger := "right-index"; position := (3, 5); difficulty := 2 |});
    ("m"%char, {| finger := "right-index"; position := (3, 6); difficulty := 2 |});
    (" "%char, {| finger := "thumbs"; position := (4, 4); difficulty := 1 |});
    ("."%char, {| finger := "right-ring"; position := (3, 8); difficulty := 2 |});
    (","%char, {| finger := "right-middle"; position := (3, 7); difficulty := 2 |}) ].

Definition lookup_key (key : ascii) : option KeyInfo :=
  option_map snd (List.find (fun kv => Ascii.eqb (fst kv) key) keyboardLayout).

Record KeystrokeData := {
  key : ascii;
  attempts : Z;
  errors : Z;
  averageTime : float;
  totalTime : float;
  ks_finger : string;
  ks_position : Z * Z
}.

Record TypingError := {
  timestamp : Z;
  expectedKey : ascii;
  actualKey : ascii;
  word : string;
  te_position : Z;
  timeTaken : float
}.

Record HeatMapData := {
  keystroke : list KeystrokeData;
  hm_errors : list TypingError;
  lastUpdated : Z;
  totalKeystrokes : Z;
  totalErrors : Z;
  sessionId : string
}.

(** The value of the signal [heatMapData], and how often the service has
    read the clock. [recordKeystroke] changes the two arrays in place and
    sets a new object that holds them; the value kept here is the current
    one. The write to the local storage is left out. *)
Record Service := {
  heatMapData : HeatMapData;
  clockReads : nat
}.

(** [keystroke.attempts++] and what follows it, on the entry of the key. *)
Definition bump (timeTaken : float) (isCorrect : bool) (keystroke : KeystrokeData)
  : KeystrokeData :=
  let attempts' := attempts keystroke + 1 in
  let totalTime' := (totalTime keystroke + timeTaken)%float in
  {| key := key keystroke;
     attempts := attempts';
     errors := if isCorrect then errors keystroke else errors keystroke + 1;
     averageTime := (totalTime' / JS.float_of_Z attempts')%float;
     totalTime := totalTime';
     ks_finger := ks_finger keystroke;
     ks_position := ks_position keystroke |}.

(** The change of the first entry of the key [k], the one [find] returns. *)
Fixpoint update_first (k : ascii) (f : KeystrokeData -> KeystrokeData)
    (l : list KeystrokeData) : list KeystrokeData :=
  match l with
  | [] => []
  | x :: rest =>
      if Ascii.eqb (key x) k then f x :: rest
      else x :: update_first k f rest
  end.

Section Recording.

Variable W : World.

(** [recordKeystroke]. The optional arguments are [None] when undefined;
    an expected key that is given is a one-character string. *)
Definition recordKeystroke (key0 : ascii) (timeTaken0 : float) (isCorrect : bool)
    (expectedKey0 : option ascii) (word0 : option string)
    (position0 : option Z) (s : Service) : Service :=
  let lowerKey := JS.toLowerCase_char key0 in
  match lookup_key lowerKey with
  | None => s (* Ignore unknown keys *)
  | Some keyInfo =>
      let data := heatMapData s in
      let pushed :=
        match List.find (fun k => Ascii.eqb (key k) lowerKey) (keystroke data) with
        | Some _ => keystroke data
        | None =>
            (keystroke data
             ++ [{| key := lowerKey; attempts := 0; errors := 0;
                    averageTime := 0; totalTime := 0;
                    ks_finger := finger keyInfo;
                    ks_position := position keyInfo |}])%list
        end in
      (* Update keystroke data *)
      let keystroke' := update_first lowerKey (bump timeTaken0 isCorrect) pushed in
      (* Record the error *)
      let logged :=
        match isCorrect, expectedKey0, word0, position0 with
        | false, Some expected, Some w, Some p =>
            Some {| timestamp := Date_now W (clockReads s);
                    expectedKey := JS.toLowerCase_char expected;
                    actualKey := lowerKey;
                    word := w; te_position := p; timeTaken := timeTaken0 |}
        | _, _, _, _ => None
        end in
      let reads := match logged with
                   | Some _ => S (clockReads s)
                   | None => clockReads s
                   end in
      {| heatMapData :=
           {| keystroke := keystroke';
              hm_errors := match logged with
                           | Some e => (hm_errors data ++ [e])%list
                           | None => hm_errors data
                           end;
              lastUpdated := Date_now W reads;
              totalKeystrokes := totalKeystrokes data + 1;
              totalErrors := if isCorrect then totalErrors data
                             else totalErrors data + 1;
              sessionId := sessionId data |};
         clockReads := S reads |}
  end.

(** [getInitialHeatMapData], and the service that holds it. *)
Definition getInitialHeatMapData (s : Service) : Service :=
  {| heatMapData :=
       {| keystroke := []; hm_errors := [];
          lastUpdated := Date_now W (clockReads s);
          totalKeystrokes := 0; totalErrors := 0; sessionId := "" |};
     clockReads := S (clockReads s) |}.

End Recording.

End HeatMap.

(* ===================================================================== *)
(** ** Vocabulary of the statements *)
(* ===================================================================== *)

Import Game.
Local Open Scope game_scope.

(** [s'] differs from [s] at most in the position of the custom text, the
    pending timeouts and the number of random draws: all that fetching a
    word can change. *)
Definition fetched (s s' : GameService) : Prop :=
  gameState s' = gameState s
  /\ currentSettings s' = currentSettings s
  /\ timerSubscription s' = timerSubscription s
  /\ wordTimerSubscription s' = wordTimerSubscription s
  /\ gameStartTime s' = gameStartTime s
  /\ wordStartTime s' = wordStartTime s
  /\ customTextWords s' = customTextWords s
  /\ subscriptions s' = subscriptions s
  /\ nextSubscription s' = nextSubscription s
  /\ clockReads s' = clockReads s.

(** The session is active in the sense of [restartWordTimer]. *)
Definition active (gs : GameState) : bool :=
  isPlaying gs && negb (isGameOver gs) && negb (isPaused gs).

(** The state in which [processInput] takes its decision: the clock was
    read once and [input] was stored. *)
Definition input_stored (input : string) (s : GameService) : GameService :=
  set_gameState
    {| isPlaying := isPlaying (gameState s);
       isGameOver := isGameOver (gameState s);
       isPaused := isPaused (gameState s);
       currentWord := currentWord (gameState s);
       userInput := input;
       score := score (gameState s);
       correctWords := correctWords (gameState s);
       totalWords := totalWords (gameState s);
       accuracy := accuracy (gameState s); wpm := wpm (gameState s);
       timeRemaining := timeRemaining (gameState s);
       streak := streak (gameState s);
       multiplier := multiplier (gameState s);
       gameTimeTotal := gameTimeTotal (gameState s);
       wordsTyped := wordsTyped (gameState s);
       mistakes := mistakes (gameState s) |}
    (set_reads (S (clockReads s)) (randomDraws s) s).

(** The time [processInput] and [skipWord] measure in state [s]. *)
Definition timeTaken_in (W : World) (s : GameService) : float :=
  JS.seconds_between (Date_now W (clockReads s)) (wordStartTime s).

(** The state record an incorrect-word commit builds from [state]. *)
Definition incorrect_commit (state : GameState) (nextWord : string) : GameState :=
  {| isPlaying := isPlaying state; isGameOver := isGameOver state;
     isPaused := isPaused state;
     currentWord := nextWord; userInput := "";
     score := score state; correctWords := correctWords state;
     totalWords := totalWords state + 1;
     accuracy := accuracy state; wpm := wpm state;
     timeRemaining := timeRemaining state;
     streak := 0; multiplier := 1;
     gameTimeTotal := gameTimeTotal state;
     wordsTyped := wordsTyped state ++ [currentWord state];
     mistakes := mistakes state + 1 |}.

(** The state record a correct-word commit builds from [state]. *)
Definition correct_commit (state : GameState) (timeTaken : float)
    (nextWord : string) : GameState :=
  {| isPlaying := isPlaying state; isGameOver := isGameOver state;
     isPaused := isPaused state;
     currentWord := nextWord; userInput := "";
     score := score state + JS.Math_roundQ (totalScore state timeTaken);
     correctWords := correctWords state + 1;
     totalWords := totalWords state + 1;
     accuracy := accuracy state; wpm := wpm state;
     timeRemaining := timeRemaining state;
     streak := streak state + 1;
     multiplier := newMultiplier (streak state + 1);
     gameTimeTotal := gameTimeTotal state;
     wordsTyped := wordsTyped state ++ [currentWord state];
     mistakes := mistakes state |}.

(** What an incorrect-word commit does to the counters. *)
Definition incorrect_effect (before after : GameState) : Prop :=
  totalWords after = totalWords before + 1
  /\ mistakes after = mistakes before + 1
  /\ streak after = 0
  /\ multiplier after = 1%Q
  /\ score after = score before
  /\ correctWords after = correctWords before
  /\ userInput after = "".

(** A clock that returns the given readings in turn, then the last of
    them for ever; the random generator always returns 0. *)
Definition world_of (readings : list Z) : World :=
  {| Date_now := fun n => nth n readings (List.last readings 0);
     Math_random := fun _ => 0%float;
     Text_stored := fun _ _ => false |}.

(** [startGame(settings)] with a category, a difficulty and a duration. *)
Definition settings_of (category difficulty : string) (duration : Z)
  : option PartialGameSettings :=
  Some {| p_difficulty := Some difficulty; p_category := Some category;
          p_gameDuration := Some duration; p_wordsPerGame := None;
          p_customText := None; p_isCustomMode := None |}.

(** A session started at time 0 on the easy basic words; with the random
    number 0 its first word is "the". The next clock reading is 1000. *)
Definition world_A : World := world_of [0; 0; 1000].

Definition session_A : GameService :=
  state_of (startGame world_A (settings_of "Basic" "Easy" 60) initial).


(** The state after [k] more readings of the clock. *)
Definition after_reads (k : nat) (s : GameService) : GameService :=
  set_reads (k + clockReads s) (randomDraws s) s.

(** A session started at time 0 on the easy basic words (4 seconds a word);
    the clock then reads 3999 and 4000. *)
Definition world_B : World := world_of [0; 0; 3999; 4000].

Definition session_B : GameService :=
  state_of (startGame world_B (settings_of "Basic" "Easy" 60) initial).

(** What a correct-word commit after [timeTaken] seconds does to the
    counters. *)
Definition correct_effect (timeTaken : float) (before after : GameState) : Prop :=
  score after = score before + JS.Math_roundQ (totalScore before timeTaken)
  /\ streak after = streak before + 1
  /\ multiplier after = newMultiplier (streak before + 1)
  /\ correctWords after = correctWords before + 1
  /\ totalWords after = totalWords before + 1
  /\ mistakes after = mistakes before
  /\ userInput after = "".

(** The service before any game: the clock reads 5000. *)
Definition world_idle : World := world_of [5000].

(** The player types the current word, correctly, [n] times in a row. *)
Fixpoint type_current_word (W : World) (n : nat) : M unit :=
  match n with
  | O => ret tt
  | S k =>
      let* gs := gets gameState in
      processInput W (currentWord gs) ;;;
      type_current_word W k
  end.

(** The game state [endGame] writes. *)
Definition game_over (state : GameState) : GameState :=
  {| isPlaying := false; isGameOver := true; isPaused := false;
     currentWord := currentWord state; userInput := userInput state;
     score := score state; correctWords := correctWords state;
     totalWords := totalWords state; accuracy := accuracy state;
     wpm := wpm state; timeRemaining := timeRemaining state;
     streak := streak state; multiplier := multiplier state;
     gameTimeTotal := gameTimeTotal state;
     wordsTyped := wordsTyped state; mistakes := mistakes state |}.

(** The service after the [tap] of the session timer took one second off. *)
Definition decremented (s : GameService) : GameService :=
  set_gameState
    {| isPlaying := isPlaying (gameState s);
       isGameOver := isGameOver (gameState s);
       isPaused := isPaused (gameState s);
       currentWord := currentWord (gameState s);
       userInput := userInput (gameState s);
       score := score (gameState s);
       correctWords := correctWords (gameState s);
       totalWords := totalWords (gameState s);
       accuracy := accuracy (gameState s); wpm := wpm (gameState s);
       timeRemaining := Z.max 0 (timeRemaining (gameState s) - 1);
       streak := streak (gameState s);
       multiplier := multiplier (gameState s);
       gameTimeTotal := gameTimeTotal (gameState s);
       wordsTyped := wordsTyped (gameState s);
       mistakes := mistakes (gameState s) |} s.

(** No timer of the service is open. *)
Definition timers_closed (s : GameService) : Prop :=
  (forall h, timerSubscription s = Some h -> subscriptions s !! h = None)
  /\ (forall h, wordTimerSubscription s = Some h -> subscriptions s !! h = None).

(** A session started at time 0 on the common words of medium difficulty
    (2.5 seconds a word); the clock then reads 2500. *)
Definition world_C : World := world_of [0; 0; 2500].

Definition session_C : GameService :=
  state_of (startGame world_C (settings_of "Common" "Medium" 60) initial).

(** The session timer and the word timer both find their [takeWhile]
    false: the session is paused or is not playing. *)
Definition stopped (gs : GameState) : Prop :=
  isPaused gs = true \/ isPlaying gs = false.

(** The clock of the session and its word counters are the same in both
    states: no second went by and no word was committed. *)
Definition frozen (gs gs' : GameState) : Prop :=
  timeRemaining gs' = timeRemaining gs
  /\ totalWords gs' = totalWords gs
  /\ correctWords gs' = correctWords gs
  /\ mistakes gs' = mistakes gs
  /\ score gs' = score gs
  /\ streak gs' = streak gs
  /\ currentWord gs' = currentWord gs
  /\ wordsTyped gs' = wordsTyped gs.

(** A session started at time 0 on the common words of medium difficulty
    (2.5 seconds a word); it is paused at time 1000 and resumed at time
    11000, and the clock reads 11100 at the next emission. *)
Definition world_D : World := world_of [0; 0; 11100].

Definition session_D : GameService :=
  state_of (startGame world_D (settings_of "Common" "Medium" 60) initial).

Definition session_D_resumed : GameService :=
  state_of (pauseGame (state_of (pauseGame session_D))).

(** Every character of [s] satisfies [P]. *)
Fixpoint string_forall (P : ascii -> bool) (s : string) : bool :=
  match s with
  | EmptyString => true
  | String c r => P c && string_forall P r
  end.

(** A character that can occur in a word of a custom text: no white space,
    no punctuation of the stripped class, and not changed by lower-casing. *)
Definition word_char (c : ascii) : bool :=
  negb (JS.isWhitespace c) && negb (JS.isPunctuation c)
  && Ascii.eqb (JS.toLowerCase_char c) c.

(** A custom text of three words, and a session on it that was started at
    time 0 and in which the first word has been typed. *)
Definition text_E : CustomText :=
  {| ct_id := "text-1"; ct_content := "Hello, big  (World)! " |}.

Definition session_E : GameService :=
  state_of
    (startGame world_A
       (Some {| p_difficulty := None; p_category := None;
                p_gameDuration := Some 60; p_wordsPerGame := None;
                p_customText := Some (Some text_E);
                p_isCustomMode := Some (Some true) |})
       initial).

Definition session_E1 : GameService :=
  state_of (processInput world_A "hello" session_E).

(** A custom text of two words and a session on it, started at time 0. *)
Definition text_F : CustomText :=
  {| ct_id := "text-2"; ct_content := "alpha beta" |}.

Definition session_F : GameService :=
  state_of
    (startGame world_A
       (Some {| p_difficulty := None; p_category := None;
                p_gameDuration := Some 60; p_wordsPerGame := None;
                p_customText := Some (Some text_F);
                p_isCustomMode := Some (Some true) |})
       initial).

(* ===================================================================== *)
(** ** The calls of the service and the changes of the game state *)
(* ===================================================================== *)

(** What reaches the service: a call of one of its public methods, or
    something the run-time delivers. *)
Inductive Call :=
| CallStart (settings : option PartialGameSettings)
| CallPause
| CallEnd
| CallReset
| CallInput (input : string)
| CallSkip
| Deliver (e : Event).

(** The state a call leaves, whether it returns or throws. *)
Definition perform (W : World) (c : Call) (s : GameService) : GameService :=
  match c with
  | CallStart settings => state_of (startGame W settings s)
  | CallPause => state_of (pauseGame s)
  | CallEnd => state_of (endGame s)
  | CallReset => state_of (resetGame s)
  | CallInput input => state_of (processInput W input s)
  | CallSkip => state_of (skipWord W s)
  | Deliver e => state_of (deliver W e s)
  end.

Fixpoint perform_all (W : World) (cs : list Call) (s : GameService)
  : GameService :=
  match cs with
  | [] => s
  | c :: cs' => perform_all W cs' (perform W c s)
  end.

(** The game state with another input, as the first update of
    [processInput] writes it. *)
Definition with_userInput (input : string) (state : GameState) : GameState :=
  {| isPlaying := isPlaying state; isGameOver := isGameOver state;
     isPaused := isPaused state; currentWord := currentWord state;
     userInput := input;
     score := score state; correctWords := correctWords state;
     totalWords := totalWords state; accuracy := accuracy state;
     wpm := wpm state; timeRemaining := timeRemaining state;
     streak := streak state; multiplier := multiplier state;
     gameTimeTotal := gameTimeTotal state;
     wordsTyped := wordsTyped state; mistakes := mistakes state |}.

(** The game state with the pause flag flipped, as [pauseGame] writes it. *)
Definition pause_toggled (state : GameState) : GameState :=
  {| isPlaying := isPlaying state; isGameOver := isGameOver state;
     isPaused := negb (isPaused state);
     currentWord := currentWord state; userInput := userInput state;
     score := score state; correctWords := correctWords state;
     totalWords := totalWords state; accuracy := accuracy state;
     wpm := wpm state; timeRemaining := timeRemaining state;
     streak := streak state; multiplier := multiplier state;
     gameTimeTotal := gameTimeTotal state;
     wordsTyped := wordsTyped state; mistakes := mistakes state |}.

(** The game state one second later, as the session timer writes it. *)
Definition ticked (state : GameState) : GameState :=
  {| isPlaying := isPlaying state; isGameOver := isGameOver state;
     isPaused := isPaused state;
     currentWord := currentWord state; userInput := userInput state;
     score := score state; correctWords := correctWords state;
     totalWords := totalWords state; accuracy := accuracy state;
     wpm := wpm state;
     timeRemaining := Z.max 0 (timeRemaining state - 1);
     streak := streak state; multiplier := multiplier state;
     gameTimeTotal := gameTimeTotal state;
     wordsTyped := wordsTyped state; mistakes := mistakes state |}.

(** The game state [startGame] sets. *)
Definition started (newWord : string) (duration : Z) : GameState :=
  {| isPlaying := true; isGameOver := false; isPaused := false;
     currentWord := newWord; userInput := "";
     score := 0; correctWords := 0; totalWords := 0;
     accuracy := 100; wpm := 0; timeRemaining := duration;
     streak := 0; multiplier := 1; gameTimeTotal := 60;
     wordsTyped := []; mistakes := 0 |}.

(** One change of the game state within a game. The session timer writes
    only while time remains, its [takeWhile] lets no emission through
    otherwise; the emission that takes the last second ends the game in
    the same step. *)
Inductive Play (gs : GameState) : GameState -> Prop :=
| play_input (input : string) : Play gs (with_userInput input gs)
| play_correct (timeTaken : float) (nextWord : string) :
    Play gs (correct_commit gs timeTaken nextWord)
| play_incorrect (nextWord : string) :
    Play gs (incorrect_commit gs nextWord)
| play_tick : 1 < timeRemaining gs -> Play gs (ticked gs)
| play_last_tick : timeRemaining gs = 1 -> Play gs (game_over (ticked gs))
| play_pause : Play gs (pause_toggled gs)
| play_over : Play gs (game_over gs).

(** One change of the game state: within a game, or to a new game. *)
Inductive Change (gs : GameState) : GameState -> Prop :=
| change_play gs' : Play gs gs' -> Change gs gs'
| change_reset : Change gs getInitialState
| change_start (newWord : string) (duration : Z) :
    Change gs (started newWord duration).

(** The counters tell one story: every word counted is either correct or
    a mistake and is in the history, and the streak is made of correct
    words. *)
Definition counters_consistent (gs : GameState) : Prop :=
  totalWords gs = correctWords gs + mistakes gs
  /\ Z.of_nat (List.length (wordsTyped gs)) = totalWords gs
  /\ 0 <= streak gs <= correctWords gs
  /\ 0 <= mistakes gs.

(** The multiplier is the one the streak gives, and the score is not
    negative. *)
Definition scoring_consistent (gs : GameState) : Prop :=
  0 <= streak gs
  /\ (multiplier gs == newMultiplier (streak gs))%Q
  /\ 0 <= score gs.

(** The settings after [startGame(settings)] has merged them. *)
Definition settings_after (settings : option PartialGameSettings)
    (s : GameService) : GameSettings :=
  match settings with
  | Some p => merge_settings (currentSettings s) p
  | None => currentSettings s
  end.

(** [startGame] will take the word from the custom text. *)
Definition starts_custom (cs : GameSettings) : bool :=
  bool_decide (isCustomMode cs = Some true)
  && match customText cs with Some _ => true | None => false end.

(** The non-empty prefixes of a text, shortest first: what the input field
    holds after each key when the text is typed without a slip. *)
Fixpoint prefixes (text : string) : list string :=
  match text with
  | EmptyString => []
  | String c r => String c EmptyString :: List.map (String c) (prefixes r)
  end.

(** The input field changes to each of [inputs] in turn. *)
Fixpoint type_inputs (W : World) (inputs : list string) : M (list TypingResult) :=
  match inputs with
  | [] => ret []
  | input :: rest =>
      let* r := processInput W input in
      let* rs := type_inputs W rest in
      ret (r :: rs)
  end.

(** The service after [startGame(settings)] has merged the settings. *)
Definition settings_merged (settings : option PartialGameSettings)
    (s : GameService) : GameService :=
  match settings with
  | Some p => set_currentSettings (merge_settings (currentSettings s) p) s
  | None => s
  end.

(** The call is neither [startGame] nor [resetGame]. *)
Definition in_game (c : Call) : Prop :=
  match c with
  | CallStart _ | CallReset => False
  | _ => True
  end.

(** From [gs] to [gs'] the game only moved on: nothing was taken from the
    score, the counters or the history, no time was given back, and the
    time did not go below 0 unless it was there already, in which case it
    stayed as it was. *)
Definition moved_on (gs gs' : GameState) : Prop :=
  score gs <= score gs'
  /\ correctWords gs <= correctWords gs'
  /\ mistakes gs <= mistakes gs'
  /\ (exists l, wordsTyped gs' = (wordsTyped gs ++ l)%list
                /\ Z.of_nat (List.length l) = totalWords gs' - totalWords gs)
  /\ Z.min 0 (timeRemaining gs) <= timeRemaining gs' <= timeRemaining gs.

(** A game on the easy basic words, then a typed word, a skip, a tick of
    the session timer, a pause and the end. *)
Definition calls_A : list Call :=
  [CallInput "the"; CallSkip; Deliver (Emit 0%nat); CallPause; CallEnd].

(** The calls that start the session [session_A]. *)
Definition calls_start_A : list Call :=
  [CallStart (settings_of "Basic" "Easy" 60)].

(** The session [session_A] after a call of [startGame] that names a
    category the word service does not know. *)
Definition session_A_failed : GameService :=
  state_of (startGame world_A (settings_of "Poetry" "Easy" 60) session_A).

(** Both timers of [startGame] are open on top of the subscriptions of
    [s]. *)
Definition timers_opened (s s1 : GameService) : Prop :=
  timerSubscription s1 = Some (nextSubscription s)
  /\ wordTimerSubscription s1 = Some (S (nextSubscription s))
  /\ subscriptions s1
     = <[S (nextSubscription s) :=
           WordTimer (WordService.getTimePerWord
                        (difficulty (currentSettings s1)))]>
         (<[nextSubscription s := GameTimer]> (subscriptions s))
  /\ nextSubscription s1 = S (S (nextSubscription s)).

(** [session_A] started once more, with the first session still running. *)
Definition session_A_again : GameService :=
  state_of (startGame world_A None session_A).

(** The session [session_F] after its text was typed through and the end
    of the game was scheduled. *)
Definition session_F3 : GameService :=
  perform_all world_A
    [CallInput "alpha"; CallInput "beta"; CallInput "alpha"] session_F.

(** [session_A] after the calls of [calls_A], which end the game. *)
Definition session_A_over : GameService :=
  perform_all world_A calls_A session_A.

(** [session_A] started twice and then paused: the pause closes the timers
    of the second start, those of the first are still open. *)
Definition session_A_paused : GameService :=
  perform world_A CallPause session_A_again.

(** The subscriptions after the word timer behind the handle of [s] was
    closed and a fresh one was opened. *)
Definition word_timer_replaced (s : GameService) : gmap nat Timer :=
  <[nextSubscription s :=
      WordTimer (WordService.getTimePerWord (difficulty (currentSettings s)))]>
    (match wordTimerSubscription s with
     | Some old => delete old (subscriptions s)
     | None => subscriptions s
     end).

(* ===================================================================== *)
(** ** The words of a difficulty *)
(* ===================================================================== *)

(** The word is within the length window of the difficulty: the test of
    the filter in [getRandomWord]. *)
Definition fits (d : WordService.DifficultyLevel) (word : string) : bool :=
  (WordService.wordLength_min d <=? String.length word)%nat
  && (String.length word <=? WordService.wordLength_max d)%nat.

(** The pairs of a category and a difficulty for which no word of the
    category is within the window of the difficulty. *)
Definition fallback_pairs : list (string * string) :=
  [ ("Basic", "Medium"); ("Basic", "Hard"); ("Basic", "Expert");
    ("Common", "Expert"); ("Advanced", "Easy"); ("Advanced", "Medium") ].

(* ===================================================================== *)
(** ** The calls of the error service *)
(* ===================================================================== *)

(** What reaches [ErrorFeedbackService]. *)
Inductive LogCall :=
| CallRecord (expectedChar : option ascii) (actualChar : ascii)
             (word : string) (position : Z) (timeTaken : float)
| CallClearSession
| CallClearAll.

(** The service a call leaves, whether it returns or throws. *)
Definition log_perform (W : World) (c : LogCall) (s : ErrorLog.Service)
  : ErrorLog.Service :=
  match c with
  | CallRecord e a w p t => ErrorLog.state_of (ErrorLog.recordError W e a w p t s)
  | CallClearSession => ErrorLog.clearSessionErrors s
  | CallClearAll => ErrorLog.clearAllErrors s
  end.

Fixpoint log_perform_all (W : World) (cs : list LogCall) (s : ErrorLog.Service)
  : ErrorLog.Service :=
  match cs with
  | [] => s
  | c :: cs' => log_perform_all W cs' (log_perform W c s)
  end.

(** What the calls keep true of the two logs. *)
Definition logs_consistent (s : ErrorLog.Service) : Prop :=
  (List.length (ErrorLog.errors s) <= 1000)%nat
  /\ (ErrorLog.errors s `suffix_of` ErrorLog.sessionErrors s
      \/ ErrorLog.sessionErrors s `suffix_of` ErrorLog.errors s)
  /\ (ErrorLog.sessionErrors s <> [] -> ErrorLog.errors s <> []).

(** The call is a [recordError] with an expected character. *)
Definition records (c : LogCall) : Prop :=
  match c with
  | CallRecord (Some _) _ _ _ _ => True
  | _ => False
  end.

(** Two slips of the finger. *)
Definition log_calls_B : list LogCall :=
  [ CallRecord (Some "t"%char) "r"%char "the" 0 0.5;
    CallRecord (Some "h"%char) "j"%char "the" 1 0.5 ].

(** The list is in descending order of [count]. *)
Fixpoint descending {A} (count : A -> Z) (l : list A) : Prop :=
  match l with
  | [] => True
  | x :: rest =>
      match rest with
      | [] => True
      | y :: _ => count y <= count x
      end
      /\ descending count rest
  end.

(** The sum of the counts of the patterns. *)
Definition sum_counts (patterns : list ErrorLog.PatternCount) : Z :=
  List.fold_right (fun p sum => ErrorLog.count p + sum) 0 patterns.

(** The common patterns and the problematic keys that [analyzeErrors]
    computes from the errors of the log. *)
Definition common_patterns_of (errors : list ErrorLog.TypingError)
  : list ErrorLog.PatternCount :=
  ErrorLog.sort_desc ErrorLog.count
    (List.map (fun entry =>
                 {| ErrorLog.pc_pattern := ErrorFeedback.find_pattern (fst entry);
                    ErrorLog.count := snd entry |})
              (fst (List.fold_left ErrorLog.count_error errors ([], [])))).

Definition problematic_keys_of (errors : list ErrorLog.TypingError)
  : list ErrorLog.ProblematicKey :=
  ErrorLog.sort_desc ErrorLog.errorCount
    (List.filter (fun item => 3 <=? ErrorLog.errorCount item)
       (List.map
          (fun entry =>
             let data := snd entry in
             {| ErrorLog.key := fst entry;
                ErrorLog.errorCount := ErrorLog.kd_errors data;
                ErrorLog.accuracy :=
                  Qmax 0 (100 - (inject_Z (ErrorLog.kd_errors data)
                                 / inject_Z (Z.max (ErrorLog.total data) 1))
                                * 100) |})
          (snd (List.fold_left ErrorLog.count_error errors ([], []))))).

(** The error rate [analyzeErrors] reports. *)
Definition reported_rate (s : ErrorLog.Service) : Q :=
  match ErrorLog.errors s, ErrorLog.sessionErrors s with
  | _ :: _, _ :: _ => 100
  | _, _ => 0
  end.

(** The general recommendation of [generateRecommendations]. *)
Definition slow_down : string := "Consider slowing down to improve accuracy".

(** The sum of a list of integers. *)
Fixpoint list_sum_Z (l : list Z) : Z :=
  match l with
  | [] => 0
  | x :: rest => x + list_sum_Z rest
  end.

(** The entry holds a pattern, and its suggestion is not the general
    recommendation. *)
Definition pattern_found (p : ErrorLog.PatternCount) : Prop :=
  exists pat, ErrorLog.pc_pattern p = Some pat
              /\ ErrorFeedback.suggestion pat <> slow_down.

(** What the loop of [analyzeErrors] keeps true of the data of a key. *)
Definition key_counted (data : ErrorLog.KeyData) : Prop :=
  ErrorLog.total data = 0 /\ 1 <= ErrorLog.kd_errors data.

(* ===================================================================== *)
(** ** Clean texts *)
(* ===================================================================== *)

(** The characters [cleanText] leaves: word characters, the space and the
    punctuation marks. *)
Definition clean_char (c : ascii) : bool :=
  CustomTextService.isWordChar c || Ascii.eqb c " " || JS.isPunctuation c.

(** The string does not begin, and does not end, with a space. *)
Definition no_space_at_start (s : string) : Prop :=
  match s with
  | String c _ => c <> " "%char
  | EmptyString => True
  end.

Fixpoint no_space_at_end (s : string) : Prop :=
  match s with
  | EmptyString => True
  | String c EmptyString => c <> " "%char
  | String _ r => no_space_at_end r
  end.

(** The words the game serves for a text with this content. *)
Definition game_words (content : string) : list string :=
  List.filter (fun word => (0 <? String.length word)%nat)
    (List.map JS.strip_punctuation
       (JS.split_whitespace (JS.toLowerCase content))).

(* ===================================================================== *)
(** ** A game on a custom text *)
(* ===================================================================== *)

(** A game on a custom text of words [ws] in which [k] words were
    committed: the word at [k] is the current one, and the index is one
    further. *)
Definition custom_game_at (ws : list string) (k : nat) (s : GameService) : Prop :=
  isCustomMode (currentSettings s) = Some true
  /\ customTextWords s = ws
  /\ customTextIndex s = ((k + 1) mod List.length ws)%nat
  /\ currentWord (gameState s) = nth k ws ""
  /\ totalWords (gameState s) = Z.of_nat k.

(** [startGame] with a custom text. *)
Definition custom_settings (text : CustomText) : option PartialGameSettings :=
  Some {| p_difficulty := None; p_category := None;
          p_gameDuration := None; p_wordsPerGame := None;
          p_customText := Some (Some text);
          p_isCustomMode := Some (Some true) |}.

(** A custom text of one word, and the service after a game on the easy
    basic words in which one word was typed. *)
Definition text_G : CustomText :=
  {| ct_id := "text-3"; ct_content := "Done." |}.

Definition session_A1 : GameService :=
  perform_all world_A [CallInput "the"; CallEnd] session_A.

(** A game of no duration on the easy basic words. *)
Definition session_Z : GameService :=
  state_of (startGame world_A (settings_of "Basic" "Easy" 0) initial).

(* ===================================================================== *)
(** ** The keystrokes the heat map receives *)
(* ===================================================================== *)

(** The arguments of one call of [recordKeystroke]. *)
Record Keystroke := {
  k_key : ascii;
  k_timeTaken : float;
  k_isCorrect : bool;
  k_expectedKey : option ascii;
  k_word : option string;
  k_position : option Z
}.

Fixpoint record_keystrokes (W : World) (ks : list Keystroke) (s : HeatMap.Service)
  : HeatMap.Service :=
  match ks with
  | [] => s
  | k :: rest =>
      record_keystrokes W rest
        (HeatMap.recordKeystroke W (k_key k) (k_timeTaken k) (k_isCorrect k)
           (k_expectedKey k) (k_word k) (k_position k) s)
  end.

(** The key is on the layout of the heat map. *)
Definition on_heat_map (k : Keystroke) : bool :=
  match HeatMap.lookup_key (JS.toLowerCase_char (k_key k)) with
  | Some _ => true
  | None => false
  end.

(** The counters of the heat map agree. *)
Definition heat_map_consistent (d : HeatMap.HeatMapData) : Prop :=
  list_sum_Z (List.map HeatMap.attempts (HeatMap.keystroke d))
  = HeatMap.totalKeystrokes d
  /\ list_sum_Z (List.map HeatMap.errors (HeatMap.keystroke d))
     = HeatMap.totalErrors d
  /\ Forall (fun k => 0 <= HeatMap.errors k <= HeatMap.attempts k
                      /\ 1 <= HeatMap.attempts k)
            (HeatMap.keystroke d)
  /\ NoDup (List.map HeatMap.key (HeatMap.keystroke d))
  /\ (Z.of_nat (List.length (HeatMap.hm_errors d)) <= HeatMap.totalErrors d).

(** A clean text of ten pieces, the least [importFromString] accepts,
    none of which holds a letter. *)
Definition text_H : CustomText :=
  {| ct_id := "text-4"; ct_content := "- - - - - - - - - -" |}.

(** The words [initializeCustomText] makes of a text. *)
Definition words_of_text (text : CustomText) : list string :=
  List.filter (fun word => (0 <? String.length word)%nat)
    (List.map JS.strip_punctuation
       (JS.split_whitespace (JS.toLowerCase (ct_content text)))).

(** What [customTextService.recordUsage] leaves in the game service: one
    more reading of the clock when the text is a stored one. *)
Definition usage_recorded (W : World) (id : string) (s : GameService)
  : GameService :=
  if Text_stored W (clockReads s) id
  then set_reads (S (clockReads s)) (randomDraws s) s
  else s.

(* ===================================================================== *)
(** ** The word a commit fetches *)
(* ===================================================================== *)

(** The word source in state [s] serves the word [w] and leaves the index
    of the custom text at [i] and the number of random draws at [r]. In
    custom-text mode [w] is the word at the index of the custom text and
    the index moves on by one, cyclically ("end" and no move for a text
    without words). Otherwise [w] is the word [WordService.getRandomWord]
    returns for the category, the difficulty and the next random number,
    and that number is drawn. *)
Definition serves (W : World) (s : GameService) (w : string) (i r : nat)
  : Prop :=
  let cs := currentSettings s in
  if bool_decide (isCustomMode cs = Some true) then
    r = randomDraws s
    /\ match customTextWords s with
       | [] => w = "end" /\ i = customTextIndex s
       | _ :: _ =>
           w = nth (customTextIndex s) (customTextWords s) ""
           /\ i = ((customTextIndex s + 1)
                   mod List.length (customTextWords s))%nat
       end
  else
    WordService.getRandomWord (category cs) (difficulty cs)
      (Math_random W (randomDraws s)) = inl w
    /\ r = S (randomDraws s)
    /\ i = customTextIndex s.

(** The current word of [s'] is the word the word source of [s] serves
    next, fetched once. *)
Definition word_fetched (W : World) (s s' : GameService) : Prop :=
  customTextWords s' = customTextWords s
  /\ serves W s (currentWord (gameState s'))
        (customTextIndex s') (randomDraws s').

(** A clock that returns the given readings in turn, then the last of
    them for ever, and a random generator that returns the given numbers
    in turn, then the last of them for ever. *)
Definition world_drawing (readings : list Z) (draws : list float) : World :=
  {| Date_now := fun n => nth n readings (List.last readings 0);
     Math_random := fun n => nth n draws (List.last draws 0%float);
     Text_stored := fun _ _ => false |}.

(** A session started at time 0 on the easy basic words with the random
    number 0: its first word is "the". The next clock reading is 1000 and
    the next random number 0.5. *)
Definition world_R : World := world_drawing [0; 0; 1000] [0; 0.5]%float.

Definition session_R : GameService :=
  state_of (startGame world_R (settings_of "Basic" "Easy" 60) initial).



(** The service before any game; the clock reads 5000 and the random
    number is 0.5. *)
Definition world_I : World := world_drawing [5000] [0.5]%float.

(** The service before any game, after a [startGame] that named a category
    the word service does not know. *)
Definition session_idle_failed : GameService :=
  state_of (startGame world_idle (settings_of "Poetry" "Easy" 60) initial).



(** A world in which the custom text service holds the text "text-1":
    the clock reads 500 when the usage is recorded, 1000 at the start of
    the game and of the word, and 2000 when the word is typed. *)
Definition world_T : World :=
  {| Date_now := fun n => nth n [500; 1000; 1000; 2000] 2000;
     Math_random := fun _ => 0%float;
     Text_stored := fun _ id => String.eqb id "text-1" |}.

(** A game on the custom text [text_E] of three words, started there. *)
Definition session_T : GameService :=
  state_of (startGame world_T (custom_settings text_E) initial).

(** The number of clock readings before [startGame] takes those of the
    start of the game and of the word. *)
Definition reads_before_start (W : World) (text : CustomText) (s0 : GameService)
  : nat :=
  if Text_stored W (clockReads s0) (ct_id text)
  then S (clockReads s0) else clockReads s0.

(* ===================================================================== *)
(** * Properties *)
(* ===================================================================== *)

(** ** What the helpers leave untouched *)


(* The proofs go through these two by their lemmas. *)
Arguments restartWordTimer : simpl never.
Arguments getNextWord : simpl never.

Ltac unfold_monad :=
  unfold update_gameState, dateNow, mathRandom, subscribe, unsubscribe,
    bind, gets, modify, ret, throw in *.

Section Helpers.

Variable W : World.

Lemma getNextCustomWord_returns (s : GameService) :
  exists w s1, getNextCustomWord s = Ok w s1 /\ fetched s s1.
Proof.
  unfold getNextCustomWord, fetched; unfold_monad.
  destruct (List.length (customTextWords s) =? 0)%nat; cbn.
  - eauto 15.
  - destruct (_ && _); cbn; eauto 15.
Qed.

Lemma wordService_getRandomWord_returns (s : GameService) (arr : list string) :
  WordService.candidates (category (currentSettings s))
                         (difficulty (currentSettings s)) = inl arr ->
  exists w s1, wordService_getRandomWord W s = Ok w s1 /\ fetched s s1.
Proof.
  intros Hc. unfold wordService_getRandomWord, fetched; unfold_monad.
  rewrite Hc; cbn. eauto 15.
Qed.

Lemma getNextWord_returns (s : GameService) :
  wordSourceReady s = true ->
  exists w s1, getNextWord W s = Ok w s1 /\ fetched s s1.
Proof.
  unfold wordSourceReady, getNextWord. unfold bind at 1, gets at 1.
  intros H. destruct (bool_decide _).
  - apply getNextCustomWord_returns.
  - cbn in H.
    destruct (WordService.candidates _ _) as [arr|] eqn:Hc; [|discriminate].
    now apply wordService_getRandomWord_returns with arr.
Qed.

Lemma wordSourceReady_fetched (s s' : GameService) :
  currentSettings s' = currentSettings s ->
  wordSourceReady s' = wordSourceReady s.
Proof. unfold wordSourceReady. now intros ->. Qed.

(** [restartWordTimer] returns and touches the subscriptions only. *)
Lemma restartWordTimer_returns (s : GameService) :
  exists s', restartWordTimer s = Ok tt s'
    /\ gameState s' = gameState s
    /\ currentSettings s' = currentSettings s
    /\ wordStartTime s' = wordStartTime s
    /\ customTextWords s' = customTextWords s
    /\ customTextIndex s' = customTextIndex s
    /\ timeouts s' = timeouts s
    /\ timerSubscription s' = timerSubscription s.
Proof.
  unfold restartWordTimer, startWordTimer; unfold_monad.
  destruct (wordTimerSubscription s); cbn;
    destruct (_ && _); cbn; eauto 12.
Qed.

(** After [restartWordTimer] in an active session a fresh word timer is
    open, with the limit of the current difficulty; in a session that is
    not active none was opened. *)
Lemma restartWordTimer_timer (s : GameService) :
  let s' := state_of (restartWordTimer s) in
  if active (gameState s) then
    wordTimerSubscription s' = Some (nextSubscription s)
    /\ subscriptions s' !! nextSubscription s
       = Some (WordTimer (WordService.getTimePerWord
                            (difficulty (currentSettings s))))
  else
    wordTimerSubscription s' = wordTimerSubscription s
    /\ forall id, wordTimerSubscription s = Some id ->
                  subscriptions s' !! id = None.
Proof.
  unfold restartWordTimer, startWordTimer, active; unfold_monad.
  destruct (wordTimerSubscription s) as [old|] eqn:E; cbn;
    destruct (_ && _); cbn; split;
    try assumption; try reflexivity; try apply lookup_insert_eq.
  - intros id [= <-]. apply lookup_delete_eq.
  - discriminate.
Qed.

Ltac use_restartWordTimer :=
  match goal with
  | |- context [restartWordTimer ?x] =>
      let s' := fresh "s'" in
      let Hr := fresh "Hr" in
      destruct (restartWordTimer_returns x)
        as (s' & Hr & ?Hgs & ?Hcs & ?Hwst & ?Hcw & ?Hci & ?Hto & ?Hts);
      rewrite Hr; cbn in *
  end.

Lemma handleIncorrectWord_commits (t : float) (s : GameService) w s1 :
  getNextWord W s = Ok w s1 -> fetched s s1 ->
  exists s',
    handleIncorrectWord W t s
    = Ok {| isCorrect := false; timeTaken := t;
            word := currentWord (gameState s) |} s'
    /\ gameState s' = incorrect_commit (gameState s) w
    /\ currentSettings s' = currentSettings s
    /\ wordStartTime s' = Date_now W (clockReads s)
    /\ customTextIndex s' = customTextIndex s1
    /\ timeouts s' = timeouts s1.
Proof.
  intros Hget (Hg & Hc & _ & _ & _ & _ & _ & _ & _ & Hclk).
  unfold handleIncorrectWord. unfold bind at 1 2 3, gets at 1 2.
  rewrite Hget. unfold_monad; cbn.
  use_restartWordTimer.
  exists s'. rewrite Hgs, Hcs, Hwst, Hci, Hto, Hclk, Hc.
  repeat split; reflexivity.
Qed.

Lemma handleCorrectWord_commits (t : float) (s : GameService) w s1 :
  getNextWord W s = Ok w s1 -> fetched s s1 ->
  exists s',
    handleCorrectWord W t s
    = Ok {| isCorrect := true; timeTaken := t;
            word := currentWord (gameState s) |} s'
    /\ gameState s' = correct_commit (gameState s) t w
    /\ currentSettings s' = currentSettings s
    /\ wordStartTime s' = Date_now W (clockReads s)
    /\ customTextIndex s' = customTextIndex s1
    /\ timeouts s' = timeouts s1.
Proof.
  intros Hget (Hg & Hc & _ & _ & _ & _ & _ & _ & _ & Hclk).
  unfold handleCorrectWord. unfold bind at 1 2 3, gets at 1 2.
  rewrite Hget. unfold_monad; cbn.
  use_restartWordTimer.
  exists s'. rewrite Hgs, Hcs, Hwst, Hci, Hto, Hclk, Hc.
  repeat split; reflexivity.
Qed.

(** [processInput] runs its first lines, then decides in [input_stored]. *)
Lemma processInput_decides (input : string) (s : GameService) :
  processInput W input s
  = if String.eqb input (currentWord (gameState s))
    then handleCorrectWord W (timeTaken_in W s) (input_stored input s)
    else if (String.length (currentWord (gameState s)) <=? String.length input)%nat
    then handleIncorrectWord W (timeTaken_in W s) (input_stored input s)
    else Ok {| isCorrect := false; timeTaken := timeTaken_in W s;
               word := currentWord (gameState s) |} (input_stored input s).
Proof.
  unfold processInput, timeTaken_in, input_stored; unfold_monad; cbn.
  destruct (String.eqb _ _); [reflexivity|].
  destruct (_ <=? _)%nat; reflexivity.
Qed.

Lemma skipWord_decides (s : GameService) :
  skipWord W s
  = match handleIncorrectWord W (timeTaken_in W s) (after_reads 1 s) with
    | Ok _ s' => Ok tt s'
    | Throw msg s' => Throw msg s'
    end.
Proof. reflexivity. Qed.

End Helpers.

(* ===================================================================== *)
(** ** Word commits: [processInput], [skipWord] *)
(* ===================================================================== *)

Section Commits.

Variable W : World.

Lemma processInput_correct (s : GameService) (input : string) :
  wordSourceReady s = true ->
  input = currentWord (gameState s) ->
  exists s' w s1,
    processInput W input s
    = Ok {| isCorrect := true; timeTaken := timeTaken_in W s;
            word := currentWord (gameState s) |} s'
    /\ getNextWord W (input_stored input s) = Ok w s1
    /\ gameState s'
       = correct_commit (gameState (input_stored input s)) (timeTaken_in W s) w
    /\ wordStartTime s' = Date_now W (S (clockReads s))
    /\ currentSettings s' = currentSettings s.
Proof.
  intros Hready ->.
  destruct (getNextWord_returns W (input_stored (currentWord (gameState s)) s))
    as (w & s1 & Hget & Hf); [exact Hready|].
  destruct (handleCorrectWord_commits W (timeTaken_in W s) _ _ _ Hget Hf)
    as (s' & Hrun & Hgs & Hcs & Hwst & _).
  exists s', w, s1. rewrite processInput_decides, String.eqb_refl.
  repeat split; assumption.
Qed.

Lemma processInput_incorrect (s : GameService) (input : string) :
  wordSourceReady s = true ->
  input <> currentWord (gameState s) ->
  (String.length (currentWord (gameState s)) <= String.length input)%nat ->
  exists s' w s1,
    processInput W input s
    = Ok {| isCorrect := false; timeTaken := timeTaken_in W s;
            word := currentWord (gameState s) |} s'
    /\ getNextWord W (input_stored input s) = Ok w s1
    /\ gameState s' = incorrect_commit (gameState (input_stored input s)) w
    /\ wordStartTime s' = Date_now W (S (clockReads s)).
Proof.
  intros Hready Hne Hlen.
  destruct (getNextWord_returns W (input_stored input s))
    as (w & s1 & Hget & Hf); [exact Hready|].
  destruct (handleIncorrectWord_commits W (timeTaken_in W s) _ _ _ Hget Hf)
    as (s' & Hrun & Hgs & _ & Hwst & _).
  exists s', w, s1. rewrite processInput_decides.
  apply String.eqb_neq in Hne. rewrite Hne.
  apply Nat.leb_le in Hlen. rewrite Hlen.
  repeat split; assumption.
Qed.

Lemma processInput_pending (s : GameService) (input : string) :
  input <> currentWord (gameState s) ->
  (String.length input < String.length (currentWord (gameState s)))%nat ->
  processInput W input s
  = Ok {| isCorrect := false; timeTaken := timeTaken_in W s;
          word := currentWord (gameState s) |} (input_stored input s).
Proof.
  intros Hne Hlen. rewrite processInput_decides.
  apply String.eqb_neq in Hne. rewrite Hne.
  apply Nat.leb_gt in Hlen. rewrite Hlen. reflexivity.
Qed.

Lemma skipWord_incorrect (s : GameService) :
  wordSourceReady s = true ->
  exists s' w s1,
    skipWord W s = Ok tt s'
    /\ getNextWord W (after_reads 1 s) = Ok w s1
    /\ gameState s' = incorrect_commit (gameState s) w.
Proof.
  intros Hready.
  destruct (getNextWord_returns W (after_reads 1 s))
    as (w & s1 & Hget & Hf); [exact Hready|].
  destruct (handleIncorrectWord_commits W (timeTaken_in W s) _ _ _ Hget Hf)
    as (s' & Hrun & Hgs & _).
  exists s', w, s1. rewrite skipWord_decides, Hrun. auto.
Qed.

Lemma incorrect_commit_effect (gs : GameState) (w : string) :
  incorrect_effect gs (incorrect_commit gs w).
Proof. repeat split. Qed.

Lemma timeBonus_nonneg (t : float) : 0 <= timeBonus t.
Proof. unfold timeBonus. apply Z.le_max_l. Qed.

(** The bonus is computed on doubles, as in the source: 1 second gives 10,
    3 seconds and more give 0, and 2.7 seconds give 1, because 3 - 2.7 is
    the double just below 0.3 and its product with 5 is just below 1.5. *)
Example timeBonus_binary64 :
  timeBonus (JS.seconds_between 1000 0) = 10
  /\ timeBonus (JS.seconds_between 2700 0) = 1
  /\ timeBonus (JS.seconds_between 3000 0) = 0
  /\ timeBonus (JS.seconds_between 60000 0) = 0.
Proof. repeat split; vm_compute; reflexivity. Qed.

(** The race in which the word timer does skip: the limit is not reached
    when [takeWhile] reads the clock and is reached when [tap] reads it. *)
Lemma fire_wordTimer_skips (s : GameService) (id : nat) (timePerWord : float) :
  subscriptions s !! id = Some (WordTimer timePerWord) ->
  (timeTaken_in W s <? timePerWord)%float = true ->
  isPlaying (gameState s) && negb (isPaused (gameState s))
    && negb (isGameOver (gameState s)) = true ->
  (WordService.getTimePerWord (difficulty (currentSettings s))
   <=? timeTaken_in W (after_reads 1 s))%float = true ->
  fire W id s
  = finally_on_throw (skipWord W) (close id) (after_reads 2 s).
Proof.
  intros Hsub Hlt Hact Hge.
  unfold fire. unfold bind at 1, gets at 1. rewrite Hsub.
  unfold finally_on_throw, wordTimer_emit.
  unfold bind at 1 2 3, dateNow at 1, gets at 1 2.
  cbn [wordStartTime set_reads gameState].
  unfold timeTaken_in in Hlt. rewrite Hlt. rewrite !andb_true_l.
  replace (isPlaying (gameState s) && negb (isPaused (gameState s))
           && negb (isGameOver (gameState s))) with true.
  unfold bind at 1 2 3, dateNow at 1, gets at 1 2.
  cbn [wordStartTime set_reads gameState currentSettings clockReads randomDraws].
  unfold timeTaken_in, after_reads in Hge.
  cbn [wordStartTime set_reads clockReads Nat.add] in Hge.
  rewrite Hge. reflexivity.
Qed.

Lemma fire_wordTimer_incorrect (s : GameService) (id : nat) (timePerWord : float) :
  wordSourceReady s = true ->
  subscriptions s !! id = Some (WordTimer timePerWord) ->
  (timeTaken_in W s <? timePerWord)%float = true ->
  isPlaying (gameState s) && negb (isPaused (gameState s))
    && negb (isGameOver (gameState s)) = true ->
  (WordService.getTimePerWord (difficulty (currentSettings s))
   <=? timeTaken_in W (after_reads 1 s))%float = true ->
  exists s' w s1,
    fire W id s = Ok tt s'
    /\ getNextWord W (after_reads 3 s) = Ok w s1
    /\ gameState s' = incorrect_commit (gameState s) w.
Proof.
  intros Hready Hsub Hlt Hact Hge.
  rewrite (fire_wordTimer_skips s id timePerWord Hsub Hlt Hact Hge).
  destruct (skipWord_incorrect (after_reads 2 s) Hready)
    as (s' & w & s1 & Hrun & Hget & Hgs).
  exists s', w, s1. unfold finally_on_throw. rewrite Hrun. auto.
Qed.

End Commits.

(* ===================================================================== *)
(** ** The multiplier *)
(* ===================================================================== *)

Lemma newMultiplier_bounds (n : Z) :
  0 <= n -> (1 <= newMultiplier n /\ newMultiplier n <= 5)%Q.
Proof.
  intros Hn. unfold newMultiplier. split.
  - apply Q.min_glb; [discriminate|].
    assert (0 <= n / 10) by (apply Z.div_pos; lia).
    unfold Qle, Qplus, Qmult, inject_Z; cbn. lia.
  - apply Q.le_min_l.
Qed.

Lemma newMultiplier_mono (n m : Z) :
  n <= m -> (newMultiplier n <= newMultiplier m)%Q.
Proof.
  intros Hnm. unfold newMultiplier. apply Q.min_le_compat_l.
  assert (n / 10 <= m / 10) by (apply Z.div_le_mono; lia).
  unfold Qle, Qplus, Qmult, inject_Z; cbn. lia.
Qed.

(** [n] correct words in a row add [n] to the streak, and the multiplier
    is then the one the new streak gives. *)
Lemma type_current_word_streak (W : World) (n : nat) :
  forall s : GameService,
    wordSourceReady s = true ->
    exists s',
      type_current_word W n s = Ok tt s'
      /\ streak (gameState s') = streak (gameState s) + Z.of_nat n
      /\ (0 < n -> multiplier (gameState s')
                    = newMultiplier (streak (gameState s')))%nat
      /\ currentSettings s' = currentSettings s.
Proof.
  induction n as [|k IH]; intros s Hready.
  - exists s. cbn. repeat split; [lia | intros; lia].
  - destruct (processInput_correct W s (currentWord (gameState s)) Hready eq_refl)
      as (s1 & w & s0 & Hrun & _ & Hgs & _ & Hcs).
    destruct (IH s1) as (s' & Hrest & Hst & Hm & Hcs').
    { rewrite (wordSourceReady_fetched s s1 Hcs). exact Hready. }
    exists s'. cbn [type_current_word]. unfold bind at 1 2, gets at 1.
    rewrite Hrun, Hrest. rewrite Hgs in Hst. cbn in Hst.
    repeat split.
    + lia.
    + intros _. destruct k as [|k'].
      * cbn in Hrest. injection Hrest as <-. rewrite Hgs. reflexivity.
      * apply Hm. lia.
    + congruence.
Qed.

(** C6. For every streak at least 0 the multiplier derived from it lies
    between 1 and 5, and a longer streak never gives a smaller multiplier;
    the streak 10 gives 1.5, and ten correct words in a row from streak 0
    leave the streak at 10 and the multiplier at 1.5. *)
Theorem multiplier_cap (W : World) (n m : Z) (s : GameService) :
  0 <= n -> n <= m ->
  wordSourceReady s = true -> streak (gameState s) = 0 ->
  (1 <= newMultiplier n)%Q /\ (newMultiplier n <= 5)%Q
  /\ (newMultiplier n <= newMultiplier m)%Q
  /\ (newMultiplier 10 == 3 # 2)%Q
  /\ exists s',
       type_current_word W 10 s = Ok tt s'
       /\ streak (gameState s') = 10
       /\ (multiplier (gameState s') == 3 # 2)%Q.
Proof.
  intros Hn Hnm Hready Hs.
  destruct (newMultiplier_bounds n Hn) as [Hlo Hhi].
  repeat apply conj; try assumption.
  - now apply newMultiplier_mono.
  - reflexivity.
  - destruct (type_current_word_streak W 10 s Hready) as (s' & Hrun & Hst & Hm & _).
    exists s'. rewrite Hs in Hst. cbn in Hst.
    repeat apply conj; try assumption.
    rewrite Hm, Hst by lia. reflexivity.
Qed.

Lemma multiplier_cap_witness :
  (1 <= newMultiplier 37)%Q /\ (newMultiplier 37 <= 5)%Q
  /\ (newMultiplier 37 <= newMultiplier 120)%Q
  /\ (newMultiplier 10 == 3 # 2)%Q
  /\ exists s',
       type_current_word world_A 10 session_A = Ok tt s'
       /\ streak (gameState s') = 10
       /\ (multiplier (gameState s') == 3 # 2)%Q.
Proof.
  apply (multiplier_cap world_A 37 120 session_A); [lia | lia | reflexivity | reflexivity].
Defined.

(* ===================================================================== *)
(** ** The error classifier *)
(* ===================================================================== *)

Lemma find_pattern_type (t : ErrorFeedback.PatternType) :
  option_map ErrorFeedback.type (ErrorFeedback.find_pattern t) = Some t.
Proof. destruct t; reflexivity. Qed.

(** The classifier follows the ordered rules on the lower-cased characters,
    and always finds the pattern it names. *)
Lemma classifyError_rules (expected actual : ascii) (t : float) :
  ErrorFeedback.classifyError expected actual t
  = ErrorFeedback.find_pattern
      (ErrorFeedback.classify_rules (JS.toLowerCase_char expected)
                                    (JS.toLowerCase_char actual) t).
Proof.
  unfold ErrorFeedback.classifyError, ErrorFeedback.classify_rules.
  destruct (ErrorFeedback.lookup_key (JS.toLowerCase_char expected)) as [k1|];
    [|reflexivity].
  destruct (ErrorFeedback.lookup_key (JS.toLowerCase_char actual)) as [k2|];
    [|reflexivity].
  cbv zeta.
  destruct (_ =? 1); [reflexivity|].
  destruct (_ && _); [reflexivity|].
  destruct (t <? 0.1)%float; [reflexivity|].
  destruct (3 <? _); reflexivity.
Qed.

(** C5, as stated, fails on a capital letter: 'G' is not a key of the
    table, so the first rule gives visual, but [classifyError] lower-cases
    its arguments and classifies 'G' typed for 'f' as a finger slip. *)
Lemma classifier_capital_counterexample :
  ~ (forall (expectedChar actualChar : ascii) (timeTakenSeconds : float),
        option_map ErrorFeedback.type
          (ErrorFeedback.classifyError expectedChar actualChar timeTakenSeconds)
        = Some (ErrorFeedback.classify_rules expectedChar actualChar
                                             timeTakenSeconds)).
Proof.
  intros H. specialize (H "f"%char "G"%char 0.5%float).
  vm_compute in H. discriminate H.
Qed.

(** C5, amended. The classifier is a total function of the two characters
    and the time: it lower-cases both characters and then applies the
    ordered rules, the first match winning (a character missing from the
    table: visual; distance 1: finger slip; different fingers and distance
    at most 2: finger confusion; time below 0.1: timing; distance above 3:
    visual; else muscle memory). On characters that lower-casing leaves as
    they are it is the rules themselves. 'f' against 'g' is a finger slip,
    and equal arguments give equal patterns. *)
Theorem classifier_rules (expectedChar actualChar : ascii) (timeTakenSeconds : float) :
  (exists p,
      ErrorFeedback.classifyError expectedChar actualChar timeTakenSeconds = Some p
      /\ ErrorFeedback.type p
         = ErrorFeedback.classify_rules (JS.toLowerCase_char expectedChar)
             (JS.toLowerCase_char actualChar) timeTakenSeconds)
  /\ (JS.toLowerCase_char expectedChar = expectedChar ->
      JS.toLowerCase_char actualChar = actualChar ->
      option_map ErrorFeedback.type
        (ErrorFeedback.classifyError expectedChar actualChar timeTakenSeconds)
      = Some (ErrorFeedback.classify_rules expectedChar actualChar
                                           timeTakenSeconds))
  /\ option_map ErrorFeedback.type
       (ErrorFeedback.classifyError "f" "g" timeTakenSeconds)
     = Some ErrorFeedback.finger_slip
  /\ (forall e a t,
        e = expectedChar -> a = actualChar -> t = timeTakenSeconds ->
        ErrorFeedback.classifyError e a t
        = ErrorFeedback.classifyError expectedChar actualChar timeTakenSeconds).
Proof.
  assert (Ht : option_map ErrorFeedback.type
                 (ErrorFeedback.classifyError expectedChar actualChar
                                              timeTakenSeconds)
               = Some (ErrorFeedback.classify_rules
                         (JS.toLowerCase_char expectedChar)
                         (JS.toLowerCase_char actualChar) timeTakenSeconds)).
  { rewrite classifyError_rules. apply find_pattern_type. }
  repeat apply conj.
  - destruct (ErrorFeedback.classifyError _ _ _) as [p|]; [|discriminate].
    exists p. split; [reflexivity|]. now injection Ht.
  - intros He Ha. rewrite Ht, He, Ha. reflexivity.
  - reflexivity.
  - intros e a t -> -> ->. reflexivity.
Qed.

Lemma classifier_rules_witness :
  option_map ErrorFeedback.type (ErrorFeedback.classifyError "q" "p" 0.5)
  = Some ErrorFeedback.visual
  /\ option_map ErrorFeedback.type (ErrorFeedback.classifyError "f" "g" 0.5)
     = Some ErrorFeedback.finger_slip.
Proof.
  destruct (classifier_rules "q" "p" 0.5) as (_ & H & Hfg & _).
  split; [|exact Hfg].
  apply H; reflexivity.
Defined.

(* ===================================================================== *)
(** ** The two timers *)
(* ===================================================================== *)

Section Timers.

Variable W : World.

Lemma endGame_returns (s : GameService) :
  exists s',
    endGame s = Ok tt s'
    /\ gameState s' = game_over (gameState s)
    /\ timers_closed s'
    /\ wordStartTime s' = wordStartTime s
    /\ timeouts s' = timeouts s.
Proof.
  unfold endGame, stopTimers, timers_closed; unfold_monad.
  destruct (timerSubscription s) as [g|] eqn:Eg;
    destruct (wordTimerSubscription s) as [w|] eqn:Ew;
    cbn; rewrite ?Eg, ?Ew; cbn;
    (eexists; split; [reflexivity|]); cbn; rewrite ?Eg, ?Ew;
    repeat apply conj; try reflexivity; intros h [= <-];
    rewrite ?lookup_delete; repeat case_decide; try reflexivity;
    try congruence.
Qed.

(** An emission of the session timer in a session that is playing, not
    paused, with time left: one second less, then [endGame] at 0. *)
Lemma fire_gameTimer_running (s : GameService) (id : nat) :
  subscriptions s !! id = Some GameTimer ->
  isPlaying (gameState s) = true -> isPaused (gameState s) = false ->
  0 < timeRemaining (gameState s) ->
  fire W id s
  = if timeRemaining (gameState s) =? 1 then endGame (decremented s)
    else Ok tt (decremented s).
Proof.
  intros Hsub Hplay Hpause Hpos.
  unfold fire. unfold bind at 1, gets at 1. rewrite Hsub.
  unfold finally_on_throw, gameTimer_emit. unfold bind at 1, gets at 1.
  rewrite Hplay, Hpause. apply Z.ltb_lt in Hpos as Hpos'. rewrite Hpos'.
  cbn [andb negb]. unfold_monad. cbn [gameState set_gameState timeRemaining].
  fold (decremented s).
  destruct (Z.eqb_spec (timeRemaining (gameState s)) 1) as [E|E].
  - rewrite E. replace (Z.max 0 (1 - 1) <=? 0) with true by reflexivity.
    destruct (endGame_returns (decremented s)) as (s' & Hr & _).
    rewrite Hr. reflexivity.
  - replace (Z.max 0 (timeRemaining (gameState s) - 1) <=? 0) with false
      by (symmetry; apply Z.leb_gt; lia).
    reflexivity.
Qed.

(** An emission of the session timer in any other state completes the
    subscription and runs no [tap]. *)
Lemma fire_gameTimer_stopped (s : GameService) (id : nat) :
  subscriptions s !! id = Some GameTimer ->
  (0 <? timeRemaining (gameState s)) && isPlaying (gameState s)
    && negb (isPaused (gameState s)) = false ->
  fire W id s = Ok tt (close id s).
Proof.
  intros Hsub Hoff.
  unfold fire. unfold bind at 1, gets at 1. rewrite Hsub.
  unfold finally_on_throw, gameTimer_emit. unfold bind at 1, gets at 1.
  rewrite Hoff. reflexivity.
Qed.

(** An emission of the word timer when [takeWhile] finds the limit reached,
    or the session not active: the subscription completes, the [tap] does
    not run, and no word is skipped. *)
Lemma fire_wordTimer_stopped (s : GameService) (id : nat) (timePerWord : float) :
  subscriptions s !! id = Some (WordTimer timePerWord) ->
  (timeTaken_in W s <? timePerWord)%float
    && isPlaying (gameState s) && negb (isPaused (gameState s))
    && negb (isGameOver (gameState s)) = false ->
  fire W id s = Ok tt (close id (after_reads 1 s)).
Proof.
  intros Hsub Hoff.
  unfold fire. unfold bind at 1, gets at 1. rewrite Hsub.
  unfold finally_on_throw, wordTimer_emit.
  unfold bind at 1 2 3, dateNow at 1, gets at 1 2.
  cbn [wordStartTime set_reads gameState].
  unfold timeTaken_in in Hoff. rewrite Hoff. reflexivity.
Qed.

Lemma fire_closed (s : GameService) (id : nat) :
  subscriptions s !! id = None -> fire W id s = Ok tt s.
Proof.
  intros Hsub. unfold fire. unfold bind at 1, gets at 1. now rewrite Hsub.
Qed.


Lemma phase_Running (gs : GameState) :
  phase gs = Running <->
  isGameOver gs = false /\ isPlaying gs = true /\ isPaused gs = false.
Proof.
  unfold phase.
  destruct (isGameOver gs), (isPlaying gs), (isPaused gs);
    split; try discriminate; try tauto; intros (? & ? & ?); discriminate.
Qed.






Lemma stopped_gameTimer (gs : GameState) :
  stopped gs ->
  (0 <? timeRemaining gs) && isPlaying gs && negb (isPaused gs) = false.
Proof.
  intros [H|H]; rewrite H; cbn; [apply andb_false_r|].
  now rewrite andb_false_r.
Qed.

Lemma stopped_wordTimer (gs : GameState) (lt : bool) :
  stopped gs ->
  lt && isPlaying gs && negb (isPaused gs) && negb (isGameOver gs) = false.
Proof.
  intros [H|H]; rewrite H; cbn.
  - now rewrite andb_false_r.
  - now rewrite andb_false_r.
Qed.

(** An emission of any subscription, open or not, in a stopped session
    changes nothing but the table of subscriptions and the count of clock
    readings. *)
Lemma fire_stopped (s : GameService) (id : nat) :
  stopped (gameState s) ->
  exists s',
    fire W id s = Ok tt s'
    /\ gameState s' = gameState s
    /\ currentSettings s' = currentSettings s
    /\ wordStartTime s' = wordStartTime s
    /\ timerSubscription s' = timerSubscription s
    /\ wordTimerSubscription s' = wordTimerSubscription s
    /\ nextSubscription s' = nextSubscription s
    /\ timeouts s' = timeouts s
    /\ (forall i, subscriptions s !! i = None -> subscriptions s' !! i = None).
Proof.
  intros Hst.
  destruct (subscriptions s !! id) as [[|timePerWord]|] eqn:Hsub.
  - exists (close id s). split.
    + apply fire_gameTimer_stopped; [assumption|]. now apply stopped_gameTimer.
    + repeat split. intros i Hi. cbn. rewrite lookup_delete.
      case_decide; [reflexivity|assumption].
  - exists (close id (after_reads 1 s)). split.
    + apply fire_wordTimer_stopped with timePerWord; [assumption|].
      now apply stopped_wordTimer.
    + repeat split. intros i Hi. cbn. rewrite lookup_delete.
      case_decide; [reflexivity|assumption].
  - exists s. split; [now apply fire_closed|]. repeat split. auto.
Qed.

(** Any number of emissions in a stopped session. *)
Lemma emissions_stopped (ids : list nat) :
  forall s : GameService,
    stopped (gameState s) ->
    exists s',
      deliver_all W (map Emit ids) s = Ok tt s'
      /\ gameState s' = gameState s
      /\ currentSettings s' = currentSettings s
      /\ wordStartTime s' = wordStartTime s
      /\ timerSubscription s' = timerSubscription s
      /\ wordTimerSubscription s' = wordTimerSubscription s
      /\ nextSubscription s' = nextSubscription s
      /\ (forall i, subscriptions s !! i = None -> subscriptions s' !! i = None).
Proof.
  induction ids as [|id ids IH]; intros s Hst.
  - exists s. cbn. repeat split. auto.
  - destruct (fire_stopped s id Hst)
      as (s1 & Hfire & Hgs & Hcs & Hwst & Hts & Hws & Hnx & _ & Hsubs).
    destruct (IH s1) as (s' & Hrest & Hgs' & Hcs' & Hwst' & Hts' & Hws' & Hnx' & Hsubs').
    { now rewrite Hgs. }
    exists s'. cbn [map deliver_all deliver]. unfold bind at 1.
    rewrite Hfire, Hrest. repeat split; try congruence. auto.
Qed.

(** Whatever the run-time delivers to a stopped session, the session stays
    stopped, no second goes by and no word is committed. *)
Lemma deliver_stopped (s : GameService) (e : Event) :
  stopped (gameState s) ->
  exists s',
    deliver W e s = Ok tt s'
    /\ stopped (gameState s') /\ frozen (gameState s) (gameState s').
Proof.
  intros Hst. destruct e as [id|]; cbn [deliver].
  - destruct (fire_stopped s id Hst) as (s' & Hfire & Hgs & _).
    exists s'. rewrite Hgs. repeat split; assumption.
  - unfold timeout_fire. unfold bind at 1, gets at 1.
    destruct (timeouts s) as [|d rest].
    + exists s. repeat split; assumption.
    + unfold bind, modify.
      destruct (endGame_returns (set_timeouts rest s)) as (s' & Hend & Hgs & _).
      exists s'. rewrite Hend, Hgs. repeat split. now right.
Qed.

Lemma deliver_all_stopped (es : list Event) :
  forall s : GameService,
    stopped (gameState s) ->
    exists s',
      deliver_all W es s = Ok tt s'
      /\ stopped (gameState s') /\ frozen (gameState s) (gameState s').
Proof.
  induction es as [|e es IH]; intros s Hst.
  - exists s. repeat split; assumption.
  - destruct (deliver_stopped s e Hst) as (s1 & H1 & Hst1 & Hfr1).
    destruct (IH s1 Hst1) as (s' & Hrest & Hst' & Hfr').
    exists s'. cbn [deliver_all]. unfold bind at 1. rewrite H1, Hrest.
    split; [reflexivity|]. split; [assumption|].
    unfold frozen in *. intuition congruence.
Qed.

(** [pauseGame] in a running session. *)
Lemma pauseGame_pauses (s : GameService) :
  phase (gameState s) = Running ->
  exists sp,
    pauseGame s = Ok tt sp
    /\ phase (gameState sp) = Paused
    /\ isPaused (gameState sp) = true
    /\ frozen (gameState s) (gameState sp)
    /\ timers_closed sp
    /\ wordStartTime sp = wordStartTime s
    /\ currentSettings sp = currentSettings s.
Proof.
  intros Hrun. apply phase_Running in Hrun as (Hover & Hplay & Hpause).
  unfold pauseGame, stopTimers; unfold_monad. cbn.
  rewrite Hpause. cbn.
  destruct (timerSubscription s) as [g|] eqn:Eg;
    destruct (wordTimerSubscription s) as [w|] eqn:Ew; cbn;
    rewrite ?Eg, ?Ew; cbn;
    (eexists; split; [reflexivity|]); unfold phase, timers_closed; cbn;
    rewrite ?Hover, ?Hplay, ?Eg, ?Ew;
    repeat split; intros h [= <-];
    rewrite ?lookup_delete; repeat case_decide; congruence.
Qed.

(** [pauseGame] in a paused session: the flag is cleared, two fresh timers
    are opened, and the start of the word is the one it was. *)
Lemma pauseGame_resumes (s : GameService) :
  isPaused (gameState s) = true ->
  exists sr,
    pauseGame s = Ok tt sr
    /\ isPaused (gameState sr) = false
    /\ isPlaying (gameState sr) = isPlaying (gameState s)
    /\ isGameOver (gameState sr) = isGameOver (gameState s)
    /\ frozen (gameState s) (gameState sr)
    /\ wordStartTime sr = wordStartTime s
    /\ clockReads sr = clockReads s
    /\ timerSubscription sr = Some (nextSubscription s)
    /\ subscriptions sr !! nextSubscription s = Some GameTimer
    /\ wordTimerSubscription sr = Some (S (nextSubscription s))
    /\ subscriptions sr !! S (nextSubscription s)
       = Some (WordTimer (WordService.getTimePerWord
                            (difficulty (currentSettings s)))).
Proof.
  intros Hp.
  unfold pauseGame, startGameTimer, startWordTimer; unfold_monad. cbn.
  rewrite Hp. cbn.
  eexists; split; [reflexivity|]. cbn.
  repeat split.
  - rewrite lookup_insert_ne by lia. apply lookup_insert_eq.
  - apply lookup_insert_eq.
Qed.

End Timers.

(** C4: what the code does where the specification expects a skip. The
    session is running, the word started at time 0 with a limit of 2.5
    seconds, and the word timer emits when the clock reads 2500: the
    elapsed time has reached the limit, [takeWhile] is false, the
    subscription completes and [skipWord] is not called: no word is
    counted, the current word stays, and no word timer is open any more. *)
Theorem word_timer_expiry_skips_nothing :
  phase (gameState session_C) = Running
  /\ wordTimerSubscription session_C = Some 1%nat
  /\ subscriptions session_C !! 1%nat = Some (WordTimer 2.5)
  /\ WordService.getTimePerWord (difficulty (currentSettings session_C)) = 2.5%float
  /\ timeTaken_in world_C session_C = 2.5%float
  /\ (2.5 <=? timeTaken_in world_C session_C)%float = true
  /\ exists s',
       fire world_C 1 session_C = Ok tt s'
       /\ gameState s' = gameState session_C
       /\ totalWords (gameState s') = 0
       /\ mistakes (gameState s') = 0
       /\ wordStartTime s' = wordStartTime session_C
       /\ subscriptions s' = {[ 0%nat := GameTimer ]}.
Proof.
  assert (Hsub : subscriptions session_C !! 1%nat = Some (WordTimer 2.5))
    by (vm_compute; reflexivity).
  do 6 (split; [first [exact Hsub | vm_compute; reflexivity]|]).
  exists (close 1 (after_reads 1 session_C)).
  split.
  - apply (fire_wordTimer_stopped world_C session_C 1%nat 2.5%float Hsub).
    vm_compute; reflexivity.
  - repeat apply conj; vm_compute; reflexivity.
Qed.

(** C8, as stated, fails in its last clause: the word timer does not
    continue from the progress it had when the session was paused. The
    session is paused 1 second into the word and resumed 10 seconds later:
    the elapsed time of the word is then 11 seconds, not 1, and the first
    emission of the new word timer finds the limit of 2.5 seconds passed
    and closes the timer, where 1.1 seconds of progress would have kept it
    open. *)
Lemma pause_resume_counterexample :
  ~ (forall (s sp sr : GameService) (paused_at resumed_at : Z),
        phase (gameState s) = Running ->
        pauseGame s = Ok tt sp -> pauseGame sp = Ok tt sr ->
        paused_at <= resumed_at ->
        JS.seconds_between resumed_at (wordStartTime sr)
        = JS.seconds_between paused_at (wordStartTime s))
  /\ wordTimerSubscription session_D_resumed = Some 3%nat
  /\ subscriptions session_D_resumed !! 3%nat = Some (WordTimer 2.5)
  /\ timeTaken_in world_D session_D_resumed = 11.1%float
  /\ subscriptions (state_of (fire world_D 3 session_D_resumed)) !! 3%nat = None.
Proof.
  split.
  - intros H.
    specialize (H session_D (state_of (pauseGame session_D)) session_D_resumed
                  1000 11000).
    assert (E : JS.seconds_between 11000 (wordStartTime session_D_resumed)
                = JS.seconds_between 1000 (wordStartTime session_D)).
    { apply H; [vm_compute; reflexivity .. | lia]. }
    apply (f_equal Prim2SF) in E. vm_compute in E. discriminate E.
  - repeat split; vm_compute; reflexivity.
Qed.

(** C8, amended. [pauseGame] takes a running session to paused and closes
    both timers. From then on, whatever the run-time delivers and however
    often, no second goes by and no word is committed, and emissions alone,
    of any subscription, leave the game state as it is. [pauseGame] again
    takes the session back to running with all its counters, opens a fresh
    session timer and a fresh word timer, and keeps the start of the word:
    the elapsed time of the word is not reset to zero but is the time on
    the clock since the word started, the time spent paused included. *)
Theorem pause_freezes_session (W : World) (s : GameService) :
  phase (gameState s) = Running ->
  exists sp,
    pauseGame s = Ok tt sp
    /\ phase (gameState sp) = Paused
    /\ timers_closed sp
    /\ (forall es : list Event,
          exists s',
            deliver_all W es sp = Ok tt s'
            /\ frozen (gameState s) (gameState s')
            /\ phase (gameState s') <> Running)
    /\ (forall ids : list nat,
          exists s' sr,
            deliver_all W (map Emit ids) sp = Ok tt s'
            /\ gameState s' = gameState sp
            /\ pauseGame s' = Ok tt sr
            /\ phase (gameState sr) = Running
            /\ frozen (gameState s) (gameState sr)
            /\ wordStartTime sr = wordStartTime s
            /\ timeTaken_in W sr
               = JS.seconds_between (Date_now W (clockReads sr)) (wordStartTime s)
            /\ exists g w,
                timerSubscription sr = Some g
                /\ subscriptions sr !! g = Some GameTimer
                /\ wordTimerSubscription sr = Some w
                /\ subscriptions sr !! w
                   = Some (WordTimer (WordService.getTimePerWord
                                        (difficulty (currentSettings s))))).
Proof.
  intros Hrun.
  destruct (pauseGame_pauses s Hrun)
    as (sp & Hpause & Hph & Hp & Hfr & Hcl & Hwst & Hcs).
  assert (Hst : stopped (gameState sp)) by now left.
  assert (Htrans : forall a b c, frozen a b -> frozen b c -> frozen a c).
  { unfold frozen. intros a b c Hab Hbc. intuition congruence. }
  exists sp. do 3 (split; [assumption|]). split.
  - intros es.
    destruct (deliver_all_stopped W es sp Hst) as (s' & Hall & Hst' & Hfr').
    exists s'. split; [assumption|]. split.
    + now apply Htrans with (gameState sp).
    + intros Hr. apply phase_Running in Hr as (_ & Hplay & Hpa).
      destruct Hst' as [E|E]; congruence.
  - intros ids.
    destruct (emissions_stopped W ids sp Hst)
      as (s' & Hall & Hgs & Hcs' & Hwst' & _).
    destruct (pauseGame_resumes s')
      as (sr & Hres & Hpa & Hpl & Hov & Hfr' & Hwr & Hclk & Hg & Hgl & Hw & Hwl);
      [now rewrite Hgs|].
    exists s', sr. do 3 (split; [assumption|]). split; [|split; [|split; [|split]]].
    + apply phase_Running. apply phase_Running in Hrun as (Hover & Hplay & _).
      rewrite Hov, Hpl, Hgs. unfold phase in Hph.
      destruct (isGameOver (gameState sp)), (isPlaying (gameState sp));
        try discriminate; auto.
    + rewrite Hgs in Hfr'. now apply Htrans with (gameState sp).
    + congruence.
    + unfold timeTaken_in. congruence.
    + exists (nextSubscription s'), (S (nextSubscription s')).
      do 3 (split; [assumption|]). congruence.
Qed.

Lemma pause_freezes_session_witness :
  exists sp,
    pauseGame session_D = Ok tt sp
    /\ phase (gameState sp) = Paused
    /\ exists s',
         deliver_all world_D [Emit 0%nat; Emit 1%nat; TimeoutDue; Emit 0%nat] sp
         = Ok tt s'
         /\ timeRemaining (gameState s') = 60.
Proof.
  destruct (pause_freezes_session world_D session_D)
    as (sp & Hpause & Hph & _ & Hany & _); [vm_compute; reflexivity|].
  exists sp. repeat split; try assumption.
  destruct (Hany [Emit 0%nat; Emit 1%nat; TimeoutDue; Emit 0%nat])
    as (s' & Hall & (Htr & _) & _).
  exists s'. split; [assumption|]. exact Htr.
Defined.

(* ===================================================================== *)
(** ** Custom text *)
(* ===================================================================== *)

Lemma toLowerCase_char_idempotent (c : ascii) :
  JS.toLowerCase_char (JS.toLowerCase_char c) = JS.toLowerCase_char c.
Proof. destruct c as [[] [] [] [] [] [] [] []]; reflexivity. Qed.

Lemma string_forall_toLowerCase (s : string) :
  string_forall (fun c => Ascii.eqb (JS.toLowerCase_char c) c)
                (JS.toLowerCase s) = true.
Proof.
  induction s as [|c r IH]; [reflexivity|].
  cbn. rewrite toLowerCase_char_idempotent, Ascii.eqb_refl. exact IH.
Qed.

Lemma split_whitespace_nonempty (s : string) : JS.split_whitespace s <> [].
Proof.
  induction s as [|c r IH]; [discriminate|].
  cbn. destruct (JS.isWhitespace c).
  - destruct r as [|c' r']; [discriminate|].
    destruct (JS.isWhitespace c'); [exact IH|discriminate].
  - destruct (JS.split_whitespace r); discriminate.
Qed.

(** The pieces hold no white space, and only characters of the string. *)
Lemma split_whitespace_pieces (P : ascii -> bool) (s : string) :
  string_forall P s = true ->
  Forall (fun piece => string_forall
                         (fun c => negb (JS.isWhitespace c) && P c) piece = true)
         (JS.split_whitespace s).
Proof.
  induction s as [|c r IH]; intros HP.
  - repeat constructor.
  - cbn in HP. apply andb_prop in HP as [Hc Hr]. specialize (IH Hr).
    cbn [JS.split_whitespace]. destruct (JS.isWhitespace c) eqn:Hw.
    + destruct r as [|c' r']; [repeat constructor|].
      destruct (JS.isWhitespace c'); [exact IH|].
      constructor; [reflexivity|exact IH].
    + destruct (JS.split_whitespace r) as [|p ps].
      * repeat constructor. cbn [string_forall]. now rewrite Hw, Hc.
      * inversion IH as [|? ? Hp Hps]; subst.
        constructor; [|exact Hps]. cbn [string_forall]. now rewrite Hw, Hc, Hp.
Qed.

Lemma strip_punctuation_chars (P : ascii -> bool) (s : string) :
  string_forall P s = true ->
  string_forall (fun c => negb (JS.isPunctuation c) && P c)
                (JS.strip_punctuation s) = true.
Proof.
  induction s as [|c r IH]; intros HP; [reflexivity|].
  cbn in HP. apply andb_prop in HP as [Hc Hr].
  cbn [JS.strip_punctuation]. destruct (JS.isPunctuation c) eqn:Hp.
  - now apply IH.
  - cbn [string_forall negb andb]. rewrite Hp, Hc. now apply IH.
Qed.

Lemma string_forall_impl (P Q : ascii -> bool) (s : string) :
  (forall c, P c = true -> Q c = true) ->
  string_forall P s = true -> string_forall Q s = true.
Proof.
  intros HPQ. induction s as [|c r IH]; [reflexivity|].
  cbn. intros H. apply andb_prop in H as [Hc Hr].
  now rewrite (HPQ c Hc), (IH Hr).
Qed.

(** [initializeCustomText] returns, with the words of the text stored, the
    index at 0 and the usage recorded. *)
Lemma initializeCustomText_returns (W : World) (text : CustomText)
    (s : GameService) :
  initializeCustomText W text s
  = Ok tt (usage_recorded W (ct_id text)
             (set_customText (words_of_text text) 0%nat s)).
Proof.
  unfold initializeCustomText, customTextService_recordUsage, usage_recorded,
    words_of_text.
  unfold_monad. cbn [clockReads set_customText].
  destruct (Text_stored W (clockReads s) (ct_id text)); reflexivity.
Qed.

(** Recording the usage changes the count of the readings of the clock
    only. *)
Lemma usage_recorded_fields (W : World) (id : string) (s : GameService) :
  gameState (usage_recorded W id s) = gameState s
  /\ currentSettings (usage_recorded W id s) = currentSettings s
  /\ timerSubscription (usage_recorded W id s) = timerSubscription s
  /\ wordTimerSubscription (usage_recorded W id s) = wordTimerSubscription s
  /\ gameStartTime (usage_recorded W id s) = gameStartTime s
  /\ wordStartTime (usage_recorded W id s) = wordStartTime s
  /\ customTextWords (usage_recorded W id s) = customTextWords s
  /\ customTextIndex (usage_recorded W id s) = customTextIndex s
  /\ subscriptions (usage_recorded W id s) = subscriptions s
  /\ nextSubscription (usage_recorded W id s) = nextSubscription s
  /\ timeouts (usage_recorded W id s) = timeouts s
  /\ randomDraws (usage_recorded W id s) = randomDraws s
  /\ (clockReads s <= clockReads (usage_recorded W id s))%nat.
Proof.
  unfold usage_recorded. destruct (Text_stored W (clockReads s) id); cbn;
    repeat split; lia.
Qed.

(** The words [initializeCustomText] stores are not empty and are made of
    word characters. *)
Lemma customText_words_clean (content : string) :
  Forall (fun w => w <> "" /\ string_forall word_char w = true)
    (List.filter (fun word => (0 <? String.length word)%nat)
       (List.map JS.strip_punctuation
          (JS.split_whitespace (JS.toLowerCase content)))).
Proof.
  apply List.Forall_forall. intros w Hw.
  apply List.filter_In in Hw as [Hin Hlen].
  apply List.in_map_iff in Hin as (piece & <- & Hpiece).
  split.
  - intros E. rewrite E in Hlen. discriminate.
  - pose proof (split_whitespace_pieces _ _ (string_forall_toLowerCase content))
      as Hall.
    rewrite List.Forall_forall in Hall. specialize (Hall piece Hpiece).
    apply strip_punctuation_chars in Hall.
    revert Hall. apply string_forall_impl. intros c. unfold word_char.
    destruct (JS.isPunctuation c), (JS.isWhitespace c),
      (Ascii.eqb (JS.toLowerCase_char c) c); cbn; congruence.
Qed.

(** [getNextCustomWord] on a word list that is not empty. *)
Lemma getNextCustomWord_serves (s : GameService) :
  customTextWords s <> [] ->
  let ws := customTextWords s in
  let i' := ((customTextIndex s + 1) mod List.length ws)%nat in
  getNextCustomWord s
  = Ok (nth (customTextIndex s) ws "")
       (if (i' =? 0)%nat && (0 <? totalWords (gameState s))
        then set_timeouts (timeouts s ++ [100]) (set_customText ws i' s)
        else set_customText ws i' s).
Proof.
  intros Hne ws i'. unfold getNextCustomWord; unfold_monad.
  destruct (customTextWords s) as [|w0 rest] eqn:Ews; [contradiction|].
  cbn [List.length Nat.eqb]. cbn [customTextIndex set_customText gameState].
  subst ws i'. cbn [List.length].
  destruct (_ && _); reflexivity.
Qed.

(** C9. In custom-text mode the word list is the content of the text,
    lower-cased, split on white space, each piece stripped of punctuation,
    the empty pieces removed: its words are not empty and hold no white
    space, no punctuation and no capital letter. The words are served by a
    cyclic index: the word at the index is returned and the index moves to
    (index + 1) mod length. When the index comes back to 0 and
    [totalWords] is above 0, the end of the game is scheduled 100 ms later
    and the game state is left as it is; the session is over once that
    timeout runs. Nothing is scheduled otherwise. *)
Theorem custom_text_serving (W : World) (s : GameService) (text : CustomText) :
  (exists s0,
      initializeCustomText W text s = Ok tt s0
      /\ customTextWords s0
         = List.filter (fun word => (0 <? String.length word)%nat)
             (List.map JS.strip_punctuation
                (JS.split_whitespace (JS.toLowerCase (ct_content text))))
      /\ customTextIndex s0 = 0%nat
      /\ Forall (fun w => w <> "" /\ string_forall word_char w = true)
                (customTextWords s0))
  /\ (customTextWords s <> [] ->
      let ws := customTextWords s in
      exists s',
        getNextCustomWord s = Ok (nth (customTextIndex s) ws "") s'
        /\ customTextWords s' = ws
        /\ customTextIndex s' = ((customTextIndex s + 1) mod List.length ws)%nat
        /\ gameState s' = gameState s
        /\ (customTextIndex s' = 0%nat -> 0 < totalWords (gameState s) ->
            timeouts s' = (timeouts s ++ [100])%list)
        /\ (customTextIndex s' <> 0%nat \/ totalWords (gameState s) <= 0 ->
            timeouts s' = timeouts s))
  /\ (forall d rest,
        timeouts s = d :: rest ->
        exists s',
          timeout_fire s = Ok tt s'
          /\ timeouts s' = rest
          /\ gameState s' = game_over (gameState s)
          /\ phase (gameState s') = Over).
Proof.
  repeat apply conj.
  - eexists. split; [apply initializeCustomText_returns|].
    destruct (usage_recorded_fields W (ct_id text)
                (set_customText (words_of_text text) 0%nat s))
      as (_ & _ & _ & _ & _ & _ & Hws & Hi & _).
    rewrite Hws, Hi. cbn [customTextWords customTextIndex set_customText].
    repeat split. apply customText_words_clean.
  - intros Hne ws.
    rewrite (getNextCustomWord_serves s Hne). fold ws.
    set (i' := ((customTextIndex s + 1) mod List.length ws)%nat).
    destruct (Nat.eqb_spec i' 0) as [Hz|Hnz];
      destruct (Z.ltb_spec 0 (totalWords (gameState s))) as [Hpos|Hle];
      cbn [andb]; eexists; (split; [reflexivity|]); cbn;
      repeat split; try reflexivity; try congruence; try lia;
      intros [H|H]; try congruence; lia.
  - intros d rest Hto. unfold timeout_fire. unfold bind at 1, gets at 1.
    rewrite Hto. unfold bind, modify.
    destruct (endGame_returns (set_timeouts rest s)) as (s' & Hend & Hgs & _ & _ & Hto').
    exists s'. rewrite Hend, Hgs, Hto'. repeat split.
Qed.

Lemma custom_text_serving_witness :
  customTextWords session_E1 = ["hello"; "big"; "world"]
  /\ exists s',
       getNextCustomWord session_E1 = Ok "world" s'
       /\ customTextIndex s' = 0%nat
       /\ phase (gameState s') = Running
       /\ timeouts s' = [100]
       /\ exists s'', timeout_fire s' = Ok tt s''
                      /\ phase (gameState s'') = Over.
Proof.
  split; [vm_compute; reflexivity|].
  destruct (custom_text_serving world_A session_E1 text_E) as (_ & Hserve & _).
  destruct Hserve as (s' & Hget & _ & Hidx & Hgs & Hwrap & _);
    [vm_compute; discriminate|].
  exists s'. split; [exact Hget|].
  assert (Hi : customTextIndex s' = 0%nat) by (rewrite Hidx; vm_compute; reflexivity).
  assert (Hto : timeouts s' = [100]).
  { rewrite Hwrap; [vm_compute; reflexivity | exact Hi | vm_compute; reflexivity]. }
  repeat split; try assumption.
  - rewrite Hgs. vm_compute; reflexivity.
  - destruct (custom_text_serving world_A s' text_E) as (_ & _ & Hfire).
    destruct (Hfire 100 [] Hto) as (s'' & Hrun & _ & _ & Hover).
    exists s''. split; assumption.
Defined.

(** The count [getNextCustomWord] reads during a commit is the one before
    the commit. On a text of two words the index is back at 0 when the
    first word is committed, [totalWords] still reads 0 there, and nothing
    is scheduled; the end is scheduled when the index is back at 0 for the
    second time, in the third commit. *)
Example custom_text_two_words :
  let s1 := state_of (processInput world_A "alpha" session_F) in
  let s2 := state_of (processInput world_A "beta" s1) in
  let s3 := state_of (processInput world_A "alpha" s2) in
  customTextWords session_F = ["alpha"; "beta"]
  /\ (customTextIndex s1 = 0%nat /\ totalWords (gameState s1) = 1
      /\ currentWord (gameState s1) = "beta" /\ timeouts s1 = [])
  /\ (customTextIndex s2 = 1%nat /\ totalWords (gameState s2) = 2
      /\ currentWord (gameState s2) = "alpha" /\ timeouts s2 = [])
  /\ (customTextIndex s3 = 0%nat /\ totalWords (gameState s3) = 3
      /\ currentWord (gameState s3) = "beta" /\ timeouts s3 = [100]
      /\ phase (gameState s3) = Running).
Proof. repeat split; vm_compute; reflexivity. Qed.

(* ===================================================================== *)
(** * Further properties of the game service *)
(* ===================================================================== *)

Section Outcomes.

Variable W : World.

(** Fetching a word, whether it returns or throws. *)
Lemma getNextWord_fetched (s : GameService) :
  fetched s (state_of (getNextWord W s)).
Proof.
  unfold getNextWord. unfold bind at 1, gets at 1.
  destruct (bool_decide _).
  - destruct (getNextCustomWord_returns s) as (w & s1 & -> & Hf). exact Hf.
  - unfold wordService_getRandomWord. unfold bind at 1, gets at 1.
    destruct (WordService.candidates _ _) as [arr|msg]; unfold_monad; cbn;
      repeat split.
Qed.

Lemma handleIncorrectWord_outcome (t : float) (s : GameService) :
  let s' := state_of (handleIncorrectWord W t s) in
  gameState s' = gameState s
  \/ exists w, gameState s' = incorrect_commit (gameState s) w.
Proof.
  pose proof (getNextWord_fetched s) as Hf.
  destruct (getNextWord W s) as [w s1|msg s1] eqn:Hget; cbn [state_of] in Hf.
  - destruct (handleIncorrectWord_commits W t s w s1 Hget Hf) as (s' & -> & Hgs & _).
    right. exists w. exact Hgs.
  - left. unfold handleIncorrectWord. unfold bind at 1 2 3, gets at 1 2.
    rewrite Hget. apply Hf.
Qed.

Lemma handleCorrectWord_outcome (t : float) (s : GameService) :
  let s' := state_of (handleCorrectWord W t s) in
  gameState s' = gameState s
  \/ exists w, gameState s' = correct_commit (gameState s) t w.
Proof.
  pose proof (getNextWord_fetched s) as Hf.
  destruct (getNextWord W s) as [w s1|msg s1] eqn:Hget; cbn [state_of] in Hf.
  - destruct (handleCorrectWord_commits W t s w s1 Hget Hf) as (s' & -> & Hgs & _).
    right. exists w. exact Hgs.
  - left. unfold handleCorrectWord. unfold bind at 1 2 3, gets at 1 2.
    rewrite Hget. apply Hf.
Qed.

Lemma processInput_plays (input : string) (s : GameService) :
  rtc Play (gameState s) (gameState (state_of (processInput W input s))).
Proof.
  rewrite processInput_decides.
  apply rtc_l with (with_userInput input (gameState s)); [constructor|].
  change (with_userInput input (gameState s))
    with (gameState (input_stored input s)).
  destruct (String.eqb _ _).
  - destruct (handleCorrectWord_outcome (timeTaken_in W s) (input_stored input s))
      as [->|(w & ->)]; [reflexivity|apply rtc_once; constructor].
  - destruct (_ <=? _)%nat; [|reflexivity].
    destruct (handleIncorrectWord_outcome (timeTaken_in W s) (input_stored input s))
      as [->|(w & ->)]; [reflexivity|apply rtc_once; constructor].
Qed.

Lemma skipWord_plays (s : GameService) :
  rtc Play (gameState s) (gameState (state_of (skipWord W s))).
Proof.
  rewrite skipWord_decides.
  pose proof (handleIncorrectWord_outcome (timeTaken_in W s) (after_reads 1 s)) as H.
  cbv zeta in H.
  destruct (handleIncorrectWord W (timeTaken_in W s) (after_reads 1 s));
    cbn [state_of] in *; destruct H as [->|(w & ->)];
    first [reflexivity | apply rtc_once; constructor].
Qed.

Lemma endGame_plays (s : GameService) :
  rtc Play (gameState s) (gameState (state_of (endGame s))).
Proof.
  destruct (endGame_returns s) as (s' & Hrun & Hgs & _).
  rewrite Hrun. cbn [state_of]. rewrite Hgs.
  apply rtc_once. constructor.
Qed.

Lemma pauseGame_toggles (s : GameService) :
  exists s', pauseGame s = Ok tt s'
             /\ gameState s' = pause_toggled (gameState s)
             /\ currentSettings s' = currentSettings s
             /\ wordStartTime s' = wordStartTime s
             /\ timeouts s' = timeouts s
             /\ customTextWords s' = customTextWords s
             /\ customTextIndex s' = customTextIndex s.
Proof.
  unfold pauseGame, stopTimers, startGameTimer, startWordTimer; unfold_monad.
  cbn. destruct (isPaused (gameState s)) eqn:Hp; cbn.
  - eexists; split; [reflexivity|]. unfold pause_toggled. cbn.
    rewrite Hp. repeat split.
  - destruct (timerSubscription s) eqn:Eg;
      destruct (wordTimerSubscription s) eqn:Ew; cbn; rewrite ?Eg, ?Ew; cbn;
      (eexists; split; [reflexivity|]); unfold pause_toggled; cbn;
      rewrite Hp; repeat split.
Qed.

(** The second half of an emission of the word timer, when the limit is
    not reached at either reading of the clock. *)
Lemma fire_wordTimer_waits (s : GameService) (id : nat) (timePerWord : float) :
  subscriptions s !! id = Some (WordTimer timePerWord) ->
  (timeTaken_in W s <? timePerWord)%float
    && isPlaying (gameState s) && negb (isPaused (gameState s))
    && negb (isGameOver (gameState s)) = true ->
  (WordService.getTimePerWord (difficulty (currentSettings s))
   <=? timeTaken_in W (after_reads 1 s))%float = false ->
  fire W id s = Ok tt (after_reads 2 s).
Proof.
  intros Hsub Hon Hlt.
  unfold fire. unfold bind at 1, gets at 1. rewrite Hsub.
  unfold finally_on_throw, wordTimer_emit.
  unfold bind at 1 2 3, dateNow at 1, gets at 1 2.
  cbn [wordStartTime set_reads gameState].
  unfold timeTaken_in in Hon. rewrite Hon.
  unfold bind at 1 2 3, dateNow at 1, gets at 1 2.
  cbn [wordStartTime set_reads gameState currentSettings clockReads randomDraws].
  unfold timeTaken_in, after_reads in Hlt.
  cbn [wordStartTime set_reads clockReads Nat.add] in Hlt.
  rewrite Hlt. reflexivity.
Qed.

Lemma fire_plays (id : nat) (s : GameService) :
  rtc Play (gameState s) (gameState (state_of (fire W id s))).
Proof.
  destruct (subscriptions s !! id) as [[|timePerWord]|] eqn:Hsub.
  - (* session timer *)
    destruct ((0 <? timeRemaining (gameState s)) && isPlaying (gameState s)
              && negb (isPaused (gameState s))) eqn:Hon.
    + apply andb_prop in Hon as [Hon Hpa]. apply andb_prop in Hon as [Htr Hpl].
      apply Z.ltb_lt in Htr. apply negb_true_iff in Hpa.
      rewrite (fire_gameTimer_running W s id Hsub Hpl Hpa Htr).
      destruct (Z.eqb_spec (timeRemaining (gameState s)) 1) as [Hlast|Hmore].
      * destruct (endGame_returns (decremented s)) as (s' & Hend & Hgs & _).
        rewrite Hend. cbn [state_of]. rewrite Hgs.
        apply rtc_once. now apply play_last_tick.
      * apply rtc_once. apply play_tick. lia.
    + rewrite (fire_gameTimer_stopped W s id Hsub Hon). reflexivity.
  - (* word timer *)
    destruct ((timeTaken_in W s <? timePerWord)%float
              && isPlaying (gameState s) && negb (isPaused (gameState s))
              && negb (isGameOver (gameState s))) eqn:Hon.
    + destruct (WordService.getTimePerWord (difficulty (currentSettings s))
                <=? timeTaken_in W (after_reads 1 s))%float eqn:Hge.
      * assert (Hlt : (timeTaken_in W s <? timePerWord)%float = true).
        { destruct (timeTaken_in W s <? timePerWord)%float; [reflexivity|discriminate]. }
        assert (Hact : isPlaying (gameState s) && negb (isPaused (gameState s))
                       && negb (isGameOver (gameState s)) = true).
        { rewrite Hlt in Hon. exact Hon. }
        rewrite (fire_wordTimer_skips W s id timePerWord Hsub Hlt Hact Hge).
        pose proof (skipWord_plays (after_reads 2 s)) as Hsk.
        unfold finally_on_throw.
        destruct (skipWord W (after_reads 2 s)); exact Hsk.
      * rewrite (fire_wordTimer_waits s id timePerWord Hsub Hon Hge). reflexivity.
    + rewrite (fire_wordTimer_stopped W s id timePerWord Hsub Hon). reflexivity.
  - rewrite (fire_closed W s id Hsub). reflexivity.
Qed.

Lemma timeout_fire_plays (s : GameService) :
  rtc Play (gameState s) (gameState (state_of (timeout_fire s))).
Proof.
  unfold timeout_fire. unfold bind at 1, gets at 1.
  destruct (timeouts s) as [|d rest]; [reflexivity|].
  unfold bind, modify. apply (endGame_plays (set_timeouts rest s)).
Qed.

End Outcomes.

Section Starting.

Variable W : World.

Lemma settings_merged_settings settings (s : GameService) :
  currentSettings (settings_merged settings s) = settings_after settings s.
Proof. destruct settings; reflexivity. Qed.

(** [startGame] throws when its word source does, before it has touched
    anything but the settings. *)
Lemma startGame_throws settings (s : GameService) (msg : string) :
  starts_custom (settings_after settings s) = false ->
  WordService.candidates (category (settings_after settings s))
                         (difficulty (settings_after settings s)) = inr msg ->
  startGame W settings s = Throw msg (settings_merged settings s).
Proof.
  intros Hcustom Hcand. rewrite <- settings_merged_settings in Hcustom, Hcand.
  unfold startGame. unfold bind at 1.
  replace (match settings with
           | Some p => modify (fun s0 => set_currentSettings
                                 (merge_settings (currentSettings s0) p) s0)
           | None => ret tt
           end s) with (Ok tt (settings_merged settings s))
    by (destruct settings; reflexivity).
  unfold bind at 1, gets at 1. unfold bind at 1.
  unfold starts_custom in Hcustom.
  assert (Hfetch :
    match bool_decide (isCustomMode (currentSettings (settings_merged settings s))
                       = Some true),
          customText (currentSettings (settings_merged settings s)) with
    | true, Some text => initializeCustomText W text ;;; getNextCustomWord
    | _, _ => wordService_getRandomWord W
    end (settings_merged settings s)
    = Throw msg (settings_merged settings s)).
  { assert (Hr : wordService_getRandomWord W (settings_merged settings s)
                 = Throw msg (settings_merged settings s)).
    { unfold wordService_getRandomWord. unfold bind at 1, gets at 1.
      rewrite Hcand. reflexivity. }
    destruct (bool_decide _); [|exact Hr].
    destruct (customText _); [discriminate|exact Hr]. }
  rewrite Hfetch. reflexivity.
Qed.

(** [startGame] either starts a game, or throws with the game state, the
    timers, the custom text and the timeouts as they were. *)
Lemma startGame_outcome settings (s : GameService) :
  (exists newWord s1,
      startGame W settings s = Ok tt s1
      /\ gameState s1
         = started newWord (gameDuration (settings_after settings s))
      /\ currentSettings s1 = settings_after settings s)
  \/ (exists msg,
        startGame W settings s = Throw msg (settings_merged settings s)).
Proof.
  destruct (starts_custom (settings_after settings s)) eqn:Hcustom.
  - left. rewrite <- settings_merged_settings in Hcustom |- *.
    unfold startGame. unfold bind at 1.
    replace (match settings with
             | Some p => modify (fun s0 => set_currentSettings
                                   (merge_settings (currentSettings s0) p) s0)
             | None => ret tt
             end s) with (Ok tt (settings_merged settings s))
      by (destruct settings; reflexivity).
    unfold bind at 1, gets at 1. unfold bind at 1.
    unfold starts_custom in Hcustom. apply andb_prop in Hcustom as [Hc Ht].
    rewrite Hc.
    destruct (customText (currentSettings (settings_merged settings s)))
      as [text|]; [|discriminate].
    unfold bind at 1. rewrite initializeCustomText_returns.
    match goal with
    | |- context [getNextCustomWord ?x] =>
        destruct (getNextCustomWord_returns x)
          as (w & s1 & Hget & Hgs & Hcs & _); rewrite Hget
    end.
    match type of Hcs with
    | _ = currentSettings (usage_recorded ?W' ?id ?x) =>
        destruct (usage_recorded_fields W' id x) as (_ & Hcs0 & _)
    end.
    unfold startGameTimer, startWordTimer; unfold_monad; cbn.
    eexists; eexists; split; [reflexivity|]. cbn. rewrite Hcs, Hcs0. cbn.
    split; reflexivity.
  - destruct (WordService.candidates (category (settings_after settings s))
                (difficulty (settings_after settings s))) as [arr|msg] eqn:Hcand.
    + left. rewrite <- settings_merged_settings in Hcustom, Hcand |- *.
      unfold startGame. unfold bind at 1.
      replace (match settings with
               | Some p => modify (fun s0 => set_currentSettings
                                     (merge_settings (currentSettings s0) p) s0)
               | None => ret tt
               end s) with (Ok tt (settings_merged settings s))
        by (destruct settings; reflexivity).
      unfold bind at 1, gets at 1. unfold bind at 1.
      assert (Hfetch :
        match bool_decide (isCustomMode (currentSettings (settings_merged settings s))
                           = Some true),
              customText (currentSettings (settings_merged settings s)) with
        | true, Some text => initializeCustomText W text ;;; getNextCustomWord
        | _, _ => wordService_getRandomWord W
        end (settings_merged settings s)
        = wordService_getRandomWord W (settings_merged settings s)).
      { unfold starts_custom in Hcustom.
        destruct (bool_decide _); [|reflexivity].
        destruct (customText _); [discriminate|reflexivity]. }
      rewrite Hfetch.
      destruct (wordService_getRandomWord_returns W _ arr Hcand)
        as (w & s1 & Hget & Hgs & Hcs & _).
      rewrite Hget.
      unfold startGameTimer, startWordTimer; unfold_monad; cbn.
      eexists; eexists; split; [reflexivity|]. cbn. rewrite Hcs.
      split; reflexivity.
    + right. exists msg. now apply startGame_throws.
Qed.

Lemma startGame_changes settings (s : GameService) :
  rtc Change (gameState s) (gameState (state_of (startGame W settings s))).
Proof.
  destruct (startGame_outcome settings s)
    as [(w & s1 & Hrun & Hgs & _)|(msg & Hrun)]; rewrite Hrun; cbn [state_of].
  - rewrite Hgs. apply rtc_once. apply change_start.
  - destruct settings; reflexivity.
Qed.

Lemma resetGame_resets (s : GameService) :
  exists s', resetGame s = Ok tt s'
             /\ gameState s' = getInitialState
             /\ timers_closed s'
             /\ currentSettings s' = currentSettings s
             /\ timeouts s' = timeouts s
             /\ customTextWords s' = customTextWords s
             /\ customTextIndex s' = customTextIndex s.
Proof.
  unfold resetGame, stopTimers, timers_closed; unfold_monad.
  destruct (timerSubscription s) as [g|] eqn:Eg;
    destruct (wordTimerSubscription s) as [w|] eqn:Ew;
    cbn; rewrite ?Eg, ?Ew; cbn;
    (eexists; split; [reflexivity|]); cbn; rewrite ?Eg, ?Ew;
    repeat apply conj; try reflexivity; intros h [= <-];
    rewrite ?lookup_delete; repeat case_decide; try reflexivity;
    try congruence.
Qed.

(** Every call other than [startGame] and [resetGame] changes the game
    state by steps of a game. *)
Lemma perform_plays (c : Call) (s : GameService) :
  in_game c -> rtc Play (gameState s) (gameState (perform W c s)).
Proof.
  intros Hc. destruct c as [settings| | | |input| |[id|]]; cbn [perform deliver];
    try contradiction.
  - destruct (pauseGame_toggles s) as (s' & Hrun & Hgs & _).
    rewrite Hrun. cbn [state_of]. rewrite Hgs. apply rtc_once. constructor.
  - apply endGame_plays.
  - apply processInput_plays.
  - apply skipWord_plays.
  - apply fire_plays.
  - apply timeout_fire_plays.
Qed.

Lemma Play_Change (gs gs' : GameState) : rtc Play gs gs' -> rtc Change gs gs'.
Proof.
  induction 1 as [|x y z Hxy _ IH]; [reflexivity|].
  apply rtc_l with y; [now constructor|exact IH].
Qed.

Lemma perform_changes (c : Call) (s : GameService) :
  rtc Change (gameState s) (gameState (perform W c s)).
Proof.
  destruct c as [settings| | | |input| |e].
  - apply startGame_changes.
  - apply Play_Change. now apply perform_plays.
  - apply Play_Change. now apply perform_plays.
  - cbn [perform]. destruct (resetGame_resets s) as (s' & Hrun & Hgs & _).
    rewrite Hrun. cbn [state_of]. rewrite Hgs. apply rtc_once. apply change_reset.
  - apply Play_Change. now apply perform_plays.
  - apply Play_Change. now apply perform_plays.
  - apply Play_Change. now apply perform_plays.
Qed.

Lemma perform_all_changes (cs : list Call) :
  forall s, rtc Change (gameState s) (gameState (perform_all W cs s)).
Proof.
  induction cs as [|c cs IH]; intros s; [reflexivity|].
  cbn [perform_all]. etransitivity; [apply perform_changes|apply IH].
Qed.

Lemma perform_all_plays (cs : list Call) :
  Forall in_game cs ->
  forall s, rtc Play (gameState s) (gameState (perform_all W cs s)).
Proof.
  induction 1 as [|c cs Hc _ IH]; intros s; [reflexivity|].
  cbn [perform_all]. etransitivity; [apply perform_plays; exact Hc|apply IH].
Qed.

End Starting.

(* ===================================================================== *)
(** ** Invariants of the game state *)
(* ===================================================================== *)

Lemma Play_counters (gs gs' : GameState) :
  Play gs gs' -> counters_consistent gs -> counters_consistent gs'.
Proof.
  unfold counters_consistent.
  intros [input|t w|w| | | |] (Htot & Hlen & Hst & Hm); cbn;
    rewrite ?length_app; cbn; repeat split; lia.
Qed.

Lemma Change_counters (gs gs' : GameState) :
  Change gs gs' -> counters_consistent gs -> counters_consistent gs'.
Proof.
  intros [gs'' Hplay| |w d] Hc.
  - now apply Play_counters with gs.
  - unfold counters_consistent; cbn; lia.
  - unfold counters_consistent; cbn; lia.
Qed.

Lemma newMultiplier_0 : (newMultiplier 0 == 1)%Q.
Proof. reflexivity. Qed.

(** The points of a correct word: at least its base score, when the
    multiplier is at least 1 and the streak is not negative. *)
Lemma word_score_lower_bound (gs : GameState) (t : float) :
  0 <= streak gs -> (1 <= multiplier gs)%Q ->
  baseScore (currentWord gs) <= JS.Math_roundQ (totalScore gs t).
Proof.
  intros Hst Hm. unfold JS.Math_roundQ, totalScore.
  set (total := baseScore (currentWord gs) + timeBonus t + streakBonus (streak gs)).
  assert (Hbase : 0 <= baseScore (currentWord gs)) by (unfold baseScore; lia).
  assert (Hbonus : 0 <= streakBonus (streak gs)).
  { unfold streakBonus. assert (0 <= streak gs / 5) by (apply Z.div_pos; lia). lia. }
  pose proof (timeBonus_nonneg t) as Htime.
  assert (Htotal : baseScore (currentWord gs) <= total) by (unfold total; lia).
  transitivity total; [exact Htotal|].
  rewrite <- (Qfloor_Z total) at 1. apply Qfloor_resp_le.
  assert (H0 : (0 <= inject_Z total)%Q).
  { change 0%Q with (inject_Z 0). rewrite <- Zle_Qle. lia. }
  nra.
Qed.

Lemma Play_scoring (gs gs' : GameState) :
  Play gs gs' -> scoring_consistent gs ->
  scoring_consistent gs' /\ score gs <= score gs'.
Proof.
  unfold scoring_consistent.
  intros [input|t w|w| | | |] (Hst & Hm & Hsc);
    cbn [streak multiplier score with_userInput correct_commit
         incorrect_commit ticked pause_toggled game_over];
    try (repeat split; first [assumption | reflexivity | lia]).
  assert (H1 : (1 <= multiplier gs)%Q).
  { rewrite Hm. now apply newMultiplier_bounds. }
  pose proof (word_score_lower_bound gs t Hst H1) as Hlow.
  assert (0 <= baseScore (currentWord gs)) by (unfold baseScore; lia).
  repeat split; try reflexivity; lia.
Qed.

Lemma Change_scoring (gs gs' : GameState) :
  Change gs gs' -> scoring_consistent gs -> scoring_consistent gs'.
Proof.
  intros [gs'' Hplay| |w d] Hc.
  - now apply (Play_scoring gs gs'').
  - unfold scoring_consistent; cbn. repeat split; try lia; reflexivity.
  - unfold scoring_consistent; cbn. repeat split; try lia; reflexivity.
Qed.

Lemma rtc_invariant (R : relation GameState) (P : GameState -> Prop) :
  (forall gs gs', R gs gs' -> P gs -> P gs') ->
  forall gs gs', rtc R gs gs' -> P gs -> P gs'.
Proof. intros Hstep gs gs'. induction 1; eauto. Qed.

(** X1. In every state the service reaches from its initial state, by any
    calls and deliveries in any order, failed calls included, the word
    counters agree: [totalWords] is [correctWords + mistakes] and is the
    length of the history [wordsTyped], the streak is at most
    [correctWords], and none of them is negative. *)
Theorem counters_always_consistent (W : World) (cs : list Call) :
  let gs := gameState (perform_all W cs initial) in
  totalWords gs = correctWords gs + mistakes gs
  /\ Z.of_nat (List.length (wordsTyped gs)) = totalWords gs
  /\ 0 <= streak gs <= correctWords gs
  /\ 0 <= mistakes gs.
Proof.
  apply (rtc_invariant Change counters_consistent Change_counters
           (gameState initial)).
  - apply perform_all_changes.
  - unfold counters_consistent; cbn; lia.
Qed.

(** X2. In every state the service reaches from its initial state the
    multiplier is the one its formula gives for the current streak, so it
    lies between 1 and 5, and the score is not negative. *)
Theorem multiplier_always_from_streak (W : World) (cs : list Call) :
  let gs := gameState (perform_all W cs initial) in
  (multiplier gs == newMultiplier (streak gs))%Q
  /\ (1 <= multiplier gs)%Q /\ (multiplier gs <= 5)%Q
  /\ 0 <= score gs.
Proof.
  cbv zeta.
  assert (H : scoring_consistent (gameState (perform_all W cs initial))).
  { apply (rtc_invariant Change scoring_consistent Change_scoring
             (gameState initial)).
    - apply perform_all_changes.
    - unfold scoring_consistent; cbn. repeat split; try lia; reflexivity. }
  destruct H as (Hst & Hm & Hsc).
  destruct (newMultiplier_bounds _ Hst) as [Hlo Hhi].
  repeat split; try assumption; now rewrite Hm.
Qed.

Lemma Play_moved_on (gs gs' : GameState) :
  Play gs gs' -> scoring_consistent gs -> moved_on gs gs'.
Proof.
  intros Hplay Hsc.
  destruct (Play_scoring gs gs' Hplay Hsc) as [_ Hscore].
  unfold moved_on. split; [exact Hscore|]. clear Hscore.
  destruct Hplay as [input|t w|w|Htick|Htick| |];
    cbn [correctWords mistakes wordsTyped totalWords timeRemaining
         with_userInput correct_commit incorrect_commit ticked
         pause_toggled game_over];
    (split; [lia|]); (split; [lia|]); (split; [|lia]).
  - exists []. rewrite app_nil_r. split; [reflexivity|cbn; lia].
  - exists [currentWord gs]. split; [reflexivity|cbn; lia].
  - exists [currentWord gs]. split; [reflexivity|cbn; lia].
  - exists []. rewrite app_nil_r. split; [reflexivity|cbn; lia].
  - exists []. rewrite app_nil_r. split; [reflexivity|cbn; lia].
  - exists []. rewrite app_nil_r. split; [reflexivity|cbn; lia].
  - exists []. rewrite app_nil_r. split; [reflexivity|cbn; lia].
Qed.

Lemma moved_on_trans (a b c : GameState) :
  moved_on a b -> moved_on b c -> moved_on a c.
Proof.
  unfold moved_on.
  intros (? & ? & ? & (l1 & E1 & L1) & ?) (? & ? & ? & (l2 & E2 & L2) & ?).
  repeat split; try lia.
  exists (l1 ++ l2)%list. rewrite E2, E1, <- app_assoc, length_app.
  split; [reflexivity|lia].
Qed.

Lemma rtc_Play_moved_on (gs gs' : GameState) :
  rtc Play gs gs' -> scoring_consistent gs -> moved_on gs gs'.
Proof.
  induction 1 as [gs|x y z Hxy _ IH]; intros Hsc.
  - unfold moved_on. repeat split; try lia.
    exists []. rewrite app_nil_r. split; [reflexivity|cbn; lia].
  - pose proof (Play_moved_on x y Hxy Hsc) as Hm.
    apply moved_on_trans with y; [exact Hm|].
    apply IH. now apply (Play_scoring x y).
Qed.

(** The multiplier and the score are consistent in every state reached
    from the initial one. *)
Lemma reached_scoring (W : World) (cs : list Call) :
  scoring_consistent (gameState (perform_all W cs initial)).
Proof.
  apply (rtc_invariant Change scoring_consistent Change_scoring
           (gameState initial)).
  - apply perform_all_changes.
  - unfold scoring_consistent; cbn. repeat split; try lia; reflexivity.
Qed.

(** X3. In every state the service reaches from its initial one, and from
    there over any calls and deliveries other than [startGame] and
    [resetGame], the game only moves on: the score and the two word
    counters never go down, the history [wordsTyped] only grows at its
    end, by as many words as [totalWords] grew, and the time remaining
    never goes up. The time remaining goes down to 0 and no further; a
    game that was started with a negative duration keeps that time as it
    is. *)
Theorem game_only_moves_on (W : World) (cs0 cs : list Call) :
  Forall in_game cs ->
  let s := perform_all W cs0 initial in
  let gs := gameState s in
  let gs' := gameState (perform_all W cs s) in
  score gs <= score gs'
  /\ correctWords gs <= correctWords gs'
  /\ mistakes gs <= mistakes gs'
  /\ (exists l, wordsTyped gs' = (wordsTyped gs ++ l)%list
                /\ Z.of_nat (List.length l) = totalWords gs' - totalWords gs)
  /\ timeRemaining gs' <= timeRemaining gs
  /\ (0 <= timeRemaining gs -> 0 <= timeRemaining gs')
  /\ (timeRemaining gs <= 0 -> timeRemaining gs' = timeRemaining gs).
Proof.
  intros Hcs s gs gs'.
  assert (Hm : moved_on gs gs').
  { apply rtc_Play_moved_on; [now apply perform_all_plays|].
    apply reached_scoring. }
  destruct Hm as (H1 & H2 & H3 & H4 & H5).
  repeat split; try assumption; lia.
Qed.

Lemma game_only_moves_on_witness :
  let s := perform_all world_A calls_start_A initial in
  let gs' := gameState (perform_all world_A calls_A s) in
  score (gameState s) <= score gs'
  /\ timeRemaining gs' <= timeRemaining (gameState s)
  /\ 0 <= timeRemaining gs'.
Proof.
  cbv zeta.
  pose proof (game_only_moves_on world_A calls_start_A calls_A) as H.
  cbv zeta in H.
  destruct H as (Hs & _ & _ & _ & Ht & Ht0 & _).
  - repeat constructor.
  - split; [exact Hs|]. split; [exact Ht|].
    apply Ht0. vm_compute. discriminate.
Defined.

Lemma multiplier_always_from_streak_aux (W : World) (cs : list Call) :
  0 <= streak (gameState (perform_all W cs initial))
  /\ (1 <= multiplier (gameState (perform_all W cs initial)))%Q.
Proof.
  assert (H : scoring_consistent (gameState (perform_all W cs initial))).
  { apply (rtc_invariant Change scoring_consistent Change_scoring
             (gameState initial)).
    - apply perform_all_changes.
    - unfold scoring_consistent; cbn. repeat split; try lia; reflexivity. }
  destruct H as (Hst & Hm & _). split; [exact Hst|].
  rewrite Hm. now apply newMultiplier_bounds.
Qed.

(** X4. In every state reached from the initial one in which the word
    source can serve a word, typing the current word is answered with a
    correct result and earns at least ten points for each of its
    characters. *)
Theorem correct_word_earns_its_length (W : World) (cs : list Call) (input : string) :
  let s := perform_all W cs initial in
  wordSourceReady s = true ->
  input = currentWord (gameState s) ->
  exists r s',
    processInput W input s = Ok r s'
    /\ isCorrect r = true
    /\ score (gameState s) + 10 * Z.of_nat (String.length input)
       <= score (gameState s').
Proof.
  intros s Hready Hin. subst input.
  destruct (processInput_correct W s _ Hready eq_refl)
    as (s' & w & s1 & Hrun & _ & Hgs & _).
  eexists; exists s'. split; [exact Hrun|]. split; [reflexivity|].
  rewrite Hgs. cbn [correct_commit score].
  destruct (multiplier_always_from_streak_aux W cs) as (Hst & H1).
  pose proof (word_score_lower_bound
                (gameState (input_stored (currentWord (gameState s)) s))
                (timeTaken_in W s) Hst H1) as Hlow.
  cbn [input_stored gameState set_gameState currentWord score] in Hlow |- *.
  unfold baseScore in Hlow.
  apply Z.add_le_mono_l. rewrite Z.mul_comm. exact Hlow.
Qed.

Lemma correct_word_earns_its_length_witness :
  exists r s',
    processInput world_A "the" (perform_all world_A calls_start_A initial)
    = Ok r s'
    /\ isCorrect r = true /\ 30 <= score (gameState s').
Proof.
  destruct (correct_word_earns_its_length world_A calls_start_A "the")
    as (r & s' & Hrun & Hr & Hs);
    [vm_compute; reflexivity | vm_compute; reflexivity |].
  exists r, s'. repeat split; assumption.
Defined.

(* ===================================================================== *)
(** ** Starting over *)
(* ===================================================================== *)

Section StartingOver.

Variable W : World.

Lemma getNextWord_throws (s : GameService) (msg : string) :
  isCustomMode (currentSettings s) <> Some true ->
  WordService.candidates (category (currentSettings s))
                         (difficulty (currentSettings s)) = inr msg ->
  getNextWord W s = Throw msg s.
Proof.
  intros Hc Hcand. unfold getNextWord. unfold bind at 1, gets at 1.
  rewrite bool_decide_eq_false_2 by exact Hc.
  unfold wordService_getRandomWord. unfold bind at 1, gets at 1.
  now rewrite Hcand.
Qed.

Lemma commit_throws (s : GameService) (msg : string) (input : string) :
  isCustomMode (currentSettings s) <> Some true ->
  WordService.candidates (category (currentSettings s))
                         (difficulty (currentSettings s)) = inr msg ->
  (String.length (currentWord (gameState s)) <= String.length input)%nat ->
  processInput W input s = Throw msg (input_stored input s).
Proof.
  intros Hc Hcand Hlen. rewrite processInput_decides.
  assert (Hget : getNextWord W (input_stored input s)
                 = Throw msg (input_stored input s))
    by now apply getNextWord_throws.
  apply Nat.leb_le in Hlen. rewrite Hlen.
  destruct (String.eqb _ _).
  - unfold handleCorrectWord. unfold bind at 1 2 3, gets at 1 2.
    now rewrite Hget.
  - unfold handleIncorrectWord. unfold bind at 1 2 3, gets at 1 2.
    now rewrite Hget.
Qed.

End StartingOver.

(** X5. [startGame] with settings that name an unknown category or
    difficulty (and no custom text) throws the error of the word service.
    The game state, the timers and the start of the word are left as they
    were, but the settings have been merged already: if a game was running
    it goes on with settings it cannot serve, and from then on every input
    that completes a word throws the same error and counts nothing. *)
Theorem failed_start_breaks_running_game (W : World)
    (settings : option PartialGameSettings) (s : GameService) (msg : string) :
  isCustomMode (settings_after settings s) <> Some true ->
  WordService.candidates (category (settings_after settings s))
                         (difficulty (settings_after settings s)) = inr msg ->
  exists s0,
    startGame W settings s = Throw msg s0
    /\ gameState s0 = gameState s
    /\ subscriptions s0 = subscriptions s
    /\ timerSubscription s0 = timerSubscription s
    /\ wordTimerSubscription s0 = wordTimerSubscription s
    /\ wordStartTime s0 = wordStartTime s
    /\ currentSettings s0 = settings_after settings s
    /\ forall input,
         (String.length (currentWord (gameState s)) <= String.length input)%nat ->
         processInput W input s0 = Throw msg (input_stored input s0)
         /\ totalWords (gameState (input_stored input s0))
            = totalWords (gameState s)
         /\ currentWord (gameState (input_stored input s0))
            = currentWord (gameState s).
Proof.
  intros Hc Hcand. exists (settings_merged settings s).
  assert (Hcustom : starts_custom (settings_after settings s) = false).
  { unfold starts_custom. now rewrite bool_decide_eq_false_2. }
  split; [now apply startGame_throws|].
  assert (Hcs : currentSettings (settings_merged settings s)
                = settings_after settings s)
    by apply settings_merged_settings.
  assert (Hgs : gameState (settings_merged settings s) = gameState s)
    by (destruct settings; reflexivity).
  do 5 (split; [destruct settings; reflexivity|]).
  split; [exact Hcs|].
  intros input Hlen. split.
  - apply commit_throws; rewrite ?Hcs, ?Hgs; assumption.
  - cbn [input_stored gameState set_gameState totalWords currentWord].
    now rewrite Hgs.
Qed.

Lemma failed_start_breaks_running_game_witness :
  phase (gameState session_A_failed) = Running
  /\ currentWord (gameState session_A_failed) = "the"
  /\ processInput world_A "the" session_A_failed
     = Throw "Category 'Poetry' not found" (input_stored "the" session_A_failed).
Proof.
  destruct (failed_start_breaks_running_game world_A
              (settings_of "Poetry" "Easy" 60) session_A
              "Category 'Poetry' not found")
    as (s0 & Hthrow & Hgs & _ & _ & _ & _ & _ & Hinput);
    [vm_compute; discriminate | vm_compute; reflexivity |].
  assert (E : session_A_failed = s0).
  { unfold session_A_failed. now rewrite Hthrow. }
  rewrite E. repeat split.
  - rewrite Hgs. vm_compute; reflexivity.
  - rewrite Hgs. vm_compute; reflexivity.
  - apply Hinput. vm_compute. lia.
Defined.

(* ===================================================================== *)
(** ** Timers across [startGame] *)
(* ===================================================================== *)

Section Restart.

Variable W : World.

Lemma getNextCustomWord_timeouts (s : GameService) :
  exists l, timeouts (state_of (getNextCustomWord s)) = (timeouts s ++ l)%list.
Proof.
  unfold getNextCustomWord; unfold_monad.
  destruct (List.length (customTextWords s) =? 0)%nat; cbn.
  - exists []. now rewrite app_nil_r.
  - destruct (_ && _); cbn; [now exists [100]|].
    exists []. now rewrite app_nil_r.
Qed.

(** What [startGame] leaves when it returns. *)
Lemma startGame_opens settings (s s1 : GameService) :
  startGame W settings s = Ok tt s1 ->
  timers_opened s s1
  /\ (exists l, timeouts s1 = (timeouts s ++ l)%list)
  /\ gameState s1
     = started (currentWord (gameState s1))
               (gameDuration (settings_after settings s))
  /\ currentSettings s1 = settings_after settings s.
Proof.
  unfold startGame. unfold bind at 1.
  replace (match settings with
           | Some p => modify (fun s0 => set_currentSettings
                                 (merge_settings (currentSettings s0) p) s0)
           | None => ret tt
           end s) with (Ok tt (settings_merged settings s))
    by (destruct settings; reflexivity).
  unfold bind at 1, gets at 1. unfold bind at 1.
  match goal with
  | |- context [match ?c with Ok _ _ => _ | Throw _ _ => _ end] =>
      destruct c as [newWord sb|] eqn:Eword; [|discriminate]
  end.
  assert (Hsb : subscriptions sb = subscriptions s
                /\ nextSubscription sb = nextSubscription s
                /\ currentSettings sb = settings_after settings s
                /\ exists l, timeouts sb = (timeouts s ++ l)%list).
  { assert (Hrandom : forall x,
              wordService_getRandomWord W (settings_merged settings s) = Ok newWord x ->
              subscriptions x = subscriptions s
              /\ nextSubscription x = nextSubscription s
              /\ currentSettings x = settings_after settings s
              /\ exists l, timeouts x = (timeouts s ++ l)%list).
    { intros x. unfold wordService_getRandomWord; unfold_monad.
      destruct (WordService.candidates _ _); [|discriminate].
      intros [= _ <-]. cbn. rewrite settings_merged_settings.
      repeat split; try (destruct settings; reflexivity).
      exists []. rewrite app_nil_r. destruct settings; reflexivity. }
    destruct (bool_decide _); [|now apply Hrandom].
    destruct (customText _) as [text|]; [|now apply Hrandom].
    unfold bind at 1 in Eword. rewrite initializeCustomText_returns in Eword.
    match type of Eword with
    | context [getNextCustomWord (usage_recorded ?W' ?id ?x)] =>
        destruct (getNextCustomWord_returns (usage_recorded W' id x))
          as (w & s2 & Hget & _ & Hcs & _ & _ & _ & _ & _ & Hsub & Hnx & _);
        destruct (getNextCustomWord_timeouts (usage_recorded W' id x)) as (l & Hl);
        destruct (usage_recorded_fields W' id x)
          as (_ & Hcs0 & _ & _ & _ & _ & _ & _ & Hsub0 & Hnx0 & Hto0 & _);
        rewrite Hget in Eword, Hl
    end.
    injection Eword as _ <-. cbn [state_of] in Hl.
    rewrite Hsub, Hnx, Hcs, Hl, Hsub0, Hnx0, Hcs0, Hto0. cbn.
    rewrite settings_merged_settings.
    repeat split; try (destruct settings; reflexivity).
    exists l. destruct settings; reflexivity. }
  destruct Hsb as (Hsub & Hnx & Hcs & l & Hl).
  unfold startGameTimer, startWordTimer; unfold_monad; cbn.
  intros [= <-]. unfold timers_opened. cbn.
  rewrite Hsub, Hnx, Hcs, Hl.
  repeat split. now exists l.
Qed.

End Restart.

(** X6. [startGame] does not stop the timers of a session that is still
    running. The session timer of the old session stays open beside the new
    one, so that the new session loses one second for each emission of
    either: two seconds for every second of the clock. *)
Theorem restart_keeps_old_session_timer (W : World)
    (settings : option PartialGameSettings) (s s1 : GameService) (old : nat) :
  timerSubscription s = Some old ->
  subscriptions s !! old = Some GameTimer ->
  (old < nextSubscription s)%nat ->
  startGame W settings s = Ok tt s1 ->
  2 < gameDuration (currentSettings s1) ->
  exists new s2,
    timerSubscription s1 = Some new /\ new <> old
    /\ subscriptions s1 !! old = Some GameTimer
    /\ subscriptions s1 !! new = Some GameTimer
    /\ deliver_all W [Emit old; Emit new] s1 = Ok tt s2
    /\ timeRemaining (gameState s2) = gameDuration (currentSettings s1) - 2
    /\ phase (gameState s2) = Running.
Proof.
  intros Hold Hopen Hlt Hrun Hdur.
  destruct (startGame_opens W settings s s1 Hrun)
    as ((Hts & _ & Hsubs & _) & _ & Hgs & Hcs).
  exists (nextSubscription s).
  assert (Ho : subscriptions s1 !! old = Some GameTimer).
  { rewrite Hsubs. rewrite !lookup_insert_ne by lia. exact Hopen. }
  assert (Hn : subscriptions s1 !! nextSubscription s = Some GameTimer).
  { rewrite Hsubs. rewrite lookup_insert_ne by lia. apply lookup_insert_eq. }
  rewrite <- Hcs in Hgs.
  assert (H1 : fire W old s1 = Ok tt (decremented s1)).
  { rewrite (fire_gameTimer_running W s1 old Ho); rewrite Hgs; cbn; try easy; try lia.
    destruct (Z.eqb_spec (gameDuration (currentSettings s1)) 1); [lia|reflexivity]. }
  assert (H2 : fire W (nextSubscription s) (decremented s1)
               = Ok tt (decremented (decremented s1))).
  { rewrite (fire_gameTimer_running W (decremented s1) (nextSubscription s) Hn);
      cbn; rewrite Hgs; cbn; try easy; try lia.
    destruct (Z.eqb_spec (Z.max 0 (gameDuration (currentSettings s1) - 1)) 1);
      [lia|reflexivity]. }
  exists (decremented (decremented s1)).
  split; [exact Hts|]. split; [lia|]. split; [exact Ho|]. split; [exact Hn|].
  split.
  { cbn [deliver_all deliver]. unfold bind at 1. rewrite H1.
    unfold bind at 1. rewrite H2. reflexivity. }
  cbn. rewrite Hgs. cbn. split; [lia|reflexivity].
Qed.

Lemma restart_keeps_old_session_timer_witness :
  exists new s2,
    timerSubscription session_A_again = Some new /\ new <> 0%nat
    /\ subscriptions session_A_again !! 0%nat = Some GameTimer
    /\ subscriptions session_A_again !! new = Some GameTimer
    /\ deliver_all world_A [Emit 0%nat; Emit new] session_A_again = Ok tt s2
    /\ timeRemaining (gameState s2)
       = gameDuration (currentSettings session_A_again) - 2
    /\ phase (gameState s2) = Running.
Proof.
  apply (restart_keeps_old_session_timer world_A None session_A).
  - vm_compute; reflexivity.
  - vm_compute; reflexivity.
  - vm_compute; lia.
  - vm_compute; reflexivity.
  - vm_compute; reflexivity.
Defined.

(** X7. A scheduled end of the game is never cancelled: [resetGame] and
    [endGame] keep the pending timeout, and so does [startGame]. When it
    runs in the game started next, that game is over at once, with its
    timers closed and no word typed. *)
Theorem pending_timeout_ends_the_next_game (W : World)
    (settings : option PartialGameSettings) (s s1 : GameService)
    (d : Z) (rest : list Z) :
  timeouts s = d :: rest ->
  startGame W settings s = Ok tt s1 ->
  timeouts (perform W CallReset s) = timeouts s
  /\ timeouts (perform W CallEnd s) = timeouts s
  /\ exists s2,
       deliver W TimeoutDue s1 = Ok tt s2
       /\ gameState s2 = game_over (gameState s1)
       /\ phase (gameState s2) = Over
       /\ totalWords (gameState s2) = 0
       /\ timers_closed s2.
Proof.
  intros Hto Hrun. split; [|split].
  - cbn [perform]. destruct (resetGame_resets s) as (s' & -> & _ & _ & _ & H & _).
    exact H.
  - cbn [perform]. destruct (endGame_returns s) as (s' & -> & _ & _ & _ & H).
    exact H.
  - destruct (startGame_opens W settings s s1 Hrun) as (_ & (l & Hl) & Hgs & _).
    rewrite Hto in Hl. cbn [app] in Hl.
    cbn [deliver]. unfold timeout_fire. unfold bind at 1, gets at 1.
    rewrite Hl. unfold bind, modify.
    destruct (endGame_returns (set_timeouts (rest ++ l) s1))
      as (s2 & Hend & Hgs2 & Hclosed & _).
    exists s2. rewrite Hend, Hgs2. cbn [gameState set_timeouts set_gameState].
    rewrite Hgs. repeat split; apply Hclosed.
Qed.

Lemma pending_timeout_ends_the_next_game_witness :
  timeouts session_F3 = [100]
  /\ exists s2,
       deliver world_A TimeoutDue
         (state_of (startGame world_A None session_F3)) = Ok tt s2
       /\ phase (gameState s2) = Over
       /\ totalWords (gameState s2) = 0.
Proof.
  split; [vm_compute; reflexivity|].
  destruct (pending_timeout_ends_the_next_game world_A None session_F3
              (state_of (startGame world_A None session_F3)) 100 [])
    as (_ & _ & s2 & Hrun & _ & Hover & Hwords & _);
    [vm_compute; reflexivity | vm_compute; reflexivity |].
  exists s2. repeat split; assumption.
Defined.

Lemma Play_flags (gs gs' : GameState) :
  Play gs gs' ->
  (isPlaying gs = false -> isPlaying gs' = false)
  /\ (isGameOver gs = true -> isGameOver gs' = true).
Proof. intros []; cbn; auto. Qed.

(** X8. Only [startGame] sets a game playing: from a service that is not
    playing, no sequence of the other calls, of timer emissions and of
    timeouts makes it play ([resetGame] apart, which is not used here), and
    once the game is over it stays over. *)
Theorem only_startGame_starts_playing (W : World) (cs : list Call)
    (s : GameService) :
  Forall in_game cs ->
  isPlaying (gameState s) = false ->
  isPlaying (gameState (perform_all W cs s)) = false
  /\ (phase (gameState s) = Over ->
      phase (gameState (perform_all W cs s)) = Over).
Proof.
  intros Hcs Hp.
  pose proof (perform_all_plays W cs Hcs s) as Hplays.
  assert (H1 : isPlaying (gameState (perform_all W cs s)) = false).
  { apply (rtc_invariant Play (fun gs => isPlaying gs = false)
             (fun a b Hab => proj1 (Play_flags a b Hab)) _ _ Hplays Hp). }
  split; [exact H1|].
  unfold phase. intros Hover.
  destruct (isGameOver (gameState s)) eqn:E.
  - rewrite (rtc_invariant Play (fun gs => isGameOver gs = true)
               (fun a b Hab => proj2 (Play_flags a b Hab)) _ _ Hplays E).
    reflexivity.
  - rewrite Hp in Hover. discriminate.
Qed.

Lemma only_startGame_starts_playing_witness :
  isPlaying (gameState (perform_all world_A calls_A session_A_over)) = false
  /\ phase (gameState (perform_all world_A calls_A session_A_over)) = Over.
Proof.
  destruct (only_startGame_starts_playing world_A calls_A session_A_over)
    as [H1 H2].
  - repeat constructor.
  - vm_compute; reflexivity.
  - split; [exact H1|]. apply H2. vm_compute; reflexivity.
Defined.

(** X9. A timer that emits in a session that is paused or not playing
    closes itself and touches nothing else: the game state, the settings,
    the start of the word, the handles and the other subscriptions stay as
    they were, and the same timer never acts again. *)
Theorem stale_timer_closes_itself (W : World) (s : GameService) (id : nat)
    (t : Timer) :
  stopped (gameState s) ->
  subscriptions s !! id = Some t ->
  exists s',
    deliver W (Emit id) s = Ok tt s'
    /\ subscriptions s' = delete id (subscriptions s)
    /\ gameState s' = gameState s
    /\ currentSettings s' = currentSettings s
    /\ wordStartTime s' = wordStartTime s
    /\ timerSubscription s' = timerSubscription s
    /\ wordTimerSubscription s' = wordTimerSubscription s
    /\ timeouts s' = timeouts s
    /\ deliver W (Emit id) s' = Ok tt s'.
Proof.
  intros Hst Hsub. cbn [deliver]. destruct t as [|timePerWord].
  - exists (close id s). split.
    + apply fire_gameTimer_stopped; [assumption|]. now apply stopped_gameTimer.
    + repeat split. apply fire_closed. cbn. apply lookup_delete_eq.
  - exists (close id (after_reads 1 s)). split.
    + apply fire_wordTimer_stopped with timePerWord; [assumption|].
      now apply stopped_wordTimer.
    + repeat split. apply fire_closed. cbn. apply lookup_delete_eq.
Qed.

Lemma stale_timer_closes_itself_witness :
  exists s',
    deliver world_A (Emit 0%nat) session_A_paused = Ok tt s'
    /\ subscriptions s' !! 0%nat = None
    /\ gameState s' = gameState session_A_paused.
Proof.
  destruct (stale_timer_closes_itself world_A session_A_paused 0%nat GameTimer)
    as (s' & Hrun & Hsubs & Hgs & _).
  - left. vm_compute; reflexivity.
  - vm_compute; reflexivity.
  - exists s'. split; [exact Hrun|]. split; [|exact Hgs].
    rewrite Hsubs. apply lookup_delete_eq.
Defined.

(* ===================================================================== *)
(** ** Typing a word key by key *)
(* ===================================================================== *)

Lemma prefixes_split (w : string) :
  w <> "" ->
  exists proper,
    prefixes w = (proper ++ [w])%list
    /\ Forall (fun p => (String.length p < String.length w)%nat) proper
    /\ List.length proper = (String.length w - 1)%nat.
Proof.
  induction w as [|c r IH]; [congruence|]. intros _.
  destruct r as [|c' r'].
  - exists []. repeat split. constructor.
  - destruct IH as (proper & Hp & Hshort & Hlen); [discriminate|].
    exists (String c EmptyString :: List.map (String c) proper).
    cbn [prefixes] in *. rewrite Hp. rewrite List.map_app. cbn [List.map app].
    repeat split.
    + constructor; [cbn; lia|].
      apply Forall_map. eapply Forall_impl; [exact Hshort|].
      intros p Hlt. cbn in *. lia.
    + cbn [List.length]. rewrite List.length_map, Hlen. cbn. lia.
Qed.

Section Typing.

Variable W : World.

Lemma type_inputs_word (w : string) (proper : list string) :
  Forall (fun p => (String.length p < String.length w)%nat) proper ->
  forall s,
    currentWord (gameState s) = w ->
    wordSourceReady s = true ->
    exists rs s',
      type_inputs W (proper ++ [w]) s = Ok rs s'
      /\ List.map isCorrect rs
         = (repeat false (List.length proper) ++ [true])%list
      /\ correct_effect
           (JS.seconds_between
              (Date_now W (clockReads s + List.length proper)) (wordStartTime s))
           (gameState s) (gameState s')
      /\ wordsTyped (gameState s') = (wordsTyped (gameState s) ++ [w])%list.
Proof.
  induction 1 as [|p proper Hp _ IH]; intros s Hw Hready.
  - destruct (processInput_correct W s w Hready (eq_sym Hw))
      as (s' & nw & s1 & Hrun & _ & Hgs & _).
    eexists; exists s'. cbn [app type_inputs]. unfold bind at 1. rewrite Hrun.
    split; [reflexivity|]. split; [reflexivity|].
    rewrite Hgs. cbn [List.length]. rewrite Nat.add_0_r.
    unfold correct_effect, timeTaken_in. cbn. rewrite Hw. repeat split.
  - assert (Hne : p <> currentWord (gameState s)).
    { intros ->. rewrite Hw in Hp. lia. }
    rewrite <- Hw in Hp.
    destruct (IH (input_stored p s)) as (rs & s' & Hrest & Hrs & Heff & Hty);
      [exact Hw | exact Hready |].
    eexists; exists s'. cbn [app type_inputs]. unfold bind at 1.
    rewrite (processInput_pending W s p Hne Hp).
    unfold bind at 1. rewrite Hrest.
    split; [reflexivity|]. cbn [List.map isCorrect List.length repeat app].
    rewrite Hrs. split; [reflexivity|].
    cbn [input_stored clockReads set_gameState set_reads wordStartTime] in Heff.
    rewrite <- Nat.add_succ_comm. split; [|exact Hty].
    unfold correct_effect in *. exact Heff.
Qed.

Lemma restartWordTimer_active (s : GameService) :
  active (gameState s) = true ->
  exists s',
    restartWordTimer s = Ok tt s'
    /\ wordTimerSubscription s' = Some (nextSubscription s)
    /\ subscriptions s' = word_timer_replaced s
    /\ timerSubscription s' = timerSubscription s
    /\ gameState s' = gameState s
    /\ wordStartTime s' = wordStartTime s.
Proof.
  unfold restartWordTimer, startWordTimer, active, word_timer_replaced;
    unfold_monad.
  intros Hact.
  destruct (wordTimerSubscription s) as [old|] eqn:E; cbn; rewrite Hact; cbn;
    eexists; repeat split.
Qed.

End Typing.

(** X10. Typing the current word key by key, without a slip: the input
    field holds each non-empty prefix in turn; no prefix but the last
    commits anything, and the last one commits the word as correct, with
    the time measured at that last key. *)
Theorem typing_key_by_key (W : World) (s : GameService) :
  wordSourceReady s = true ->
  currentWord (gameState s) <> "" ->
  let w := currentWord (gameState s) in
  let n := String.length w in
  exists rs s',
    type_inputs W (prefixes w) s = Ok rs s'
    /\ List.map isCorrect rs = (repeat false (n - 1) ++ [true])%list
    /\ correct_effect
         (JS.seconds_between (Date_now W (clockReads s + (n - 1)))
                             (wordStartTime s))
         (gameState s) (gameState s')
    /\ wordsTyped (gameState s') = (wordsTyped (gameState s) ++ [w])%list.
Proof.
  intros Hready Hne w n.
  destruct (prefixes_split w Hne) as (proper & Hp & Hshort & Hlen).
  rewrite Hp. fold n in Hlen. rewrite <- Hlen.
  now apply type_inputs_word.
Qed.

Lemma typing_key_by_key_witness :
  exists rs s',
    type_inputs world_A ["t"; "th"; "the"] session_A = Ok rs s'
    /\ List.map isCorrect rs = [false; false; true]
    /\ correctWords (gameState s') = 1
    /\ wordsTyped (gameState s') = ["the"].
Proof.
  destruct (typing_key_by_key world_A session_A)
    as (rs & s' & Hrun & Hrs & Heff & Hty);
    [vm_compute; reflexivity | vm_compute; discriminate |].
  exists rs, s'. split; [exact Hrun|]. split; [exact Hrs|].
  split; [|exact Hty]. apply Heff.
Defined.

(** X11. Every commit in a running game restarts the word timer: the timer
    behind the handle is closed, a fresh one is opened with the limit of
    the current difficulty, and the start of the next word is the clock
    reading taken in the commit. The session timer is not touched. *)
Theorem commit_restarts_word_timer (W : World) (s : GameService)
    (input : string) :
  active (gameState s) = true ->
  wordSourceReady s = true ->
  (String.length (currentWord (gameState s)) <= String.length input)%nat ->
  exists r s',
    processInput W input s = Ok r s'
    /\ wordTimerSubscription s' = Some (nextSubscription s)
    /\ subscriptions s' = word_timer_replaced s
    /\ timerSubscription s' = timerSubscription s
    /\ wordStartTime s' = Date_now W (S (clockReads s)).
Proof.
  intros Hact Hready Hlen.
  destruct (getNextWord_returns W (input_stored input s))
    as (w & s1 & Hget & Hf); [exact Hready|].
  destruct Hf as (Hg & Hc & Ht & Hw & _ & _ & _ & Hsub & Hnx & Hclk).
  rewrite processInput_decides. apply Nat.leb_le in Hlen. rewrite Hlen.
  destruct (String.eqb _ _).
  - unfold handleCorrectWord. unfold bind at 1 2 3, gets at 1 2.
    rewrite Hget. unfold_monad. cbn [gameState set_gameState].
    match goal with
    | |- context [restartWordTimer ?x] =>
        destruct (restartWordTimer_active x)
          as (s' & Hr & Hws & Hsubs & Hts & _ & Hwst);
          [unfold active in *; cbn; exact Hact | rewrite Hr]
    end.
    eexists; exists s'. split; [reflexivity|].
    rewrite Hws, Hsubs, Hts, Hwst. unfold word_timer_replaced. cbn.
    rewrite Hnx, Hc, Hw, Hsub, Ht, Hclk. repeat split.
  - unfold handleIncorrectWord. unfold bind at 1 2 3, gets at 1 2.
    rewrite Hget. unfold_monad. cbn [gameState set_gameState].
    match goal with
    | |- context [restartWordTimer ?x] =>
        destruct (restartWordTimer_active x)
          as (s' & Hr & Hws & Hsubs & Hts & _ & Hwst);
          [unfold active in *; cbn; exact Hact | rewrite Hr]
    end.
    eexists; exists s'. split; [reflexivity|].
    rewrite Hws, Hsubs, Hts, Hwst. unfold word_timer_replaced. cbn.
    rewrite Hnx, Hc, Hw, Hsub, Ht, Hclk. repeat split.
Qed.

Lemma commit_restarts_word_timer_witness :
  exists r s',
    processInput world_A "teh" session_A = Ok r s'
    /\ wordTimerSubscription s' = Some 2%nat
    /\ subscriptions s' !! 1%nat = None
    /\ subscriptions s' !! 2%nat = Some (WordTimer 4%float)
    /\ wordStartTime s' = 1000.
Proof.
  destruct (commit_restarts_word_timer world_A session_A "teh")
    as (r & s' & Hrun & Hws & Hsubs & _ & Hwst);
    [vm_compute; reflexivity | vm_compute; reflexivity | vm_compute; lia |].
  exists r, s'. split; [exact Hrun|].
  rewrite Hws, Hsubs, Hwst. repeat split; vm_compute; reflexivity.
Defined.

(* ===================================================================== *)
(** * The word service *)
(* ===================================================================== *)

Lemma filter_nil_Forall {A} (f : A -> bool) (l : list A) :
  List.filter f l = [] -> Forall (fun x => f x = false) l.
Proof.
  induction l as [|x l IH]; cbn; [constructor|].
  destruct (f x) eqn:E; [discriminate|]. intros H. constructor; auto.
Qed.

Lemma find_category_known (category : string) cat :
  WordService.find_category category = Some cat ->
  In category ["Basic"; "Common"; "Programming"; "Advanced"]
  /\ WordService.words cat <> [].
Proof.
  unfold WordService.find_category, WordService.categories.
  cbn [List.find WordService.cat_name].
  repeat match goal with
         | |- context [String.eqb ?a category] =>
             destruct (String.eqb_spec a category) as [<-|_];
               [intros [= <-]; split; [cbn; tauto|discriminate]|]
         end.
  discriminate.
Qed.

Lemma find_difficulty_known (difficulty : string) diff :
  WordService.find_difficulty difficulty = Some diff ->
  In difficulty ["Easy"; "Medium"; "Hard"; "Expert"].
Proof.
  unfold WordService.find_difficulty, WordService.difficultyLevels.
  cbn [List.find WordService.diff_name].
  repeat match goal with
         | |- context [String.eqb ?a difficulty] =>
             destruct (String.eqb_spec a difficulty) as [<-|_];
               [intros _; cbn; tauto|]
         end.
  discriminate.
Qed.

(** X12. The array [getRandomWord] draws from. For an unknown category it
    throws, and for a known category with an unknown difficulty it throws:
    the category is looked up first. Otherwise the array is never empty
    and holds words of the category only; either all of its words are
    within the length window of the difficulty, or no word of the category
    is and the array is the whole category. *)
Theorem word_candidates (category difficulty : string) :
  match WordService.find_category category,
        WordService.find_difficulty difficulty with
  | None, _ =>
      WordService.candidates category difficulty
      = inr ("Category '" ++ category ++ "' not found")
  | Some _, None =>
      WordService.candidates category difficulty
      = inr ("Difficulty '" ++ difficulty ++ "' not found")
  | Some cat, Some diff =>
      exists arr,
        WordService.candidates category difficulty = inl arr
        /\ arr <> []
        /\ (forall word, In word arr -> In word (WordService.words cat))
        /\ (Forall (fun word => fits diff word = true) arr
            \/ (arr = WordService.words cat
                /\ Forall (fun word => fits diff word = false)
                          (WordService.words cat)))
  end.
Proof.
  unfold WordService.candidates.
  destruct (WordService.find_category category) as [cat|] eqn:Ec; [|reflexivity].
  destruct (WordService.find_difficulty difficulty) as [diff|] eqn:Ed;
    [|reflexivity].
  fold (fits diff).
  destruct (List.filter (fits diff) (WordService.words cat)) as [|w ws] eqn:Ef.
  - exists (WordService.words cat). split; [reflexivity|].
    split; [apply (find_category_known category cat Ec)|].
    split; [auto|]. right. split; [reflexivity|].
    now apply filter_nil_Forall.
  - exists (w :: ws). split; [reflexivity|]. split; [discriminate|].
    rewrite <- Ef. split.
    + intros word Hin. now apply List.filter_In in Hin.
    + left. apply List.Forall_forall. intros word Hin.
      now apply List.filter_In in Hin.
Qed.

(** X13. The length window of a difficulty is not always respected. With
    the word lists of the service, the words served are all within the
    window except for six pairs: the basic words (all of three letters)
    with every difficulty but the easy one, the common words with the
    expert difficulty, and the advanced words with the easy and the medium
    difficulty; for these the whole category is served. *)
Theorem difficulty_window_fallbacks (category difficulty : string)
    (diff : WordService.DifficultyLevel) (arr : list string) :
  WordService.find_difficulty difficulty = Some diff ->
  WordService.candidates category difficulty = inl arr ->
  forallb (fits diff) arr = false <-> In (category, difficulty) fallback_pairs.
Proof.
  intros Hd Hc.
  assert (Hcat : In category ["Basic"; "Common"; "Programming"; "Advanced"]).
  { unfold WordService.candidates in Hc.
    destruct (WordService.find_category category) as [cat|] eqn:Ec;
      [|discriminate].
    apply (find_category_known category cat Ec). }
  pose proof (find_difficulty_known difficulty diff Hd) as Hdiff.
  cbn [In] in Hcat, Hdiff.
  destruct Hcat as [<-|[<-|[<-|[<-|[]]]]];
    destruct Hdiff as [<-|[<-|[<-|[<-|[]]]]];
    vm_compute in Hd; injection Hd as <-;
    vm_compute in Hc; injection Hc as <-;
    (split;
     [ intros H; vm_compute in H; first [discriminate | cbn; tauto]
     | intros H; first [vm_compute; reflexivity
                       | exfalso; cbn in H; intuition congruence] ]).
Qed.

Lemma difficulty_window_fallbacks_witness :
  exists diff arr,
    WordService.find_difficulty "Hard" = Some diff
    /\ WordService.candidates "Basic" "Hard" = inl arr
    /\ In "the" arr
    /\ forallb (fits diff) arr = false.
Proof.
  destruct (WordService.find_difficulty "Hard") as [diff|] eqn:Hd;
    [|vm_compute in Hd; discriminate].
  destruct (WordService.candidates "Basic" "Hard") as [arr|msg] eqn:Hc;
    [|vm_compute in Hc; discriminate].
  exists diff, arr. split; [reflexivity|]. split; [reflexivity|]. split.
  - vm_compute in Hc. injection Hc as <-. cbn. tauto.
  - apply (proj2 (difficulty_window_fallbacks "Basic" "Hard" diff arr Hd Hc)).
    cbn. tauto.
Defined.

(* ===================================================================== *)
(** * The error service *)
(* ===================================================================== *)

Lemma slice_last_snoc {A} (n : nat) (l : list A) (x : A) :
  (0 < n)%nat ->
  ErrorLog.slice_last n (l ++ [x]) = (ErrorLog.slice_last (n - 1) l ++ [x])%list.
Proof.
  intros Hn. unfold ErrorLog.slice_last.
  rewrite List.length_app. cbn [List.length].
  replace (List.length l + 1 - n)%nat with (List.length l - (n - 1))%nat by lia.
  rewrite List.skipn_app.
  replace (List.length l - (n - 1) - List.length l)%nat with 0%nat by lia.
  reflexivity.
Qed.

(** The two logs after a call of [recordError] that returns. *)
Lemma recordError_returns (W : World) (e a : ascii) (w : string) (p : Z)
    (t : float) (s : ErrorLog.Service) :
  exists s' err kept,
    ErrorLog.recordError W (Some e) a w p t s = ErrorLog.Returned s'
    /\ ErrorLog.errors s' = (kept ++ [err])%list
    /\ kept `suffix_of` ErrorLog.errors s
    /\ ((List.length (ErrorLog.errors s) < 1000)%nat -> kept = ErrorLog.errors s)
    /\ ((1000 <= List.length (ErrorLog.errors s))%nat -> List.length kept = 799%nat)
    /\ ErrorLog.sessionErrors s' = (ErrorLog.sessionErrors s ++ [err])%list
    /\ ErrorLog.expectedChar err = JS.toLowerCase_char e
    /\ ErrorLog.actualChar err = JS.toLowerCase_char a
    /\ ErrorLog.word err = w /\ ErrorLog.position err = p
    /\ ErrorLog.pattern err = ErrorFeedback.classifyError e a t
    /\ ErrorLog.fingerUsed err = ErrorLog.getFingerForKey a.
Proof.
  unfold ErrorLog.recordError. cbv zeta.
  match goal with
  | |- context [(ErrorLog.errors s ++ [?x])%list] => set (err := x)
  end.
  rewrite List.length_app. cbn [List.length].
  destruct (Nat.ltb_spec 1000 (List.length (ErrorLog.errors s) + 1)) as [Hcap|Hfree].
  - eexists; exists err, (ErrorLog.slice_last 799 (ErrorLog.errors s)).
    split; [reflexivity|]. cbn [ErrorLog.errors ErrorLog.sessionErrors].
    split; [apply (slice_last_snoc 800); lia|].
    split; [apply suffix_drop|].
    split; [lia|].
    split; [|repeat split].
    intros _. unfold ErrorLog.slice_last. rewrite List.length_skipn. lia.
  - eexists; exists err, (ErrorLog.errors s).
    split; [reflexivity|]. cbn [ErrorLog.errors ErrorLog.sessionErrors].
    split; [reflexivity|]. split; [reflexivity|].
    split; [reflexivity|]. split; [lia|]. repeat split.
Qed.

Lemma log_perform_consistent (W : World) (c : LogCall) (s : ErrorLog.Service) :
  logs_consistent s -> logs_consistent (log_perform W c s).
Proof.
  intros (Hlen & Hsuf & Hne). destruct c as [[e|] a w p t| |]; cbn [log_perform].
  - destruct (recordError_returns W e a w p t s)
      as (s' & err & kept & -> & He & Hk & Hfree & Hcap & Hs & _).
    cbn [ErrorLog.state_of]. unfold logs_consistent. rewrite He, Hs.
    split; [|split].
    + rewrite List.length_app. cbn [List.length].
      destruct (Nat.lt_ge_cases (List.length (ErrorLog.errors s)) 1000) as [H|H].
      * rewrite (Hfree H). lia.
      * rewrite (Hcap H). lia.
    + destruct Hsuf as [Hsuf|Hsuf].
      * left. apply suffix_snoc. now transitivity (ErrorLog.errors s).
      * assert (H1 : (kept ++ [err])%list `suffix_of` (ErrorLog.errors s ++ [err])%list)
          by now apply suffix_snoc.
        assert (H2 : (ErrorLog.sessionErrors s ++ [err])%list
                     `suffix_of` (ErrorLog.errors s ++ [err])%list)
          by now apply suffix_snoc.
        apply (suffix_weak_total _ _ _ H1 H2).
    + intros _. now destruct kept.
  - exact (conj Hlen (conj Hsuf Hne)).
  - unfold logs_consistent. cbn. split; [exact Hlen|].
    split; [right; apply suffix_nil|congruence].
  - unfold logs_consistent. cbn. split; [lia|]. split; [now left|congruence].
Qed.

(** X14. The persistent log of errors never holds more than 1000 entries:
    the call that would make it 1001 keeps the newest 800. After any calls
    of the service the shorter of the two logs is the end of the longer
    one, and the persistent log is empty only if the session log is. *)
Theorem error_log_bounded (W : World) (cs : list LogCall) :
  let s := log_perform_all W cs ErrorLog.initial in
  (List.length (ErrorLog.errors s) <= 1000)%nat
  /\ (ErrorLog.errors s `suffix_of` ErrorLog.sessionErrors s
      \/ ErrorLog.sessionErrors s `suffix_of` ErrorLog.errors s)
  /\ (ErrorLog.sessionErrors s <> [] -> ErrorLog.errors s <> []).
Proof.
  cbv zeta.
  assert (H : forall s, logs_consistent s ->
                        logs_consistent (log_perform_all W cs s)).
  { induction cs as [|c cs IH]; intros s Hs; [exact Hs|].
    cbn [log_perform_all]. apply IH. now apply log_perform_consistent. }
  apply (H ErrorLog.initial). unfold logs_consistent. cbn.
  split; [lia|]. split; [now left|congruence].
Qed.

Lemma get_beyond (n : nat) (s : string) :
  (String.length s <= n)%nat -> String.get n s = None.
Proof.
  revert n. induction s as [|c r IH]; intros n Hn; [reflexivity|].
  destruct n as [|n]; cbn in *; [lia|]. apply IH. lia.
Qed.

(** X15. A key pressed beyond the end of the current word: the component
    reads the expected character at an index the word does not have, and
    [recordError] throws a [TypeError] on it, whatever the key. Nothing is
    recorded. *)
Theorem key_beyond_word_throws (W : World) (currentWord input : string)
    (actualChar : ascii) (position : Z) (timeTaken : float)
    (s : ErrorLog.Service) :
  (String.length currentWord < String.length input)%nat ->
  ErrorLog.expectedChar_at currentWord input = None
  /\ exists s',
       ErrorLog.recordError W (ErrorLog.expectedChar_at currentWord input)
         actualChar currentWord position timeTaken s
       = ErrorLog.TypeError s'
       /\ ErrorLog.errors s' = ErrorLog.errors s
       /\ ErrorLog.sessionErrors s' = ErrorLog.sessionErrors s.
Proof.
  intros Hlen.
  assert (H : ErrorLog.expectedChar_at currentWord input = None).
  { unfold ErrorLog.expectedChar_at.
    destruct (String.length input =? 0)%nat; [reflexivity|].
    apply get_beyond. lia. }
  split; [exact H|]. rewrite H. unfold ErrorLog.recordError.
  eexists. split; [reflexivity|]. split; reflexivity.
Qed.

Lemma key_beyond_word_throws_witness :
  ErrorLog.expectedChar_at "the" "thex" = None
  /\ exists s',
       ErrorLog.recordError world_A (ErrorLog.expectedChar_at "the" "thex")
         "x" "the" 3 0.5 ErrorLog.initial
       = ErrorLog.TypeError s'
       /\ ErrorLog.errors s' = [] /\ ErrorLog.sessionErrors s' = [].
Proof.
  apply (key_beyond_word_throws world_A "the" "thex" "x" 3 0.5 ErrorLog.initial).
  cbn. lia.
Defined.

Lemma abs_sum_one (a b : Z) : Z.abs a + Z.abs b = 1 -> a ^ 2 + b ^ 2 = 1.
Proof. intros H. assert (Z.abs a = 0 \/ Z.abs a = 1) by lia. nia. Qed.

(** X16. The classifier always finds a pattern, and never the pattern of
    a layout confusion. It gives the same pattern when the expected and
    the typed key change places. When it finds a finger slip, both keys
    are on the layout and the key distance recorded with the error is 1. *)
Theorem classifier_total_and_symmetric (expected actual : ascii) (t : float) :
  exists p,
    ErrorFeedback.classifyError expected actual t = Some p
    /\ ErrorFeedback.type p <> ErrorFeedback.keyboard_layout
    /\ ErrorFeedback.classifyError actual expected t = Some p
    /\ (ErrorFeedback.type p = ErrorFeedback.finger_slip ->
        ErrorLog.calculateKeyDistance expected actual = 1%float
        /\ ErrorLog.getFingerForKey actual <> "unknown").
Proof.
  unfold ErrorFeedback.classifyError, ErrorLog.calculateKeyDistance,
    ErrorLog.getFingerForKey.
  destruct (ErrorFeedback.lookup_key (JS.toLowerCase_char expected)) as [k1|] eqn:E1;
    destruct (ErrorFeedback.lookup_key (JS.toLowerCase_char actual)) as [k2|] eqn:E2;
    try (eexists; split; [reflexivity|]; split; [discriminate|];
         split; [reflexivity|]; intros H; discriminate H).
  cbv zeta.
  replace (Z.abs (ErrorFeedback.row k2 - ErrorFeedback.row k1))
    with (Z.abs (ErrorFeedback.row k1 - ErrorFeedback.row k2)) by lia.
  replace (Z.abs (ErrorFeedback.col k2 - ErrorFeedback.col k1))
    with (Z.abs (ErrorFeedback.col k1 - ErrorFeedback.col k2)) by lia.
  rewrite (String.eqb_sym (ErrorFeedback.finger k2)).
  destruct (Z.eqb_spec (Z.abs (ErrorFeedback.row k1 - ErrorFeedback.row k2)
                        + Z.abs (ErrorFeedback.col k1 - ErrorFeedback.col k2)) 1)
    as [Hd|Hd].
  - eexists. split; [reflexivity|]. split; [discriminate|].
    split; [reflexivity|]. intros _. split.
    + rewrite (abs_sum_one _ _ Hd). vm_compute. reflexivity.
    + unfold ErrorFeedback.lookup_key in E2.
      destruct (List.find _ ErrorFeedback.keyboardLayout) as [[c k]|] eqn:Ef;
        [|discriminate].
      injection E2 as <-. apply List.find_some in Ef as [Hin _].
      cbn in Hin.
      repeat (destruct Hin as [[= <- <-]|Hin]; [discriminate|]).
      destruct Hin.
  - destruct (_ && _);
      [eexists; split; [reflexivity|]; split; [discriminate|];
       split; [reflexivity|]; intros H; discriminate H|].
    destruct (t <? 0.1)%float;
      [eexists; split; [reflexivity|]; split; [discriminate|];
       split; [reflexivity|]; intros H; discriminate H|].
    destruct (3 <? _);
      eexists; (split; [reflexivity|]); (split; [discriminate|]);
      (split; [reflexivity|]); intros H; discriminate H.
Qed.

(** What [n] recorded errors leave in the two logs. *)
Lemma records_logs (W : World) (cs : list LogCall) :
  Forall records cs ->
  forall s,
    ErrorLog.errors s `suffix_of` ErrorLog.sessionErrors s ->
    (List.length (ErrorLog.sessionErrors s) <= 1000 ->
     ErrorLog.errors s = ErrorLog.sessionErrors s)%nat ->
    (1000 < List.length (ErrorLog.sessionErrors s) ->
     800 <= List.length (ErrorLog.errors s) <= 1000)%nat ->
    let s' := log_perform_all W cs s in
    List.length (ErrorLog.sessionErrors s')
    = (List.length (ErrorLog.sessionErrors s) + List.length cs)%nat
    /\ ErrorLog.errors s' `suffix_of` ErrorLog.sessionErrors s'
    /\ (List.length (ErrorLog.sessionErrors s') <= 1000 ->
        ErrorLog.errors s' = ErrorLog.sessionErrors s')%nat
    /\ (1000 < List.length (ErrorLog.sessionErrors s') ->
        800 <= List.length (ErrorLog.errors s') <= 1000)%nat.
Proof.
  induction 1 as [|c cs Hc _ IH]; intros s Hsuf Hsmall Hlarge.
  - cbn. rewrite Nat.add_0_r. auto.
  - destruct c as [[e|] a w p t| |]; cbn in Hc; try contradiction.
    cbn [log_perform_all log_perform].
    destruct (recordError_returns W e a w p t s)
      as (s1 & err & kept & -> & He & Hk & Hfree & Hcap & Hs & _).
    cbn [ErrorLog.state_of].
    assert (Hlen1 : List.length (ErrorLog.sessionErrors s1)
                    = S (List.length (ErrorLog.sessionErrors s))).
    { rewrite Hs, List.length_app. cbn. lia. }
    assert (Hlene : List.length (ErrorLog.errors s1) = S (List.length kept)).
    { rewrite He, List.length_app. cbn. lia. }
    destruct (IH s1) as (H1 & H2 & H3 & H4).
    + rewrite He, Hs. apply suffix_snoc. now transitivity (ErrorLog.errors s).
    + intros Hle. rewrite He, Hs. f_equal.
      rewrite <- Hsmall by lia. apply Hfree. rewrite Hsmall by lia. lia.
    + intros Hgt. rewrite Hlene.
      destruct (Nat.lt_ge_cases (List.length (ErrorLog.errors s)) 1000) as [H|H].
      * rewrite (Hfree H).
        destruct (Nat.le_gt_cases (List.length (ErrorLog.sessionErrors s)) 1000)
          as [Hs1000|Hs1000].
        -- rewrite Hsmall in H by exact Hs1000. lia.
        -- specialize (Hlarge Hs1000). lia.
      * rewrite (Hcap H). lia.
    + cbv zeta in *. rewrite H1, Hlen1 in H3, H4. rewrite H1, Hlen1.
      cbn [List.length].
      split; [lia|]. split; [exact H2|]. split; [exact H3|exact H4].
Qed.

(** X17. The session log has no limit. After [n] errors recorded into a
    fresh service the session log holds all [n] of them, and the
    persistent log is the end of it: all of it up to 1000 errors, and
    between 800 and 1000 entries from then on. *)
Theorem session_log_unbounded (W : World) (cs : list LogCall) :
  Forall records cs ->
  let s := log_perform_all W cs ErrorLog.initial in
  List.length (ErrorLog.sessionErrors s) = List.length cs
  /\ ErrorLog.errors s `suffix_of` ErrorLog.sessionErrors s
  /\ (List.length cs <= 1000 ->
      ErrorLog.errors s = ErrorLog.sessionErrors s)%nat
  /\ (1000 < List.length cs ->
      800 <= List.length (ErrorLog.errors s) <= 1000)%nat.
Proof.
  intros Hcs.
  destruct (records_logs W cs Hcs ErrorLog.initial) as (H1 & H2 & H3 & H4);
    cbn; try reflexivity; try lia.
  cbn in H1. cbv zeta. rewrite H1 in H3, H4. auto.
Qed.

Lemma session_log_unbounded_witness :
  List.length (ErrorLog.sessionErrors
                 (log_perform_all world_A log_calls_B ErrorLog.initial)) = 2%nat
  /\ ErrorLog.errors (log_perform_all world_A log_calls_B ErrorLog.initial)
     = ErrorLog.sessionErrors
         (log_perform_all world_A log_calls_B ErrorLog.initial).
Proof.
  destruct (session_log_unbounded world_A log_calls_B) as (H1 & _ & H3 & _).
  - repeat constructor.
  - split; [exact H1|]. apply H3. cbn. lia.
Defined.

Lemma filter_snoc_last {A} (f : A -> bool) (l : list A) (x : A) :
  f x = true -> last (List.filter f (l ++ [x])) = Some x.
Proof.
  intros Hx. rewrite List.filter_app. cbn [List.filter]. rewrite Hx.
  apply last_snoc.
Qed.

(** X18. An error is recorded under the lower-case form of the expected
    character and is found again by [getErrorsForKey] under either case of
    it: after [recordError] returns, the newest entry of both logs is the
    new error, with both characters in lower case, the word and the
    position as given and the pattern of the classifier, and it is the
    last of the errors found for the key. *)
Theorem recorded_error_is_found (W : World) (expected actual : ascii)
    (w : string) (p : Z) (t : float) (s : ErrorLog.Service) (query : ascii) :
  JS.toLowerCase_char query = JS.toLowerCase_char expected ->
  exists s' err,
    ErrorLog.recordError W (Some expected) actual w p t s = ErrorLog.Returned s'
    /\ last (ErrorLog.getErrorsForKey (String query EmptyString) s')
       = Some err
    /\ last (ErrorLog.errors s') = Some err
    /\ last (ErrorLog.sessionErrors s') = Some err
    /\ ErrorLog.expectedChar err = JS.toLowerCase_char expected
    /\ ErrorLog.actualChar err = JS.toLowerCase_char actual
    /\ ErrorLog.word err = w /\ ErrorLog.position err = p
    /\ ErrorLog.pattern err = ErrorFeedback.classifyError expected actual t.
Proof.
  intros Hq.
  destruct (recordError_returns W expected actual w p t s)
    as (s' & err & kept & Hrun & He & _ & _ & _ & Hs & Hexp & Hact & Hw & Hp & Hpat & _).
  exists s', err. split; [exact Hrun|].
  split; [|split; [|split]].
  - unfold ErrorLog.getErrorsForKey. rewrite He. apply filter_snoc_last.
    cbn [JS.toLowerCase]. rewrite Hexp, Hq. apply String.eqb_refl.
  - rewrite He. apply last_snoc.
  - rewrite Hs. apply last_snoc.
  - repeat split; assumption.
Qed.

Lemma recorded_error_is_found_witness :
  exists s' err,
    ErrorLog.recordError world_A (Some "t"%char) "R"%char "the" 0 0.5
      ErrorLog.initial = ErrorLog.Returned s'
    /\ last (ErrorLog.getErrorsForKey "T" s') = Some err
    /\ ErrorLog.actualChar err = "r"%char.
Proof.
  destruct (recorded_error_is_found world_A "t" "R" "the" 0 0.5
              ErrorLog.initial "T")
    as (s' & err & Hrun & Hfound & _ & _ & _ & Hact & _);
    [vm_compute; reflexivity|].
  exists s', err. repeat split; assumption.
Defined.

(* --------------------------------------------------------------------- *)
(** ** The analysis of the errors *)

Lemma insert_desc_descending {A} (c : A -> Z) (x : A) (l : list A) :
  descending c l -> descending c (ErrorLog.insert_desc c x l).
Proof.
  induction l as [|y rest IH]; intros H; [cbn; auto|].
  cbn [ErrorLog.insert_desc].
  destruct (Z.ltb_spec (c x) (c y)) as [Hlt|Hge].
  - destruct H as [Hhd Hrest]. split; [|now apply IH].
    destruct rest as [|z r]; cbn [ErrorLog.insert_desc]; [lia|].
    destruct (c x <? c z); [exact Hhd|lia].
  - split; [exact Hge|exact H].
Qed.

Lemma sort_desc_descending {A} (c : A -> Z) (l : list A) :
  descending c (ErrorLog.sort_desc c l).
Proof.
  induction l as [|x l IH]; [exact I|]. now apply insert_desc_descending.
Qed.

Lemma insert_desc_Forall {A} (P : A -> Prop) (c : A -> Z) (x : A) (l : list A) :
  P x -> Forall P l -> Forall P (ErrorLog.insert_desc c x l).
Proof.
  intros Hx. induction 1 as [|y rest Hy Hrest IH]; cbn [ErrorLog.insert_desc].
  - now constructor.
  - destruct (c x <? c y); repeat constructor; assumption.
Qed.

Lemma sort_desc_Forall {A} (P : A -> Prop) (c : A -> Z) (l : list A) :
  Forall P l -> Forall P (ErrorLog.sort_desc c l).
Proof.
  induction 1 as [|x l Hx Hl IH]; [constructor|].
  now apply insert_desc_Forall.
Qed.

Lemma insert_desc_sum (x : ErrorLog.PatternCount) (l : list ErrorLog.PatternCount) :
  sum_counts (ErrorLog.insert_desc ErrorLog.count x l)
  = ErrorLog.count x + sum_counts l.
Proof.
  induction l as [|y rest IH]; [reflexivity|]. cbn [ErrorLog.insert_desc].
  destruct (_ <? _); [|reflexivity].
  change (sum_counts (y :: ErrorLog.insert_desc ErrorLog.count x rest))
    with (ErrorLog.count y + sum_counts (ErrorLog.insert_desc ErrorLog.count x rest)).
  rewrite IH. change (sum_counts (y :: rest)) with (ErrorLog.count y + sum_counts rest).
  lia.
Qed.

Lemma sort_desc_sum (l : list ErrorLog.PatternCount) :
  sum_counts (ErrorLog.sort_desc ErrorLog.count l) = sum_counts l.
Proof.
  induction l as [|x l IH]; [reflexivity|].
  change (ErrorLog.sort_desc ErrorLog.count (x :: l))
    with (ErrorLog.insert_desc ErrorLog.count x (ErrorLog.sort_desc ErrorLog.count l)).
  rewrite insert_desc_sum, IH. reflexivity.
Qed.

Lemma Map_get_In {K V} (eqb : K -> K -> bool) (k : K) (m : list (K * V)) (v : V) :
  ErrorLog.Map_get eqb k m = Some v -> exists k', In (k', v) m.
Proof.
  unfold ErrorLog.Map_get.
  destruct (List.find _ m) as [[k' v']|] eqn:E; [|discriminate].
  intros [= <-]. exists k'. now apply List.find_some in E.
Qed.

Lemma Map_set_Forall {K V} (P : V -> Prop) (eqb : K -> K -> bool) (k : K) (v : V)
    (m : list (K * V)) :
  P v -> Forall (fun kv => P (snd kv)) m ->
  Forall (fun kv => P (snd kv)) (ErrorLog.Map_set eqb k v m).
Proof.
  intros Hv. induction 1 as [|[k' v'] rest Hx Hrest IH]; cbn [ErrorLog.Map_set].
  - repeat constructor. exact Hv.
  - destruct (eqb k' k); constructor; assumption.
Qed.

Lemma Map_set_sum {K} (eqb : K -> K -> bool) (k : K) (v : Z) (m : list (K * Z)) :
  list_sum_Z (List.map snd (ErrorLog.Map_set eqb k v m))
  = list_sum_Z (List.map snd m) + v - default 0 (ErrorLog.Map_get eqb k m).
Proof.
  induction m as [|[k' v'] rest IH].
  - cbn. lia.
  - cbn [ErrorLog.Map_set]. unfold ErrorLog.Map_get in *. cbn [List.find fst].
    destruct (eqb k' k); cbn [List.map snd list_sum_Z option_map default] in *;
      unfold id in *.
    + lia.
    + rewrite IH. lia.
Qed.

Lemma find_pattern_found (t : ErrorFeedback.PatternType) :
  exists p, ErrorFeedback.find_pattern t = Some p
            /\ ErrorFeedback.type p = t
            /\ ErrorFeedback.suggestion p <> slow_down.
Proof.
  destruct t; eexists; (split; [reflexivity|]); (split; [reflexivity|]);
    discriminate.
Qed.

Lemma classifyError_some (expected actual : ascii) (t : float) :
  ErrorFeedback.classifyError expected actual t <> None.
Proof.
  rewrite classifyError_rules.
  destruct (find_pattern_found
              (ErrorFeedback.classify_rules (JS.toLowerCase_char expected)
                                            (JS.toLowerCase_char actual) t))
    as (p & -> & _). discriminate.
Qed.

Lemma common_patterns_found (errors : list ErrorLog.TypingError) :
  Forall pattern_found (common_patterns_of errors).
Proof.
  unfold common_patterns_of. apply sort_desc_Forall.
  apply List.Forall_map. apply List.Forall_forall. intros [t c] _.
  destruct (find_pattern_found t) as (p & Hp & _ & Hs).
  exists p. split; assumption.
Qed.

Lemma fold_left_counts (l : list ErrorLog.PatternCount) (a : Z) :
  List.fold_left (fun sum p => sum + ErrorLog.count p) l a = a + sum_counts l.
Proof.
  revert a. induction l as [|x l IH]; intros a; cbn [List.fold_left].
  - cbn. lia.
  - rewrite IH. change (sum_counts (x :: l)) with (ErrorLog.count x + sum_counts l).
    lia.
Qed.

Lemma generateRecommendations_some (patterns : list ErrorLog.PatternCount)
    (keys : list ErrorLog.ProblematicKey) :
  Forall pattern_found patterns ->
  exists recommendations,
    ErrorLog.generateRecommendations patterns keys = Some recommendations
    /\ (In slow_down recommendations <-> 50 < sum_counts patterns).
Proof.
  intros Hfound. unfold ErrorLog.generateRecommendations.
  rewrite fold_left_counts, Z.add_0_l.
  assert (Hfirst : exists r1,
            match patterns with
            | [] => Some []
            | topPattern :: _ =>
                match ErrorLog.pc_pattern topPattern with
                | Some p => Some [ErrorFeedback.suggestion p]
                | None => None
                end
            end = Some r1 /\ ~ In slow_down r1).
  { destruct Hfound as [|x l (pat & -> & Hs) _].
    - exists []. split; [reflexivity|]. intros [].
    - eexists. split; [reflexivity|]. intros [H|[]]. now apply Hs. }
  destruct Hfirst as (r1 & -> & Hr1).
  eexists. split; [reflexivity|].
  rewrite !List.in_app_iff. split.
  - intros [H|[H|H]].
    + contradiction.
    + destruct keys; [destruct H|]. destruct H as [H|[]]. discriminate H.
    + destruct (Z.ltb_spec 50 (sum_counts patterns)); [assumption|destruct H].
  - intros H. right. right. apply Z.ltb_lt in H. rewrite H. now left.
Qed.

Lemma improvement_focus_some (patterns : list ErrorLog.PatternCount) :
  Forall pattern_found patterns ->
  exists focus, ErrorLog.improvement_focus patterns = Some focus.
Proof.
  induction 1 as [|x l (pat & Hpat & _) _ (focus & IH)];
    cbn [ErrorLog.improvement_focus].
  - now eexists.
  - rewrite Hpat, IH. destruct (5 <=? _); now eexists.
Qed.

Lemma key_counts_counted (errors : list ErrorLog.TypingError) :
  forall maps,
    Forall (fun kv => key_counted (snd kv)) (snd maps) ->
    Forall (fun kv => key_counted (snd kv))
           (snd (List.fold_left ErrorLog.count_error errors maps)).
Proof.
  induction errors as [|e errors IH]; intros maps H; [exact H|].
  cbn [List.fold_left]. apply IH. unfold ErrorLog.count_error. cbn [snd].
  apply Map_set_Forall; [|exact H].
  destruct (ErrorLog.Map_get Ascii.eqb (ErrorLog.expectedChar e) (snd maps))
    as [d|] eqn:E.
  - apply Map_get_In in E as (k' & Hin).
    rewrite List.Forall_forall in H. specialize (H _ Hin) as [H0 H1].
    cbn in *. unfold id in *. split; [exact H0|cbn; lia].
  - split; cbn; lia.
Qed.

Lemma pattern_counts_sum (errors : list ErrorLog.TypingError) :
  Forall (fun e => ErrorLog.pattern e <> None) errors ->
  forall maps,
    list_sum_Z (List.map snd (fst (List.fold_left ErrorLog.count_error errors maps)))
    = list_sum_Z (List.map snd (fst maps)) + Z.of_nat (List.length errors).
Proof.
  induction 1 as [|e errors He _ IH]; intros maps.
  - cbn. lia.
  - cbn [List.fold_left]. rewrite IH. unfold ErrorLog.count_error.
    cbn [fst]. destruct (ErrorLog.pattern e) as [p|]; [|congruence].
    rewrite Map_set_sum. cbn [List.length]. lia.
Qed.

Lemma sum_counts_entries (m : list (ErrorFeedback.PatternType * Z)) :
  sum_counts
    (List.map (fun entry =>
                 {| ErrorLog.pc_pattern := ErrorFeedback.find_pattern (fst entry);
                    ErrorLog.count := snd entry |}) m)
  = list_sum_Z (List.map snd m).
Proof.
  induction m as [|x m IH]; [reflexivity|].
  cbn [List.map list_sum_Z].
  match goal with
  | |- sum_counts (?h :: ?t) = _ =>
      change (sum_counts (h :: t)) with (ErrorLog.count h + sum_counts t)
  end.
  rewrite IH. reflexivity.
Qed.

(** [analyzeErrors] on a log that is not empty. *)
Lemma analyzeErrors_returns (s : ErrorLog.Service) :
  ErrorLog.errors s <> [] ->
  exists recommendations focus,
    ErrorLog.generateRecommendations (common_patterns_of (ErrorLog.errors s))
                                     (problematic_keys_of (ErrorLog.errors s))
    = Some recommendations
    /\ (In slow_down recommendations
        <-> 50 < sum_counts (common_patterns_of (ErrorLog.errors s)))
    /\ ErrorLog.analyzeErrors s
       = Some {| ErrorLog.totalErrors := Z.of_nat (List.length (ErrorLog.errors s));
                 ErrorLog.errorRate :=
                   (let n := Z.of_nat (List.length (ErrorLog.sessionErrors s)) in
                    if 0 <? n then (inject_Z n / inject_Z n) * 100 else 0)%Q;
                 ErrorLog.commonPatterns := common_patterns_of (ErrorLog.errors s);
                 ErrorLog.problematicKeys := problematic_keys_of (ErrorLog.errors s);
                 ErrorLog.recommendations := recommendations;
                 ErrorLog.improvementFocus := focus |}.
Proof.
  intros Hne.
  pose proof (common_patterns_found (ErrorLog.errors s)) as Hfound.
  destruct (generateRecommendations_some _ (problematic_keys_of (ErrorLog.errors s))
              Hfound) as (recs & Hrecs & Hslow).
  destruct (improvement_focus_some _ Hfound) as (focus & Hfocus).
  exists recs, (ErrorLog.dedupe [] focus). split; [exact Hrecs|].
  split; [exact Hslow|].
  unfold ErrorLog.analyzeErrors.
  destruct (ErrorLog.errors s) as [|e l] eqn:E; [congruence|].
  fold (common_patterns_of (e :: l)). fold (problematic_keys_of (e :: l)).
  cbv zeta. fold (common_patterns_of (e :: l)).
  fold (problematic_keys_of (e :: l)).
  rewrite Hrecs. unfold ErrorLog.generateImprovementFocus. rewrite Hfocus.
  reflexivity.
Qed.

(** X19. The analysis never fails, and the figures it shows are not
    rates. The error rate is 100 whenever there is an error in both logs
    and 0 otherwise: it divides the number of session errors by itself.
    A key is listed as problematic from three errors on, and its accuracy
    is always 0: the total of the key, by which its errors are divided, is
    never counted. Both lists are in descending order of their counts. *)
Theorem analysis_shows_no_rates (s : ErrorLog.Service) :
  exists a,
    ErrorLog.analyzeErrors s = Some a
    /\ ErrorLog.totalErrors a = Z.of_nat (List.length (ErrorLog.errors s))
    /\ (ErrorLog.errorRate a == reported_rate s)%Q
    /\ Forall (fun k => 3 <= ErrorLog.errorCount k
                        /\ (ErrorLog.accuracy k == 0)%Q)
              (ErrorLog.problematicKeys a)
    /\ descending ErrorLog.errorCount (ErrorLog.problematicKeys a)
    /\ descending ErrorLog.count (ErrorLog.commonPatterns a).
Proof.
  destruct (ErrorLog.errors s) as [|e l] eqn:E.
  - eexists. unfold ErrorLog.analyzeErrors, reported_rate. rewrite E.
    split; [reflexivity|]. cbn. repeat split; try reflexivity. constructor.
  - destruct (analyzeErrors_returns s) as (recs & focus & _ & _ & Hrun);
      [congruence|].
    eexists. split; [exact Hrun|]. cbn [ErrorLog.totalErrors ErrorLog.errorRate
      ErrorLog.problematicKeys ErrorLog.commonPatterns].
    split; [now rewrite E|]. split; [|split; [|split]].
    + unfold reported_rate. rewrite E.
      destruct (ErrorLog.sessionErrors s) as [|e' l']; [reflexivity|].
      cbv zeta. cbn [List.length].
      replace (0 <? Z.of_nat (S (List.length l'))) with true
        by (symmetry; apply Z.ltb_lt; lia).
      unfold Qdiv. rewrite Qmult_inv_r; [reflexivity|].
      unfold Qeq. cbn. lia.
    + unfold problematic_keys_of. apply sort_desc_Forall.
      apply List.Forall_forall. intros k Hk.
      apply List.filter_In in Hk as [Hin Hthree].
      apply List.in_map_iff in Hin as ([c d] & <- & Hin).
      cbn [ErrorLog.errorCount ErrorLog.accuracy snd fst] in *.
      apply Z.leb_le in Hthree. split; [exact Hthree|].
      pose proof (key_counts_counted (ErrorLog.errors s) ([], [])
                    (List.Forall_nil _)) as Hcounted.
      rewrite List.Forall_forall in Hcounted.
      destruct (Hcounted _ Hin) as [Htotal _]. cbn [snd] in Htotal.
      rewrite Htotal. change (Z.max 0 1) with 1. apply Q.max_l.
      unfold Qle, Qminus, Qplus, Qopp, Qmult, Qdiv, Qinv, inject_Z. cbn. lia.
    + apply sort_desc_descending.
    + apply sort_desc_descending.
Qed.

Lemma log_patterns (W : World) (cs : list LogCall) :
  forall s,
    Forall (fun e => ErrorLog.pattern e <> None) (ErrorLog.errors s) ->
    Forall (fun e => ErrorLog.pattern e <> None)
           (ErrorLog.errors (log_perform_all W cs s)).
Proof.
  induction cs as [|c cs IH]; intros s Hs; [exact Hs|].
  cbn [log_perform_all]. apply IH.
  destruct c as [[e|] a w p t| |]; cbn [log_perform].
  - destruct (recordError_returns W e a w p t s)
      as (s' & err & kept & -> & He & [k Hk] & _ & _ & _ & _ & _ & _ & _ & Hpat & _).
    cbn [ErrorLog.state_of]. rewrite He. rewrite Hk in Hs.
    apply List.Forall_app in Hs as [_ Hkept].
    apply List.Forall_app. split; [exact Hkept|].
    constructor; [|constructor]. rewrite Hpat. apply classifyError_some.
  - exact Hs.
  - exact Hs.
  - constructor.
Qed.

(** X20. After any calls of the service, the counts of the common
    patterns add up to the number of errors in the persistent log, and the
    analysis recommends slowing down exactly when that log holds more than
    50 errors, whatever the session. *)
Theorem pattern_counts_add_up (W : World) (cs : list LogCall) :
  let s := log_perform_all W cs ErrorLog.initial in
  exists a,
    ErrorLog.analyzeErrors s = Some a
    /\ sum_counts (ErrorLog.commonPatterns a)
       = Z.of_nat (List.length (ErrorLog.errors s))
    /\ (In slow_down (ErrorLog.recommendations a)
        <-> (50 < List.length (ErrorLog.errors s))%nat).
Proof.
  cbv zeta. set (s := log_perform_all W cs ErrorLog.initial).
  assert (Hpat : Forall (fun e => ErrorLog.pattern e <> None) (ErrorLog.errors s))
    by (apply log_patterns; constructor).
  destruct (ErrorLog.errors s) as [|e l] eqn:E.
  - eexists. unfold ErrorLog.analyzeErrors. rewrite E.
    split; [reflexivity|]. cbn. split; [reflexivity|]. split; [tauto|lia].
  - destruct (analyzeErrors_returns s) as (recs & focus & _ & Hslow & Hrun);
      [congruence|].
    assert (Hsum : sum_counts (common_patterns_of (ErrorLog.errors s))
                   = Z.of_nat (List.length (ErrorLog.errors s))).
    { unfold common_patterns_of. rewrite sort_desc_sum, sum_counts_entries.
      rewrite pattern_counts_sum by (rewrite E; exact Hpat). cbn. lia. }
    eexists. split; [exact Hrun|].
    cbn [ErrorLog.commonPatterns ErrorLog.recommendations].
    rewrite <- E. split; [exact Hsum|]. rewrite Hslow, Hsum. lia.
Qed.

(* ===================================================================== *)
(** * Custom texts: the words counted and the words served *)
(* ===================================================================== *)

Lemma filter_strip_filter (l : list string) :
  List.filter (fun word => (0 <? String.length word)%nat)
    (List.map JS.strip_punctuation
       (List.filter (fun word => (0 <? String.length word)%nat) l))
  = List.filter (fun word => (0 <? String.length word)%nat)
      (List.map JS.strip_punctuation l).
Proof.
  remember (fun word => (0 <? String.length word)%nat) as ne eqn:Hne.
  induction l as [|x l IH]; [reflexivity|].
  cbn [List.filter List.map]. destruct (ne x) eqn:Ex.
  - cbn [List.filter List.map]. now rewrite IH.
  - assert (x = "") as -> by (subst ne; destruct x; [reflexivity|discriminate Ex]).
    cbn [JS.strip_punctuation]. now rewrite Ex.
Qed.

(** X21. The words of a custom text are counted and served by two
    tokenisers that differ. [extractWords], which gives the word count
    that [importFromString] checks and stores, drops the empty pieces
    before it strips the punctuation; [initializeCustomText] strips first.
    The game serves exactly the words of [extractWords] that are not
    empty, so the count can be larger than the number of words served: a
    piece made of punctuation only is counted and never served. *)
Theorem served_words_of_counted_words (W : World) (text : CustomText)
    (s : GameService) :
  let served := customTextWords (state_of (initializeCustomText W text s)) in
  let counted := CustomTextService.extractWords (ct_content text) in
  served = List.filter (fun word => (0 <? String.length word)%nat) counted
  /\ (List.length served <= List.length counted)%nat
  /\ exists content,
       CustomTextService.cleanText content = content
       /\ (List.length (game_words content)
           < List.length (CustomTextService.extractWords content))%nat.
Proof.
  cbv zeta. rewrite initializeCustomText_returns. cbn [state_of].
  destruct (usage_recorded_fields W (ct_id text)
              (set_customText (words_of_text text) 0%nat s))
    as (_ & _ & _ & _ & _ & _ & -> & _).
  cbn [customTextWords set_customText]. unfold words_of_text.
  unfold CustomTextService.extractWords.
  rewrite filter_strip_filter. split; [reflexivity|]. split.
  - rewrite <- filter_strip_filter. apply List.filter_length_le.
  - exists "a - b". split; [vm_compute; reflexivity|]. vm_compute. lia.
Qed.

Lemma normalize_whitespace_chars (s : string) :
  string_forall (fun c => negb (JS.isWhitespace c) || Ascii.eqb c " ")
                (CustomTextService.normalize_whitespace s) = true.
Proof.
  induction s as [|c r IH]; [reflexivity|].
  cbn [CustomTextService.normalize_whitespace].
  destruct (JS.isWhitespace c) eqn:Hc.
  - destruct r as [|c' r']; [reflexivity|].
    destruct (JS.isWhitespace c'); [exact IH|].
    cbn [string_forall]. rewrite IH. reflexivity.
  - cbn [string_forall]. now rewrite Hc, IH.
Qed.

Lemma remove_special_chars (P : ascii -> bool) (s : string) :
  string_forall P s = true ->
  string_forall
    (fun c => (CustomTextService.isWordChar c || JS.isWhitespace c
               || JS.isPunctuation c) && P c)
    (CustomTextService.remove_special s) = true.
Proof.
  induction s as [|c r IH]; intros H; [reflexivity|].
  cbn in H. apply andb_prop in H as [Hc Hr].
  cbn [CustomTextService.remove_special].
  destruct (_ || _) eqn:Hk; [|now apply IH].
  cbn [string_forall]. now rewrite Hk, Hc, IH.
Qed.

Lemma trimStart_chars (P : ascii -> bool) (s : string) :
  string_forall P s = true ->
  string_forall P (CustomTextService.trimStart s) = true.
Proof.
  induction s as [|c r IH]; intros H; [reflexivity|].
  cbn [CustomTextService.trimStart].
  destruct (JS.isWhitespace c); [|exact H].
  cbn in H. apply andb_prop in H as [_ Hr]. now apply IH.
Qed.

Lemma trimEnd_chars (P : ascii -> bool) (s : string) :
  string_forall P s = true ->
  string_forall P (CustomTextService.trimEnd s) = true.
Proof.
  induction s as [|c r IH]; intros H; [reflexivity|].
  cbn in H. apply andb_prop in H as [Hc Hr]. specialize (IH Hr).
  cbn [CustomTextService.trimEnd].
  destruct (CustomTextService.trimEnd r) as [|c' r'].
  - destruct (JS.isWhitespace c); [reflexivity|]. cbn. now rewrite Hc.
  - cbn [string_forall] in *. now rewrite Hc, IH.
Qed.

Lemma trimStart_start (s : string) :
  match CustomTextService.trimStart s with
  | String c _ => JS.isWhitespace c = false
  | EmptyString => True
  end.
Proof.
  induction s as [|c r IH]; [exact I|].
  cbn [CustomTextService.trimStart].
  destruct (JS.isWhitespace c) eqn:Hc; [exact IH|exact Hc].
Qed.

Lemma trimEnd_start (s : string) :
  match s with
  | String c _ => JS.isWhitespace c = false
  | EmptyString => True
  end ->
  match CustomTextService.trimEnd s with
  | String c _ => JS.isWhitespace c = false
  | EmptyString => True
  end.
Proof.
  destruct s as [|c r]; [auto|]. intros Hc.
  cbn [CustomTextService.trimEnd].
  destruct (CustomTextService.trimEnd r); [rewrite Hc|]; exact Hc.
Qed.

Lemma trimEnd_end (s : string) :
  no_space_at_end (CustomTextService.trimEnd s).
Proof.
  induction s as [|c r IH]; [exact I|].
  cbn [CustomTextService.trimEnd].
  destruct (CustomTextService.trimEnd r) as [|c' r'].
  - destruct (JS.isWhitespace c) eqn:Hc; [exact I|].
    cbn. intros ->. discriminate Hc.
  - exact IH.
Qed.

(** X22. What [cleanText] returns holds word characters, spaces and the
    punctuation marks only (no tab, no line break), and neither begins nor
    ends with a space. It can still hold two spaces in a row, where a
    removed character stood between two spaces, so that cleaning a clean
    text again can change it. *)
Theorem cleanText_clean (content : string) :
  string_forall clean_char (CustomTextService.cleanText content) = true
  /\ no_space_at_start (CustomTextService.cleanText content)
  /\ no_space_at_end (CustomTextService.cleanText content)
  /\ exists other,
       CustomTextService.cleanText (CustomTextService.cleanText other)
       <> CustomTextService.cleanText other.
Proof.
  unfold CustomTextService.cleanText, CustomTextService.trim.
  split; [|split; [|split]].
  - apply trimEnd_chars, trimStart_chars.
    eapply string_forall_impl;
      [|apply remove_special_chars, normalize_whitespace_chars].
    intros c H. apply andb_prop in H as [Hkeep Hnorm]. unfold clean_char.
    destruct (CustomTextService.isWordChar c); [reflexivity|].
    destruct (Ascii.eqb c " "); [reflexivity|].
    destruct (JS.isWhitespace c); [discriminate Hnorm|exact Hkeep].
  - pose proof (trimEnd_start _ (trimStart_start
      (CustomTextService.remove_special
         (CustomTextService.normalize_whitespace content)))) as H.
    unfold no_space_at_start.
    destruct (CustomTextService.trimEnd _) as [|c r]; [exact I|].
    intros ->. discriminate H.
  - apply trimEnd_end.
  - exists "a @ b". vm_compute. discriminate.
Qed.

(* ===================================================================== *)
(** * The end of a custom text *)
(* ===================================================================== *)

Section CustomGame.

Variable W : World.

(** [startGame] in custom-text mode: the first word is served while the
    game state is still the one of the game before. *)
Lemma startGame_custom settings (s0 : GameService) (text : CustomText) :
  isCustomMode (settings_after settings s0) = Some true ->
  customText (settings_after settings s0) = Some text ->
  game_words (ct_content text) <> [] ->
  let ws := game_words (ct_content text) in
  exists s,
    startGame W settings s0 = Ok tt s
    /\ custom_game_at ws 0 s
    /\ phase (gameState s) = Running
    /\ correctWords (gameState s) = 0
    /\ timeouts s
       = (timeouts s0
          ++ if (1 mod List.length ws =? 0)%nat && (0 <? totalWords (gameState s0))
             then [100] else [])%list.
Proof.
  intros Hmode Htext Hne ws.
  rewrite <- settings_merged_settings in Hmode, Htext.
  unfold startGame. unfold bind at 1.
  replace (match settings with
           | Some p => modify (fun s1 => set_currentSettings
                                 (merge_settings (currentSettings s1) p) s1)
           | None => ret tt
           end s0) with (Ok tt (settings_merged settings s0))
    by (destruct settings; reflexivity).
  unfold bind at 1, gets at 1. unfold bind at 1.
  rewrite Hmode, Htext. rewrite bool_decide_eq_true_2 by reflexivity.
  unfold bind at 1. rewrite initializeCustomText_returns.
  change (words_of_text text) with ws.
  assert (Hgs0 : gameState (settings_merged settings s0) = gameState s0)
    by (destruct settings; reflexivity).
  assert (Hto0 : timeouts (settings_merged settings s0) = timeouts s0)
    by (destruct settings; reflexivity).
  unfold usage_recorded.
  destruct (Text_stored W _ _);
    (rewrite getNextCustomWord_serves by exact Hne;
     cbn [customTextWords customTextIndex set_customText set_reads gameState
          Nat.add];
     rewrite Hgs0;
     destruct ((1 mod List.length ws =? 0)%nat
               && (0 <? totalWords (gameState s0)));
     unfold startGameTimer, startWordTimer; unfold_monad; cbn;
     (eexists; split; [reflexivity|]); unfold custom_game_at; cbn;
     rewrite ?Hmode, ?Hto0, ?app_nil_r; repeat split).
Qed.

(** A correct word in a game on a custom text. *)
Lemma custom_commit (ws : list string) (k : nat) (s : GameService) :
  custom_game_at ws k s -> (k + 1 < List.length ws)%nat ->
  exists r s',
    processInput W (currentWord (gameState s)) s = Ok r s'
    /\ custom_game_at ws (k + 1) s'
    /\ correctWords (gameState s') = correctWords (gameState s) + 1
    /\ isPlaying (gameState s') = isPlaying (gameState s)
    /\ isPaused (gameState s') = isPaused (gameState s)
    /\ isGameOver (gameState s') = isGameOver (gameState s)
    /\ timeouts s'
       = (timeouts s
          ++ if ((k + 2) mod List.length ws =? 0)%nat && (0 <? Z.of_nat k)
             then [100] else [])%list.
Proof.
  intros (Hmode & Hws & Hidx & Hcur & Htot) Hk.
  assert (Hne : ws <> []) by (destruct ws; [cbn in Hk; lia|discriminate]).
  rewrite Nat.mod_small in Hidx by exact Hk.
  rewrite processInput_decides, String.eqb_refl.
  unfold handleCorrectWord. unfold bind at 1 2 3, gets at 1 2.
  assert (Hget : getNextWord W (input_stored (currentWord (gameState s)) s)
                 = getNextCustomWord (input_stored (currentWord (gameState s)) s)).
  { unfold getNextWord. unfold bind at 1, gets at 1. cbn [currentSettings
      input_stored set_gameState set_reads]. rewrite Hmode.
    now rewrite bool_decide_eq_true_2. }
  rewrite Hget, getNextCustomWord_serves
    by (cbn [customTextWords input_stored set_gameState set_reads];
        rewrite Hws; exact Hne).
  cbn [customTextWords customTextIndex input_stored set_gameState set_reads
       gameState totalWords timeouts].
  rewrite Hws, Hidx, Htot.
  replace (k + 1 + 1)%nat with (k + 2)%nat by lia.
  destruct (((k + 2) mod List.length ws =? 0)%nat && (0 <? Z.of_nat k));
    unfold_monad; cbn [gameState set_gameState set_timeouts set_customText
                       set_reads set_wordStartTime];
    match goal with
    | |- context [restartWordTimer ?x] =>
        destruct (restartWordTimer_returns x)
          as (s' & Hr & Hgs & Hcs & _ & Hcw & Hci & Hto & _); rewrite Hr
    end;
    (eexists; exists s'; split; [reflexivity|]);
    unfold custom_game_at; rewrite Hgs, Hcs, Hcw, Hci, Hto; cbn;
    rewrite ?Hmode, ?app_nil_r, ?Htot;
    repeat split; try reflexivity; try lia;
    f_equal; lia.
Qed.

(** The words of a custom text typed in turn, up to the last but one. *)
Lemma custom_commits (ws : list string) (j : nat) :
  forall (k : nat) (s : GameService),
    custom_game_at ws k s ->
    (k + j + 2 = List.length ws)%nat ->
    exists s',
      type_current_word W (j + 1) s = Ok tt s'
      /\ custom_game_at ws (List.length ws - 1) s'
      /\ correctWords (gameState s')
         = correctWords (gameState s) + Z.of_nat (j + 1)
      /\ isPlaying (gameState s') = isPlaying (gameState s)
      /\ isPaused (gameState s') = isPaused (gameState s)
      /\ isGameOver (gameState s') = isGameOver (gameState s)
      /\ timeouts s'
         = (timeouts s
            ++ if (3 <=? List.length ws)%nat then [100] else [])%list.
Proof.
  induction j as [|j IH]; intros k s Hat Hlen.
  - destruct (custom_commit ws k s Hat) as (r & s' & Hrun & Hat' & Hc & Hp & Hpa & Ho & Hto);
      [lia|].
    exists s'. cbn [Nat.add type_current_word]. unfold bind at 1 2, gets at 1.
    rewrite Hrun. replace (List.length ws - 1)%nat with (k + 1)%nat by lia.
    split; [reflexivity|]. split; [exact Hat'|].
    split; [rewrite Hc; cbn; lia|].
    split; [exact Hp|]. split; [exact Hpa|]. split; [exact Ho|].
    rewrite Hto. f_equal.
    replace ((k + 2) mod List.length ws)%nat with 0%nat
      by (replace (k + 2)%nat with (List.length ws) by lia;
          symmetry; apply Nat.Div0.mod_same).
    cbn [Nat.eqb andb].
    destruct (Nat.leb_spec 3 (List.length ws)) as [H|H].
    + replace (0 <? Z.of_nat k) with true by (symmetry; apply Z.ltb_lt; lia).
      reflexivity.
    + replace (0 <? Z.of_nat k) with false by (symmetry; apply Z.ltb_ge; lia).
      reflexivity.
  - destruct (custom_commit ws k s Hat) as (r & s1 & Hrun & Hat1 & Hc & Hp & Hpa & Ho & Hto);
      [lia|].
    destruct (IH (k + 1)%nat s1 Hat1) as (s' & Hrest & Hat' & Hc' & Hp' & Hpa' & Ho' & Hto');
      [lia|].
    exists s'. cbn [Nat.add type_current_word]. unfold bind at 1 2, gets at 1.
    rewrite Hrun. change (S (j + 1)) with (S j + 1)%nat in *.
    replace (S j + 1)%nat with (S (j + 1)) in Hrest |- * by lia.
    cbn [type_current_word] in Hrest |- *.
    split; [exact Hrest|]. split; [exact Hat'|].
    split; [rewrite Hc', Hc; lia|].
    split; [congruence|]. split; [congruence|]. split; [congruence|].
    rewrite Hto', Hto.
    replace ((k + 2) mod List.length ws =? 0)%nat with false.
    + cbn [andb]. now rewrite app_nil_r.
    + symmetry. apply Nat.eqb_neq. rewrite Nat.mod_small by lia. lia.
Qed.

End CustomGame.

(** The last word of a custom text, typed: it is counted, the first word
    is served again and no end of the game is scheduled. *)
Lemma custom_last_commit (W : World) (ws : list string) (s : GameService) :
  custom_game_at ws (List.length ws - 1) s -> (2 <= List.length ws)%nat ->
  exists r s',
    processInput W (currentWord (gameState s)) s = Ok r s'
    /\ isCorrect r = true
    /\ totalWords (gameState s') = Z.of_nat (List.length ws)
    /\ correctWords (gameState s') = correctWords (gameState s) + 1
    /\ currentWord (gameState s') = nth 0 ws ""
    /\ isPlaying (gameState s') = isPlaying (gameState s)
    /\ isPaused (gameState s') = isPaused (gameState s)
    /\ isGameOver (gameState s') = isGameOver (gameState s)
    /\ timeouts s' = timeouts s.
Proof.
  intros (Hmode & Hws & Hidx & Hcur & Htot) Hk.
  assert (Hne : ws <> []) by (destruct ws; [cbn in Hk; lia|discriminate]).
  replace (List.length ws - 1 + 1)%nat with (List.length ws) in Hidx by lia.
  rewrite Nat.Div0.mod_same in Hidx.
  rewrite processInput_decides, String.eqb_refl.
  unfold handleCorrectWord. unfold bind at 1 2 3, gets at 1 2.
  assert (Hget : getNextWord W (input_stored (currentWord (gameState s)) s)
                 = getNextCustomWord (input_stored (currentWord (gameState s)) s)).
  { unfold getNextWord. unfold bind at 1, gets at 1. cbn [currentSettings
      input_stored set_gameState set_reads]. rewrite Hmode.
    now rewrite bool_decide_eq_true_2. }
  rewrite Hget, getNextCustomWord_serves
    by (cbn [customTextWords input_stored set_gameState set_reads];
        rewrite Hws; exact Hne).
  cbn [customTextWords customTextIndex input_stored set_gameState set_reads
       gameState totalWords timeouts].
  rewrite Hws, Hidx, Htot.
  replace ((0 + 1) mod List.length ws =? 0)%nat with false
    by (symmetry; apply Nat.eqb_neq; rewrite Nat.mod_small; lia).
  cbn [andb].
  unfold_monad; cbn [gameState set_gameState set_timeouts set_customText
                     set_reads set_wordStartTime].
  match goal with
  | |- context [restartWordTimer ?x] =>
      destruct (restartWordTimer_returns x)
        as (s' & Hr & Hgs & Hcs & _ & Hcw & Hci & Hto & _); rewrite Hr
  end.
  eexists; exists s'. split; [reflexivity|].
  rewrite Hgs, Hto; cbn.
  repeat apply conj; try reflexivity. lia.
Qed.

(** X23. The end of a game on a custom text of three words or more is
    scheduled while its last word is still to type: the commit that serves
    the last word schedules it, 100 ms ahead. After all words but the last
    were typed the last word is the current one, the game is still running
    and its end is pending. When the timeout runs before the last word is
    typed, the game is over with the last word not counted. When the last
    word is typed before the timeout runs, it is counted, the first word
    is served again, no other end is scheduled, and the timeout then ends
    the game with every word counted. *)
Theorem custom_text_end_is_scheduled_at_its_last_word (W : World)
    (settings : option PartialGameSettings) (s0 : GameService)
    (text : CustomText) :
  isCustomMode (settings_after settings s0) = Some true ->
  customText (settings_after settings s0) = Some text ->
  (3 <= List.length (game_words (ct_content text)))%nat ->
  timeouts s0 = [] ->
  let ws := game_words (ct_content text) in
  let n := List.length ws in
  exists s s',
    startGame W settings s0 = Ok tt s
    /\ type_current_word W (n - 1) s = Ok tt s'
    /\ phase (gameState s') = Running
    /\ currentWord (gameState s') = nth (n - 1) ws ""
    /\ correctWords (gameState s') = Z.of_nat n - 1
    /\ totalWords (gameState s') = Z.of_nat n - 1
    /\ timeouts s' = [100]
    /\ (exists s'',
          deliver W TimeoutDue s' = Ok tt s''
          /\ phase (gameState s'') = Over
          /\ totalWords (gameState s'') = Z.of_nat n - 1)
    /\ (exists r s3 s4,
          processInput W (nth (n - 1) ws "") s' = Ok r s3
          /\ isCorrect r = true
          /\ phase (gameState s3) = Running
          /\ totalWords (gameState s3) = Z.of_nat n
          /\ correctWords (gameState s3) = Z.of_nat n
          /\ currentWord (gameState s3) = nth 0 ws ""
          /\ timeouts s3 = [100]
          /\ deliver W TimeoutDue s3 = Ok tt s4
          /\ phase (gameState s4) = Over
          /\ totalWords (gameState s4) = Z.of_nat n).
Proof.
  intros Hmode Htext Hlen Hto0 ws n.
  destruct (startGame_custom W settings s0 text Hmode Htext)
    as (s & Hstart & Hat & Hphase & Hcorrect & Hto).
  { intros E. rewrite E in Hlen. cbn in Hlen. lia. }
  assert (Hws : ws = game_words (ct_content text)) by reflexivity.
  assert (Hn : n = List.length ws) by reflexivity.
  clearbody n. clearbody ws.
  rewrite <- Hws in Hat, Hto, Hlen. rewrite <- Hn in Hto, Hlen.
  rewrite Hto0 in Hto.
  replace (1 mod n =? 0)%nat with false in Hto
    by (symmetry; apply Nat.eqb_neq; rewrite Nat.mod_small; lia).
  cbn [andb app] in Hto.
  destruct (custom_commits W ws (n - 2) 0 s Hat)
    as (s' & Hrun & Hat' & Hc & Hp & Hpa & Ho & Hto'); [lia|].
  replace (n - 2 + 1)%nat with (n - 1)%nat in Hrun, Hc by lia.
  rewrite <- Hn in Hto'.
  replace (3 <=? n)%nat with true in Hto' by (symmetry; apply Nat.leb_le; lia).
  rewrite Hto in Hto'. cbn [app] in Hto'.
  destruct (custom_last_commit W ws s' Hat')
    as (r & s3 & Hlast & Hr & Htot3 & Hc3 & Hcur3 & Hp3 & Hpa3 & Ho3 & Hto3);
    [lia|].
  rewrite <- Hn in Hat', Htot3.
  destruct Hat' as (_ & _ & _ & Hcur & Htot).
  apply phase_Running in Hphase as (Hover & Hplay & Hpause).
  assert (Hph' : phase (gameState s') = Running)
    by (apply phase_Running; repeat split; congruence).
  assert (Hph3 : phase (gameState s3) = Running)
    by (apply phase_Running; repeat split; congruence).
  assert (Hdue : forall x k,
             timeouts x = [100] -> totalWords (gameState x) = k ->
             exists x',
               deliver W TimeoutDue x = Ok tt x'
               /\ phase (gameState x') = Over
               /\ totalWords (gameState x') = k).
  { intros x k Hx Hk.
    cbn [deliver]. unfold timeout_fire. unfold bind at 1, gets at 1.
    rewrite Hx. unfold bind, modify.
    destruct (endGame_returns (set_timeouts [] x)) as (x' & Hend & Hgs & _).
    exists x'. rewrite Hend, Hgs. cbn. split; [reflexivity|].
    split; [reflexivity|exact Hk]. }
  exists s, s'. split; [exact Hstart|]. split; [exact Hrun|].
  split; [exact Hph'|]. split; [exact Hcur|].
  split; [rewrite Hc, Hcorrect; lia|].
  split; [rewrite Htot; lia|].
  split; [exact Hto'|]. split.
  - apply Hdue; [exact Hto'|]. rewrite Htot. lia.
  - destruct (Hdue s3 (Z.of_nat n)) as (s4 & Hrun4 & Hph4 & Htot4);
      [rewrite Hto3; exact Hto' | exact Htot3 |].
    exists r, s3, s4. rewrite <- Hcur.
    split; [exact Hlast|]. split; [exact Hr|]. split; [exact Hph3|].
    split; [exact Htot3|]. split; [rewrite Hc3, Hc, Hcorrect; lia|].
    split; [exact Hcur3|]. split; [rewrite Hto3; exact Hto'|].
    split; [exact Hrun4|]. split; assumption.
Qed.

Lemma custom_text_end_is_scheduled_at_its_last_word_witness :
  exists s s',
    startGame world_A (custom_settings text_E) initial = Ok tt s
    /\ type_current_word world_A 2 s = Ok tt s'
    /\ phase (gameState s') = Running
    /\ currentWord (gameState s') = "world"
    /\ timeouts s' = [100]
    /\ (exists s'', deliver world_A TimeoutDue s' = Ok tt s''
                    /\ totalWords (gameState s'') = 2)
    /\ (exists r s3, processInput world_A "world" s' = Ok r s3
                     /\ totalWords (gameState s3) = 3).
Proof.
  destruct (custom_text_end_is_scheduled_at_its_last_word world_A
              (custom_settings text_E) initial text_E)
    as (s & s' & Hstart & Hrun & Hphase & Hcur & _ & _ & Hto & Hdue & Htyped);
    [vm_compute; reflexivity | vm_compute; reflexivity | vm_compute; lia
     | vm_compute; reflexivity |].
  exists s, s'. do 5 (split; [assumption|]). split.
  - destruct Hdue as (s'' & Hd & _ & Ht). exists s''. split; assumption.
  - destruct Htyped as (r & s3 & _ & Hlast & _ & _ & Ht & _).
    exists r, s3. split; assumption.
Defined.

(** X24. [startGame] serves the first word of a custom text while the
    game state is still the one of the game before. With a text of one
    word the index is back at 0 at once, so that after a game in which a
    word was counted the end of the new game is scheduled by [startGame]
    itself: the game is over 100 ms after it began. *)
Theorem one_word_text_ends_at_start (W : World)
    (settings : option PartialGameSettings) (s0 : GameService)
    (text : CustomText) (w : string) :
  isCustomMode (settings_after settings s0) = Some true ->
  customText (settings_after settings s0) = Some text ->
  game_words (ct_content text) = [w] ->
  0 < totalWords (gameState s0) ->
  exists s,
    startGame W settings s0 = Ok tt s
    /\ phase (gameState s) = Running
    /\ currentWord (gameState s) = w
    /\ totalWords (gameState s) = 0
    /\ timeouts s = (timeouts s0 ++ [100])%list.
Proof.
  intros Hmode Htext Hws Hpos.
  destruct (startGame_custom W settings s0 text Hmode Htext)
    as (s & Hstart & Hat & Hphase & _ & Hto).
  { rewrite Hws. discriminate. }
  rewrite Hws in Hat, Hto. cbn [List.length] in Hto.
  apply Z.ltb_lt in Hpos. rewrite Hpos in Hto.
  destruct Hat as (_ & _ & _ & Hcur & Htot).
  exists s. repeat split; assumption.
Qed.

Lemma one_word_text_ends_at_start_witness :
  exists s,
    startGame world_A (custom_settings text_G) session_A1 = Ok tt s
    /\ phase (gameState s) = Running
    /\ currentWord (gameState s) = "done"
    /\ timeouts s = [100].
Proof.
  destruct (one_word_text_ends_at_start world_A (custom_settings text_G)
              session_A1 text_G "done")
    as (s & Hstart & Hphase & Hcur & _ & Hto);
    [vm_compute; reflexivity | vm_compute; reflexivity | vm_compute; reflexivity
     | vm_compute; reflexivity |].
  exists s. split; [exact Hstart|]. split; [exact Hphase|].
  split; [exact Hcur|]. rewrite Hto. vm_compute. reflexivity.
Defined.

(** X25. A game started with a duration of 0 seconds or less is never
    ended by its session timer: the first emission finds no time left,
    completes the subscription and runs no [tap], so that [endGame] is not
    called. The game stays running, with the time it was started with. *)
Theorem game_without_time_never_times_out (W : World)
    (settings : option PartialGameSettings) (s0 s : GameService) :
  startGame W settings s0 = Ok tt s ->
  gameDuration (settings_after settings s0) <= 0 ->
  exists g s',
    timerSubscription s = Some g
    /\ subscriptions s !! g = Some GameTimer
    /\ deliver W (Emit g) s = Ok tt s'
    /\ subscriptions s' !! g = None
    /\ gameState s' = gameState s
    /\ phase (gameState s') = Running
    /\ timeRemaining (gameState s') = gameDuration (settings_after settings s0).
Proof.
  intros Hstart Hdur.
  destruct (startGame_opens W settings s0 s Hstart)
    as ((Hts & _ & Hsubs & _) & _ & Hgs & _).
  assert (Hopen : subscriptions s !! nextSubscription s0 = Some GameTimer).
  { rewrite Hsubs, lookup_insert_ne by lia. apply lookup_insert_eq. }
  exists (nextSubscription s0), (close (nextSubscription s0) s).
  split; [exact Hts|]. split; [exact Hopen|]. split.
  { cbn [deliver]. apply fire_gameTimer_stopped; [exact Hopen|].
    rewrite Hgs. cbn. replace (0 <? _) with false; [reflexivity|].
    symmetry. apply Z.ltb_ge. exact Hdur. }
  split; [cbn; apply lookup_delete_eq|]. split; [reflexivity|].
  cbn. rewrite Hgs. split; reflexivity.
Qed.

Lemma game_without_time_never_times_out_witness :
  exists g s',
    timerSubscription session_Z = Some g
    /\ deliver world_A (Emit g) session_Z = Ok tt s'
    /\ phase (gameState s') = Running
    /\ timeRemaining (gameState s') = 0.
Proof.
  destruct (game_without_time_never_times_out world_A
              (settings_of "Basic" "Easy" 0) initial session_Z)
    as (g & s' & Hg & _ & Hrun & _ & _ & Hphase & Htime);
    [vm_compute; reflexivity | vm_compute; discriminate |].
  exists g, s'. repeat split; assumption.
Defined.

(* ===================================================================== *)
(** * The heat map *)
(* ===================================================================== *)

Lemma update_first_keys (k : ascii) f (l : list HeatMap.KeystrokeData) :
  (forall x, HeatMap.key (f x) = HeatMap.key x) ->
  List.map HeatMap.key (HeatMap.update_first k f l) = List.map HeatMap.key l.
Proof.
  intros Hf. induction l as [|x l IH]; [reflexivity|].
  cbn [HeatMap.update_first]. destruct (Ascii.eqb _ _); cbn [List.map].
  - now rewrite Hf.
  - now rewrite IH.
Qed.

Lemma update_first_sum (g : HeatMap.KeystrokeData -> Z) (d : Z) (k : ascii) f
    (l : list HeatMap.KeystrokeData) (x0 : HeatMap.KeystrokeData) :
  (forall x, g (f x) = g x + d) ->
  List.find (fun x => Ascii.eqb (HeatMap.key x) k) l = Some x0 ->
  list_sum_Z (List.map g (HeatMap.update_first k f l))
  = list_sum_Z (List.map g l) + d.
Proof.
  intros Hf. induction l as [|x l IH]; [discriminate|].
  cbn [List.find HeatMap.update_first]. destruct (Ascii.eqb _ _).
  - intros _. cbn [List.map list_sum_Z]. rewrite Hf. lia.
  - intros H. cbn [List.map list_sum_Z]. rewrite (IH H). lia.
Qed.

Lemma update_first_Forall (P : HeatMap.KeystrokeData -> Prop) (k : ascii) f
    (l : list HeatMap.KeystrokeData) :
  (forall x, P x -> P (f x)) ->
  Forall P l -> Forall P (HeatMap.update_first k f l).
Proof.
  intros Hf. induction 1 as [|x l Hx Hl IH]; cbn [HeatMap.update_first].
  - constructor.
  - destruct (Ascii.eqb _ _); constructor; auto.
Qed.

Lemma update_first_new (k : ascii) f (l : list HeatMap.KeystrokeData)
    (x : HeatMap.KeystrokeData) :
  List.find (fun y => Ascii.eqb (HeatMap.key y) k) l = None ->
  HeatMap.key x = k ->
  HeatMap.update_first k f (l ++ [x]) = (l ++ [f x])%list.
Proof.
  intros Hnone Hx. induction l as [|y l IH]; cbn [app HeatMap.update_first].
  - now rewrite Hx, Ascii.eqb_refl.
  - cbn [List.find] in Hnone. destruct (Ascii.eqb _ _); [discriminate|].
    now rewrite IH.
Qed.

Lemma find_key_none (k : ascii) (l : list HeatMap.KeystrokeData) :
  List.find (fun y => Ascii.eqb (HeatMap.key y) k) l = None ->
  ~ In k (List.map HeatMap.key l).
Proof.
  induction l as [|y l IH]; cbn [List.find List.map]; [auto|].
  destruct (Ascii.eqb_spec (HeatMap.key y) k) as [|Hne]; [discriminate|].
  intros H [Hin|Hin]; [contradiction|now apply IH].
Qed.

Lemma NoDup_snoc {A} (l : list A) (x : A) :
  NoDup l -> ~ In x l -> NoDup (l ++ [x]).
Proof.
  intros Hl Hx. apply NoDup_app. split; [exact Hl|].
  split; [|apply NoDup_singleton].
  intros y Hy Hyx. apply list_elem_of_singleton in Hyx as ->.
  apply Hx. now apply list_elem_of_In.
Qed.

Lemma list_sum_Z_app (l k : list Z) :
  list_sum_Z (l ++ k) = list_sum_Z l + list_sum_Z k.
Proof. induction l as [|x l IH]; cbn [app list_sum_Z]; lia. Qed.

(** One keystroke: the counters still agree, and the keystroke was counted
    if its key is on the layout. *)
Lemma recordKeystroke_consistent (W : World) (k : Keystroke) (s : HeatMap.Service) :
  heat_map_consistent (HeatMap.heatMapData s) ->
  let s' := HeatMap.recordKeystroke W (k_key k) (k_timeTaken k) (k_isCorrect k)
              (k_expectedKey k) (k_word k) (k_position k) s in
  heat_map_consistent (HeatMap.heatMapData s')
  /\ HeatMap.totalKeystrokes (HeatMap.heatMapData s')
     = HeatMap.totalKeystrokes (HeatMap.heatMapData s)
       + (if on_heat_map k then 1 else 0).
Proof.
  intros (Hatt & Herr & Hall & Hdup & Hlog). cbv zeta.
  unfold HeatMap.recordKeystroke, on_heat_map.
  destruct (HeatMap.lookup_key (JS.toLowerCase_char (k_key k))) as [info|];
    [|split; [repeat split; assumption|lia]].
  cbv zeta. split; [|cbn; reflexivity].
  set (lk := JS.toLowerCase_char (k_key k)).
  set (f := HeatMap.bump (k_timeTaken k) (k_isCorrect k)).
  assert (Hkey : forall x, HeatMap.key (f x) = HeatMap.key x) by reflexivity.
  assert (Hfa : forall x, HeatMap.attempts (f x) = HeatMap.attempts x + 1)
    by reflexivity.
  assert (Hfe : forall x, HeatMap.errors (f x)
                          = HeatMap.errors x + if k_isCorrect k then 0 else 1).
  { intros x. cbn. destruct (k_isCorrect k); lia. }
  assert (Hlogged :
    Z.of_nat (List.length
      match
        match k_isCorrect k, k_expectedKey k, k_word k, k_position k with
        | false, Some expected, Some w, Some p =>
            Some {| HeatMap.timestamp := Date_now W (HeatMap.clockReads s);
                    HeatMap.expectedKey := JS.toLowerCase_char expected;
                    HeatMap.actualKey := lk;
                    HeatMap.word := w; HeatMap.te_position := p;
                    HeatMap.timeTaken := k_timeTaken k |}
        | _, _, _, _ => None
        end
      with
      | Some e => (HeatMap.hm_errors (HeatMap.heatMapData s) ++ [e])%list
      | None => HeatMap.hm_errors (HeatMap.heatMapData s)
      end)
    <= if k_isCorrect k then HeatMap.totalErrors (HeatMap.heatMapData s)
       else HeatMap.totalErrors (HeatMap.heatMapData s) + 1).
  { destruct (k_isCorrect k); [exact Hlog|].
    destruct (k_expectedKey k); [|lia].
    destruct (k_word k); [|lia]. destruct (k_position k); [|lia].
    rewrite List.length_app. cbn [List.length]. lia. }
  unfold heat_map_consistent.
  cbn [HeatMap.heatMapData HeatMap.keystroke HeatMap.hm_errors
       HeatMap.totalKeystrokes HeatMap.totalErrors].
  destruct (List.find (fun x => Ascii.eqb (HeatMap.key x) lk)
                      (HeatMap.keystroke (HeatMap.heatMapData s)))
    as [x0|] eqn:Efind.
  - split; [rewrite (update_first_sum _ 1 _ _ _ x0 Hfa Efind); lia|].
    split.
    { rewrite (update_first_sum _ _ _ _ _ x0 Hfe Efind).
      destruct (k_isCorrect k); lia. }
    split.
    { apply update_first_Forall; [|exact Hall].
      intros x (H1 & H2). rewrite Hfa, Hfe. destruct (k_isCorrect k); lia. }
    split; [now rewrite update_first_keys|exact Hlogged].
  - rewrite update_first_new by (exact Efind || reflexivity).
    rewrite !List.map_app, !list_sum_Z_app. cbn [List.map list_sum_Z].
    split; [cbn; lia|].
    split; [cbn; destruct (k_isCorrect k); lia|].
    split.
    { apply List.Forall_app. split; [exact Hall|].
      constructor; [|constructor]. cbn. destruct (k_isCorrect k); lia. }
    split; [|exact Hlogged].
    apply NoDup_snoc; [exact Hdup|]. now apply find_key_none.
Qed.

(** X26. From the initial data of the heat map, after any keystrokes, the
    counters agree: the attempts of the keys add up to [totalKeystrokes]
    and their errors to [totalErrors], every key listed was pressed at
    least once and has no more errors than attempts, no key is listed
    twice, and the log of errors holds at most [totalErrors] entries. A
    key that is not on the layout of the heat map is not counted at all:
    [totalKeystrokes] is the number of keystrokes on the layout. *)
Theorem heat_map_counts_agree (W : World) (ks : list Keystroke)
    (s0 : HeatMap.Service) :
  let d := HeatMap.heatMapData
             (record_keystrokes W ks (HeatMap.getInitialHeatMapData W s0)) in
  heat_map_consistent d
  /\ HeatMap.totalKeystrokes d
     = Z.of_nat (List.length (List.filter on_heat_map ks)).
Proof.
  cbv zeta.
  assert (H : forall s,
            heat_map_consistent (HeatMap.heatMapData s) ->
            heat_map_consistent (HeatMap.heatMapData (record_keystrokes W ks s))
            /\ HeatMap.totalKeystrokes
                 (HeatMap.heatMapData (record_keystrokes W ks s))
               = HeatMap.totalKeystrokes (HeatMap.heatMapData s)
                 + Z.of_nat (List.length (List.filter on_heat_map ks))).
  { induction ks as [|k ks IH]; intros s Hs.
    - cbn. split; [exact Hs|lia].
    - cbn [record_keystrokes List.filter].
      destruct (recordKeystroke_consistent W k s Hs) as [Hs' Hcount].
      destruct (IH _ Hs') as [Hfinal Htotal]. split; [exact Hfinal|].
      rewrite Htotal, Hcount. destruct (on_heat_map k); cbn [List.length]; lia. }
  destruct (H (HeatMap.getInitialHeatMapData W s0)) as [H1 H2].
  - unfold heat_map_consistent. cbn. repeat split; try constructor; lia.
  - split; [exact H1|]. rewrite H2. cbn. reflexivity.
Qed.

(* --------------------------------------------------------------------- *)
(** ** A custom text without words *)

Section WordlessText.

Variable W : World.

Lemma getNextCustomWord_empty (s : GameService) :
  customTextWords s = [] -> getNextCustomWord s = Ok "end" s.
Proof.
  intros H. unfold getNextCustomWord; unfold_monad. now rewrite H.
Qed.

Lemma startGame_wordless settings (s0 : GameService) (text : CustomText) :
  isCustomMode (settings_after settings s0) = Some true ->
  customText (settings_after settings s0) = Some text ->
  game_words (ct_content text) = [] ->
  exists s,
    startGame W settings s0 = Ok tt s
    /\ isCustomMode (currentSettings s) = Some true
    /\ customTextWords s = []
    /\ currentWord (gameState s) = "end"
    /\ correctWords (gameState s) = 0
    /\ phase (gameState s) = Running
    /\ timeouts s = timeouts s0.
Proof.
  intros Hmode Htext Hws.
  rewrite <- settings_merged_settings in Hmode, Htext.
  unfold startGame. unfold bind at 1.
  replace (match settings with
           | Some p => modify (fun s1 => set_currentSettings
                                 (merge_settings (currentSettings s1) p) s1)
           | None => ret tt
           end s0) with (Ok tt (settings_merged settings s0))
    by (destruct settings; reflexivity).
  unfold bind at 1, gets at 1. unfold bind at 1.
  rewrite Hmode, Htext. rewrite bool_decide_eq_true_2 by reflexivity.
  unfold bind at 1. rewrite initializeCustomText_returns.
  change (words_of_text text) with (game_words (ct_content text)).
  rewrite Hws.
  assert (Hto0 : timeouts (settings_merged settings s0) = timeouts s0)
    by (destruct settings; reflexivity).
  unfold usage_recorded.
  destruct (Text_stored W _ _);
    (rewrite getNextCustomWord_empty by reflexivity;
     unfold startGameTimer, startWordTimer; unfold_monad; cbn;
     eexists; split; [reflexivity|]; cbn; rewrite Hmode, Hto0; repeat split).
Qed.

Lemma wordless_commit (s : GameService) :
  isCustomMode (currentSettings s) = Some true ->
  customTextWords s = [] ->
  exists r s',
    processInput W (currentWord (gameState s)) s = Ok r s'
    /\ isCustomMode (currentSettings s') = Some true
    /\ customTextWords s' = []
    /\ currentWord (gameState s') = "end"
    /\ correctWords (gameState s') = correctWords (gameState s) + 1
    /\ isPlaying (gameState s') = isPlaying (gameState s)
    /\ isPaused (gameState s') = isPaused (gameState s)
    /\ isGameOver (gameState s') = isGameOver (gameState s)
    /\ timeouts s' = timeouts s.
Proof.
  intros Hmode Hws.
  rewrite processInput_decides, String.eqb_refl.
  unfold handleCorrectWord. unfold bind at 1 2 3, gets at 1 2.
  assert (Hget : getNextWord W (input_stored (currentWord (gameState s)) s)
                 = Ok "end" (input_stored (currentWord (gameState s)) s)).
  { unfold getNextWord. unfold bind at 1, gets at 1. cbn [currentSettings
      input_stored set_gameState set_reads]. rewrite Hmode.
    rewrite bool_decide_eq_true_2 by reflexivity.
    now apply getNextCustomWord_empty. }
  rewrite Hget. unfold_monad.
  cbn [gameState set_gameState set_reads set_wordStartTime input_stored].
  match goal with
  | |- context [restartWordTimer ?x] =>
      destruct (restartWordTimer_returns x)
        as (s' & Hr & Hgs & Hcs & _ & Hcw & _ & Hto & _); rewrite Hr
  end.
  eexists; exists s'. split; [reflexivity|].
  rewrite Hgs, Hcs, Hcw, Hto. cbn. rewrite Hmode, Hws. repeat split.
Qed.

Lemma wordless_commits (n : nat) :
  forall s : GameService,
    isCustomMode (currentSettings s) = Some true ->
    customTextWords s = [] ->
    exists s',
      type_current_word W n s = Ok tt s'
      /\ (0 < n -> currentWord (gameState s') = "end")%nat
      /\ correctWords (gameState s') = correctWords (gameState s) + Z.of_nat n
      /\ isPlaying (gameState s') = isPlaying (gameState s)
      /\ isPaused (gameState s') = isPaused (gameState s)
      /\ isGameOver (gameState s') = isGameOver (gameState s)
      /\ timeouts s' = timeouts s.
Proof.
  induction n as [|n IH]; intros s Hmode Hws.
  - exists s. cbn. repeat split; lia.
  - destruct (wordless_commit s Hmode Hws)
      as (r & s1 & Hrun & Hmode1 & Hws1 & Hcur1 & Hc1 & Hp1 & Hpa1 & Ho1 & Hto1).
    destruct (IH s1 Hmode1 Hws1) as (s' & Hrest & Hcur & Hc & Hp & Hpa & Ho & Hto).
    exists s'. cbn [type_current_word]. unfold bind at 1 2, gets at 1.
    rewrite Hrun. split; [exact Hrest|].
    split.
    { intros _. destruct n as [|n'].
      - cbn in Hrest. injection Hrest as <-. exact Hcur1.
      - apply Hcur. lia. }
    split; [rewrite Hc, Hc1; lia|].
    repeat split; congruence.
Qed.

End WordlessText.

(** X27. A custom text in which no piece holds a letter or a digit has no
    word for the game, though each of its pieces counts as a word when the
    text is imported. A game on it serves the fallback word "end", serves
    it again after every commit and never schedules its own end: however
    many times the word is typed, the game is still running on that
    word. *)
Theorem wordless_custom_text_never_ends (W : World)
    (settings : option PartialGameSettings) (s0 : GameService)
    (text : CustomText) (n : nat) :
  isCustomMode (settings_after settings s0) = Some true ->
  customText (settings_after settings s0) = Some text ->
  game_words (ct_content text) = [] ->
  exists s s',
    startGame W settings s0 = Ok tt s
    /\ currentWord (gameState s) = "end"
    /\ type_current_word W n s = Ok tt s'
    /\ currentWord (gameState s') = "end"
    /\ correctWords (gameState s') = Z.of_nat n
    /\ phase (gameState s') = Running
    /\ timeouts s' = timeouts s0.
Proof.
  intros Hmode Htext Hws.
  destruct (startGame_wordless W settings s0 text Hmode Htext Hws)
    as (s & Hstart & Hmode1 & Hws1 & Hcur & Hc & Hphase & Hto).
  destruct (wordless_commits W n s Hmode1 Hws1)
    as (s' & Hrun & Hcur' & Hc' & Hp & Hpa & Ho & Hto').
  apply phase_Running in Hphase as (Hover & Hplay & Hpause).
  exists s, s'. split; [exact Hstart|]. split; [exact Hcur|].
  split; [exact Hrun|]. split.
  { destruct n as [|n'].
    - cbn in Hrun. injection Hrun as <-. exact Hcur.
    - apply Hcur'. lia. }
  split; [rewrite Hc', Hc; lia|].
  split; [apply phase_Running; repeat split; congruence|].
  congruence.
Qed.

Lemma wordless_custom_text_never_ends_witness :
  CustomTextService.cleanText (ct_content text_H) = ct_content text_H
  /\ List.length (CustomTextService.extractWords (ct_content text_H)) = 10%nat
  /\ exists s s',
       startGame world_A (custom_settings text_H) initial = Ok tt s
       /\ type_current_word world_A 5 s = Ok tt s'
       /\ currentWord (gameState s') = "end"
       /\ phase (gameState s') = Running
       /\ timeouts s' = [].
Proof.
  split; [vm_compute; reflexivity|]. split; [vm_compute; reflexivity|].
  destruct (wordless_custom_text_never_ends world_A (custom_settings text_H)
              initial text_H 5)
    as (s & s' & Hstart & _ & Hrun & Hcur & _ & Hphase & Hto);
    [vm_compute; reflexivity | vm_compute; reflexivity | vm_compute; reflexivity |].
  exists s, s'. split; [exact Hstart|]. split; [exact Hrun|].
  split; [exact Hcur|]. split; [exact Hphase|]. exact Hto.
Defined.

(* ===================================================================== *)
(** * Word commits, whatever the settings *)
(* ===================================================================== *)

Section Fetching.

Variable W : World.

Lemma restartWordTimer_draws (s : GameService) :
  randomDraws (state_of (restartWordTimer s)) = randomDraws s.
Proof.
  unfold restartWordTimer, startWordTimer; unfold_monad.
  destruct (wordTimerSubscription s); cbn; destruct (_ && _); reflexivity.
Qed.

(** What [serves] says depends on the settings, the custom text and the
    number of random draws only. *)
Lemma serves_same (a b : GameService) (w : string) (i r : nat) :
  currentSettings a = currentSettings b ->
  customTextWords a = customTextWords b ->
  customTextIndex a = customTextIndex b ->
  randomDraws a = randomDraws b ->
  serves W a w i r -> serves W b w i r.
Proof. unfold serves. now intros -> -> -> ->. Qed.

(** [getNextWord] returns the word the word source serves. *)
Lemma getNextWord_serves (s : GameService) :
  wordSourceReady s = true ->
  exists w s1,
    getNextWord W s = Ok w s1 /\ fetched s s1
    /\ serves W s w (customTextIndex s1) (randomDraws s1).
Proof.
  unfold wordSourceReady, getNextWord, serves. unfold bind at 1, gets at 1.
  intros H. cbv zeta. destruct (bool_decide _).
  - unfold getNextCustomWord, fetched; unfold_monad.
    destruct (customTextWords s) as [|w0 rest] eqn:Ews; cbn.
    + eexists; eexists. split; [reflexivity|]. rewrite ?Ews. repeat split.
    + destruct (_ && _); cbn; eexists; eexists; (split; [reflexivity|]); cbn;
        rewrite ?Ews; repeat split.
  - cbn in H.
    unfold wordService_getRandomWord, WordService.getRandomWord, fetched;
      unfold_monad.
    destruct (WordService.candidates _ _) as [arr|]; [|discriminate]. cbn.
    eexists; eexists. split; [reflexivity|]. cbn. repeat split.
Qed.

(** The settings serve no word: no custom-text mode, and a category or a
    difficulty that [WordService] does not know. *)
Lemma wordSource_not_ready (s : GameService) :
  wordSourceReady s = false ->
  isCustomMode (currentSettings s) <> Some true
  /\ exists msg,
       WordService.candidates (category (currentSettings s))
                              (difficulty (currentSettings s)) = inr msg.
Proof.
  unfold wordSourceReady. intros H. apply orb_false_iff in H as [Hc Hr].
  apply bool_decide_eq_false in Hc. split; [exact Hc|].
  destruct (WordService.candidates _ _) as [|msg]; [discriminate|].
  now exists msg.
Qed.

Lemma handleCorrectWord_fetches (t : float) (s : GameService) :
  wordSourceReady s = true ->
  exists w s',
    handleCorrectWord W t s
    = Ok {| isCorrect := true; timeTaken := t;
            word := currentWord (gameState s) |} s'
    /\ gameState s' = correct_commit (gameState s) t w
    /\ word_fetched W s s'.
Proof.
  intros Hready.
  destruct (getNextWord_serves s Hready) as (w & s1 & Hget & Hf & Hsv).
  pose proof Hf as (_ & _ & _ & _ & _ & _ & Hws & _).
  unfold handleCorrectWord. unfold bind at 1 2 3, gets at 1 2.
  rewrite Hget. unfold_monad; cbn.
  match goal with
  | |- context [restartWordTimer ?x] =>
      pose proof (restartWordTimer_draws x) as Hrd;
      destruct (restartWordTimer_returns x)
        as (s' & Hr & Hgs & _ & _ & Hcw & Hci & _ & _);
      rewrite Hr in Hrd |- *; cbn in Hrd, Hgs, Hcw, Hci
  end.
  exists w, s'. split; [reflexivity|]. split; [exact Hgs|].
  unfold word_fetched. rewrite Hgs, Hcw, Hci, Hrd. cbn [currentWord correct_commit].
  split; assumption.
Qed.

Lemma handleIncorrectWord_fetches (t : float) (s : GameService) :
  wordSourceReady s = true ->
  exists w s',
    handleIncorrectWord W t s
    = Ok {| isCorrect := false; timeTaken := t;
            word := currentWord (gameState s) |} s'
    /\ gameState s' = incorrect_commit (gameState s) w
    /\ word_fetched W s s'.
Proof.
  intros Hready.
  destruct (getNextWord_serves s Hready) as (w & s1 & Hget & Hf & Hsv).
  pose proof Hf as (_ & _ & _ & _ & _ & _ & Hws & _).
  unfold handleIncorrectWord. unfold bind at 1 2 3, gets at 1 2.
  rewrite Hget. unfold_monad; cbn.
  match goal with
  | |- context [restartWordTimer ?x] =>
      pose proof (restartWordTimer_draws x) as Hrd;
      destruct (restartWordTimer_returns x)
        as (s' & Hr & Hgs & _ & _ & Hcw & Hci & _ & _);
      rewrite Hr in Hrd |- *; cbn in Hrd, Hgs, Hcw, Hci
  end.
  exists w, s'. split; [reflexivity|]. split; [exact Hgs|].
  unfold word_fetched. rewrite Hgs, Hcw, Hci, Hrd. cbn [currentWord incorrect_commit].
  split; assumption.
Qed.

(** Storing the input and reading the clock change nothing the word
    source looks at. *)
Lemma word_fetched_stored (input : string) (s s' : GameService) :
  word_fetched W (input_stored input s) s' -> word_fetched W s s'.
Proof.
  unfold word_fetched. intros [Hws Hsv]. split; [exact Hws|].
  revert Hsv. now apply serves_same.
Qed.


Lemma wordSourceReady_stored (input : string) (s : GameService) :
  wordSourceReady (input_stored input s) = wordSourceReady s.
Proof. reflexivity. Qed.

Lemma wordSourceReady_read (k : nat) (s : GameService) :
  wordSourceReady (after_reads k s) = wordSourceReady s.
Proof. reflexivity. Qed.

(** A correct word, when the settings serve a word. *)
Lemma processInput_correct_fetches (s : GameService) (input : string) :
  wordSourceReady s = true ->
  input = currentWord (gameState s) ->
  exists w s',
    processInput W input s
    = Ok {| isCorrect := true; timeTaken := timeTaken_in W s;
            word := currentWord (gameState s) |} s'
    /\ gameState s'
       = correct_commit (gameState (input_stored input s)) (timeTaken_in W s) w
    /\ word_fetched W s s'.
Proof.
  intros Hready ->.
  destruct (handleCorrectWord_fetches (timeTaken_in W s)
              (input_stored (currentWord (gameState s)) s))
    as (w & s' & Hrun & Hgs & Hf); [exact Hready|].
  exists w, s'. rewrite processInput_decides, String.eqb_refl.
  split; [exact Hrun|]. split; [exact Hgs|].
  now apply word_fetched_stored with (currentWord (gameState s)).
Qed.

(** An incorrect word, when the settings serve a word. *)
Lemma processInput_incorrect_fetches (s : GameService) (input : string) :
  wordSourceReady s = true ->
  input <> currentWord (gameState s) ->
  (String.length (currentWord (gameState s)) <= String.length input)%nat ->
  exists w s',
    processInput W input s
    = Ok {| isCorrect := false; timeTaken := timeTaken_in W s;
            word := currentWord (gameState s) |} s'
    /\ gameState s' = incorrect_commit (gameState (input_stored input s)) w
    /\ word_fetched W s s'.
Proof.
  intros Hready Hne Hlen.
  destruct (handleIncorrectWord_fetches (timeTaken_in W s) (input_stored input s))
    as (w & s' & Hrun & Hgs & Hf); [exact Hready|].
  exists w, s'. rewrite processInput_decides.
  apply String.eqb_neq in Hne. rewrite Hne.
  apply Nat.leb_le in Hlen. rewrite Hlen.
  split; [exact Hrun|]. split; [exact Hgs|].
  now apply word_fetched_stored with input.
Qed.



End Fetching.

(** C1. In a running session, [processInput] on a text equal to the current
    word commits the word when the settings serve a word (custom-text
    mode, or a category and a difficulty that the word service knows): it
    returns a correct result, the base score is ten times the length of
    the word, the time bonus is max(0, round((3 - timeTaken) * 5)) and
    never negative, the streak bonus is floor(streak / 5) * 50, the score
    grows by the rounded product of their sum with the multiplier before,
    the streak grows by one, the multiplier becomes
    min(5, 1 + floor(new streak / 10) * 0.5), [correctWords] and
    [totalWords] grow by one, the input is emptied and the current word is
    the next word of the word source, fetched once. When the word is
    "the", typed in 1.0 second with streak 0 and multiplier 1, the score
    grows by 40 and the streak becomes 1. When the settings serve no word,
    which a [startGame] that threw leaves behind in a running session, the
    call throws the error of the word service and nothing is committed:
    the text is stored as the input and that is all. *)
Theorem correct_word_commit (W : World) (s : GameService) (input : string) :
  phase (gameState s) = Running ->
  input = currentWord (gameState s) ->
  let gs := gameState s in
  let t := timeTaken_in W s in
  (wordSourceReady s = true ->
   exists s',
     let gs' := gameState s' in
     processInput W input s
     = Ok {| isCorrect := true; timeTaken := t; word := currentWord gs |} s'
     /\ baseScore (currentWord gs) = Z.of_nat (String.length (currentWord gs)) * 10
     /\ timeBonus t = Z.max 0 (JS.Math_round ((3 - t) * 5)%float)
     /\ 0 <= timeBonus t
     /\ streakBonus (streak gs) = streak gs / 5 * 50
     /\ score gs'
        = score gs
          + JS.Math_roundQ
              (inject_Z (baseScore (currentWord gs) + timeBonus t
                         + streakBonus (streak gs))
               * multiplier gs)
     /\ streak gs' = streak gs + 1
     /\ multiplier gs' = Qmin 5 (1 + inject_Z (streak gs' / 10) * (1 # 2))
     /\ correctWords gs' = correctWords gs + 1
     /\ totalWords gs' = totalWords gs + 1
     /\ userInput gs' = ""
     /\ word_fetched W s s'
     /\ (currentWord gs = "the" -> t = 1%float -> streak gs = 0 ->
         (multiplier gs == 1)%Q ->
         score gs' = score gs + 40 /\ streak gs' = 1))
  /\ (wordSourceReady s = false ->
      exists msg,
        WordService.candidates (category (currentSettings s))
                               (difficulty (currentSettings s)) = inr msg
        /\ processInput W input s = Throw msg (input_stored input s)
        /\ gameState (input_stored input s) = with_userInput input gs).
Proof.
  intros _ Hin gs t. split.
  - intros Hready.
    destruct (processInput_correct_fetches W s input Hready Hin)
      as (w & s' & Hrun & Hgs & Hf).
    exists s'. cbn zeta. rewrite Hgs.
    cbn [correct_commit input_stored set_gameState gameState score streak
         multiplier correctWords totalWords userInput currentWord].
    fold gs t.
    do 11 (split; [first [reflexivity | assumption | apply timeBonus_nonneg]|]).
    split; [exact Hf|].
    intros Hw Ht Hs Hm. unfold totalScore.
    cbn [streak multiplier currentWord]. fold gs. rewrite Hw, Ht, Hs.
    split; [|reflexivity].
    f_equal. unfold JS.Math_roundQ.
    transitivity (Qfloor (inject_Z 40 * 1 + (1 # 2))).
    + apply Qfloor_comp. now rewrite Hm.
    + reflexivity.
  - intros Hnot.
    destruct (wordSource_not_ready s Hnot) as (Hc & msg & Hcand).
    exists msg. split; [exact Hcand|]. split; [|reflexivity].
    apply commit_throws; try assumption. rewrite Hin. lia.
Qed.

Lemma correct_word_commit_witness :
  exists s',
    processInput world_R "the" session_R
    = Ok {| isCorrect := true; timeTaken := 1; word := "the" |} s'
    /\ score (gameState s') = 40 /\ streak (gameState s') = 1
    /\ currentWord (gameState s') = "his".
Proof.
  destruct (correct_word_commit world_R session_R "the") as (H & _);
    [vm_compute; reflexivity | vm_compute; reflexivity |].
  destruct H
    as (s' & Hrun & _ & _ & _ & _ & _ & _ & _ & _ & _ & _ & Hf & HA);
    [vm_compute; reflexivity|].
  exists s'. split; [exact Hrun|].
  destruct HA as [Hscore Hstreak];
    [vm_compute; reflexivity | vm_compute; reflexivity | vm_compute; reflexivity
     | vm_compute; reflexivity |].
  split; [exact Hscore|]. split; [exact Hstreak|].
  destruct Hf as (_ & Hw). vm_compute in Hw. destruct Hw as (Hw & _).
  injection Hw as Hw. symmetry. exact Hw.
Defined.

(** C1, as stated for every running session, fails: a [startGame] that
    names an unknown category throws after it has merged the settings and
    leaves the session that was running as it was, with settings that
    serve no word. Typing the current word there throws, and no word is
    counted. *)
Lemma correct_word_commit_counterexample :
  ~ (forall (W : World) (s : GameService) (input : string),
       phase (gameState s) = Running ->
       input = currentWord (gameState s) ->
       exists r s',
         processInput W input s = Ok r s'
         /\ isCorrect r = true
         /\ correctWords (gameState s') = correctWords (gameState s) + 1)
  /\ phase (gameState session_A_failed) = Running
  /\ currentWord (gameState session_A_failed) = "the"
  /\ exists s',
       processInput world_A "the" session_A_failed
       = Throw "Category 'Poetry' not found" s'
       /\ score (gameState s') = score (gameState session_A_failed)
       /\ streak (gameState s') = streak (gameState session_A_failed)
       /\ correctWords (gameState s') = correctWords (gameState session_A_failed)
       /\ totalWords (gameState s') = totalWords (gameState session_A_failed)
       /\ currentWord (gameState s') = "the".
Proof.
  assert (E : processInput world_A "the" session_A_failed
              = Throw "Category 'Poetry' not found"
                      (input_stored "the" session_A_failed))
    by (vm_compute; reflexivity).
  split; [|split; [vm_compute; reflexivity|split; [vm_compute; reflexivity|]]].
  - intros H.
    destruct (H world_A session_A_failed "the") as (r & s' & Hrun & _);
      [vm_compute; reflexivity | vm_compute; reflexivity |].
    rewrite E in Hrun. discriminate Hrun.
  - exists (input_stored "the" session_A_failed). split; [exact E|].
    repeat apply conj; vm_compute; reflexivity.
Qed.




(** C3. [processInput] stores the text and decides in this order. A text
    equal to the current word goes to [handleCorrectWord]. Any other text
    at least as long as the current word, one of the same length with
    wrong characters included, goes to [handleIncorrectWord] and is never
    a no-op. Any other text decides nothing: the call returns
    [{isCorrect: false, timeTaken, word: currentWord}], the text is stored
    as the input and every counter, the current word and the word timer
    are as before. The two handlers commit the word, correctly or
    incorrectly, when the settings serve a word; when they serve none the
    call throws the error of the word service with the text stored and
    nothing committed. *)
Theorem processInput_check_order (W : World) (s : GameService) (input : string) :
  let gs := gameState s in
  let t := timeTaken_in W s in
  (input = currentWord gs ->
   processInput W input s = handleCorrectWord W t (input_stored input s)
   /\ (wordSourceReady s = true ->
       exists s',
         processInput W input s
         = Ok {| isCorrect := true; timeTaken := t; word := currentWord gs |} s'
         /\ correctWords (gameState s') = correctWords gs + 1
         /\ totalWords (gameState s') = totalWords gs + 1
         /\ mistakes (gameState s') = mistakes gs
         /\ word_fetched W s s')
   /\ (wordSourceReady s = false ->
       exists msg, processInput W input s = Throw msg (input_stored input s)))
  /\ (input <> currentWord gs ->
      (String.length (currentWord gs) <= String.length input)%nat ->
      processInput W input s = handleIncorrectWord W t (input_stored input s)
      /\ (wordSourceReady s = true ->
          exists s',
            processInput W input s
            = Ok {| isCorrect := false; timeTaken := t; word := currentWord gs |} s'
            /\ incorrect_effect gs (gameState s')
            /\ word_fetched W s s')
      /\ (wordSourceReady s = false ->
          exists msg, processInput W input s = Throw msg (input_stored input s)))
  /\ (input <> currentWord gs ->
      (String.length input < String.length (currentWord gs))%nat ->
      exists s',
        processInput W input s
        = Ok {| isCorrect := false; timeTaken := t; word := currentWord gs |} s'
        /\ userInput (gameState s') = input
        /\ currentWord (gameState s') = currentWord gs
        /\ score (gameState s') = score gs
        /\ correctWords (gameState s') = correctWords gs
        /\ totalWords (gameState s') = totalWords gs
        /\ mistakes (gameState s') = mistakes gs
        /\ streak (gameState s') = streak gs
        /\ multiplier (gameState s') = multiplier gs
        /\ timeRemaining (gameState s') = timeRemaining gs
        /\ wordsTyped (gameState s') = wordsTyped gs
        /\ phase (gameState s') = phase gs
        /\ wordStartTime s' = wordStartTime s
        /\ subscriptions s' = subscriptions s
        /\ customTextIndex s' = customTextIndex s
        /\ timeouts s' = timeouts s).
Proof.
  intros gs t. repeat apply conj.
  - intros Hin. repeat apply conj.
    + rewrite processInput_decides. fold gs. rewrite Hin, String.eqb_refl.
      reflexivity.
    + intros Hready.
      destruct (processInput_correct_fetches W s input Hready Hin)
        as (w & s' & Hrun & Hgs & Hf).
      exists s'. split; [exact Hrun|].
      do 3 (split; [rewrite Hgs; reflexivity|]). exact Hf.
    + intros Hnot.
      destruct (wordSource_not_ready s Hnot) as (Hc & msg & Hcand).
      exists msg. apply commit_throws; try assumption. fold gs. rewrite Hin. lia.
  - intros Hne Hlen. repeat apply conj.
    + rewrite processInput_decides. fold gs.
      apply String.eqb_neq in Hne. rewrite Hne.
      apply Nat.leb_le in Hlen. rewrite Hlen. reflexivity.
    + intros Hready.
      destruct (processInput_incorrect_fetches W s input Hready Hne Hlen)
        as (w & s' & Hrun & Hgs & Hf).
      exists s'. split; [exact Hrun|]. split; [|exact Hf].
      rewrite Hgs. repeat apply conj; reflexivity.
    + intros Hnot.
      destruct (wordSource_not_ready s Hnot) as (Hc & msg & Hcand).
      exists msg. now apply commit_throws.
  - intros Hne Hlen. exists (input_stored input s).
    rewrite (processInput_pending W s input Hne Hlen).
    repeat apply conj; reflexivity.
Qed.

Lemma processInput_check_order_witness :
  (exists s', processInput world_R "the" session_R
              = Ok {| isCorrect := true; timeTaken := 1; word := "the" |} s'
              /\ correctWords (gameState s') = 1)
  /\ (exists s', processInput world_R "thx" session_R
                 = Ok {| isCorrect := false; timeTaken := 1; word := "the" |} s'
                 /\ mistakes (gameState s') = 1)
  /\ (exists s', processInput world_R "th" session_R
                 = Ok {| isCorrect := false; timeTaken := 1; word := "the" |} s'
                 /\ userInput (gameState s') = "th"
                 /\ totalWords (gameState s') = 0).
Proof.
  repeat apply conj.
  - destruct (processInput_check_order world_R session_R "the") as (H & _ & _).
    destruct H as (_ & H & _); [vm_compute; reflexivity|].
    destruct H as (s' & Hrun & Hc & _); [vm_compute; reflexivity|].
    exists s'. split; assumption.
  - destruct (processInput_check_order world_R session_R "thx") as (_ & H & _).
    destruct H as (_ & H & _); [discriminate | vm_compute; lia |].
    destruct H as (s' & Hrun & (_ & Hm & _) & _); [vm_compute; reflexivity|].
    exists s'. split; assumption.
  - destruct (processInput_check_order world_R session_R "th") as (_ & _ & H).
    destruct H as (s' & Hrun & Hu & _ & _ & _ & Ht & _);
      [discriminate | vm_compute; lia |].
    exists s'. repeat apply conj; assumption.
Defined.

(** C3, as stated, fails in its first two cases where the settings serve
    no word: in the running session a failed [startGame] left behind, the
    text of the current word and a wrong text of the same length are
    decided in the order of the claim, but the call throws in both cases
    and commits no word, neither a correct nor an incorrect one. *)
Lemma processInput_check_order_counterexample :
  ~ (forall (W : World) (s : GameService) (input : string),
       input <> currentWord (gameState s) ->
       (String.length (currentWord (gameState s)) <= String.length input)%nat ->
       exists r s',
         processInput W input s = Ok r s'
         /\ mistakes (gameState s') = mistakes (gameState s) + 1)
  /\ currentWord (gameState session_A_failed) = "the"
  /\ processInput world_A "the" session_A_failed
     = Throw "Category 'Poetry' not found" (input_stored "the" session_A_failed)
  /\ processInput world_A "thx" session_A_failed
     = Throw "Category 'Poetry' not found" (input_stored "thx" session_A_failed)
  /\ correctWords (gameState (input_stored "the" session_A_failed)) = 0
  /\ mistakes (gameState (input_stored "thx" session_A_failed)) = 0
  /\ totalWords (gameState (input_stored "thx" session_A_failed)) = 0.
Proof.
  assert (E : processInput world_A "thx" session_A_failed
              = Throw "Category 'Poetry' not found"
                      (input_stored "thx" session_A_failed))
    by (vm_compute; reflexivity).
  split.
  - intros H.
    destruct (H world_A session_A_failed "thx") as (r & s' & Hrun & _);
      [vm_compute; discriminate | vm_compute; lia |].
    rewrite E in Hrun. discriminate Hrun.
  - repeat apply conj; try exact E; vm_compute; reflexivity.
Qed.

(** C10. [processInput] checks no phase. In a session that is not running
    (idle, paused or over) and whose settings serve a word, the call
    returns as in a running one, it does not throw and is no no-op: the
    text is stored and the same three-way decision is taken, with the same
    effect on the counters, and the phase stays as it is. When the current
    word is the empty string every call commits a word and fetches the
    next word of the word source: a correct commit for the empty text, an
    incorrect commit for any other. When the settings serve no word, which
    a [startGame] that threw leaves behind in an idle service too, a text
    at least as long as the current word, and so every text when the
    current word is empty, makes the call throw with nothing committed; a
    shorter text is stored as in the other case. *)
Theorem processInput_outside_running (W : World) (s : GameService) (input : string) :
  phase (gameState s) <> Running ->
  let gs := gameState s in
  let t := timeTaken_in W s in
  (wordSourceReady s = true ->
   exists r s',
     processInput W input s = Ok r s'
     /\ timeTaken r = t /\ word r = currentWord gs
     /\ phase (gameState s') = phase gs
     /\ (input = currentWord gs ->
         isCorrect r = true /\ correct_effect t gs (gameState s')
         /\ word_fetched W s s')
     /\ (input <> currentWord gs ->
         (String.length (currentWord gs) <= String.length input)%nat ->
         isCorrect r = false /\ incorrect_effect gs (gameState s')
         /\ word_fetched W s s')
     /\ (input <> currentWord gs ->
         (String.length input < String.length (currentWord gs))%nat ->
         isCorrect r = false /\ s' = input_stored input s
         /\ userInput (gameState s') = input)
     /\ (currentWord gs = "" ->
         totalWords (gameState s') = totalWords gs + 1
         /\ word_fetched W s s'
         /\ (input = "" ->
             isCorrect r = true /\ correct_effect t gs (gameState s'))
         /\ (input <> "" ->
             isCorrect r = false /\ incorrect_effect gs (gameState s'))))
  /\ (wordSourceReady s = false ->
      exists msg,
        WordService.candidates (category (currentSettings s))
                               (difficulty (currentSettings s)) = inr msg
        /\ ((String.length (currentWord gs) <= String.length input)%nat ->
            processInput W input s = Throw msg (input_stored input s)
            /\ gameState (input_stored input s) = with_userInput input gs)
        /\ ((String.length input < String.length (currentWord gs))%nat ->
            processInput W input s
            = Ok {| isCorrect := false; timeTaken := t; word := currentWord gs |}
                 (input_stored input s))).
Proof.
  intros _ gs t. split.
  - intros Hready.
    destruct (string_dec input (currentWord gs)) as [Heq|Hne].
    + destruct (processInput_correct_fetches W s input Hready Heq)
        as (w & s' & Hrun & Hgs & Hf).
      assert (Hce : correct_effect t gs (gameState s'))
        by (rewrite Hgs; repeat apply conj; reflexivity).
      assert (Hph : phase (gameState s') = phase gs)
        by (rewrite Hgs; reflexivity).
      assert (Htw : totalWords (gameState s') = totalWords gs + 1)
        by (rewrite Hgs; reflexivity).
      eexists; exists s'. split; [exact Hrun|]. cbn [timeTaken word isCorrect].
      split; [reflexivity|]. split; [reflexivity|]. split; [exact Hph|].
      split; [intros _; auto|].
      split; [intros Hne; contradiction|].
      split; [intros Hne; contradiction|].
      intros Hw. split; [exact Htw|]. split; [exact Hf|]. split.
      * intros _. split; [reflexivity | exact Hce].
      * intros Hi. exfalso. apply Hi. fold gs in Hw. congruence.
    + destruct (Nat.le_gt_cases (String.length (currentWord gs)) (String.length input))
        as [Hlen|Hlen].
      * destruct (processInput_incorrect_fetches W s input Hready Hne Hlen)
          as (w & s' & Hrun & Hgs & Hf).
        assert (Hie : incorrect_effect gs (gameState s'))
          by (rewrite Hgs; repeat apply conj; reflexivity).
        assert (Hph : phase (gameState s') = phase gs)
          by (rewrite Hgs; reflexivity).
        assert (Htw : totalWords (gameState s') = totalWords gs + 1)
          by (rewrite Hgs; reflexivity).
        eexists; exists s'. split; [exact Hrun|]. cbn [timeTaken word isCorrect].
        split; [reflexivity|]. split; [reflexivity|]. split; [exact Hph|].
        split; [intros Heq; contradiction|].
        split; [intros _ _; auto|].
        split; [intros _ Hlt; lia|].
        intros Hw. split; [exact Htw|]. split; [exact Hf|]. split.
        -- intros Hi. exfalso. apply Hne. fold gs. congruence.
        -- intros _. split; [reflexivity | exact Hie].
      * eexists; exists (input_stored input s).
        split; [exact (processInput_pending W s input Hne Hlen)|].
        cbn [timeTaken word isCorrect].
        split; [reflexivity|]. split; [reflexivity|]. split; [reflexivity|].
        split; [intros Heq; contradiction|].
        split; [intros _ Hle; lia|].
        split; [intros _ _; repeat apply conj; reflexivity|].
        intros Hw. fold gs in Hlen. rewrite Hw in Hlen. cbn in Hlen. lia.
  - intros Hnot.
    destruct (wordSource_not_ready s Hnot) as (Hc & msg & Hcand).
    exists msg. split; [exact Hcand|]. split.
    + intros Hlen. split; [|reflexivity]. now apply commit_throws.
    + intros Hlen. rewrite processInput_decides. fold gs t.
      replace (String.eqb input (currentWord gs)) with false.
      * apply Nat.leb_gt in Hlen. now rewrite Hlen.
      * symmetry. apply String.eqb_neq. intros ->. lia.
Qed.

Lemma processInput_outside_running_witness :
  (exists r s', processInput world_I "" initial = Ok r s'
                /\ isCorrect r = true
                /\ totalWords (gameState s') = 1
                /\ streak (gameState s') = 1
                /\ currentWord (gameState s') = "same")
  /\ (exists r s', processInput world_I "x" initial = Ok r s'
                   /\ isCorrect r = false
                   /\ totalWords (gameState s') = 1
                   /\ mistakes (gameState s') = 1
                   /\ currentWord (gameState s') = "same").
Proof.
  assert (Hword : forall s',
             word_fetched world_I initial s' ->
             currentWord (gameState s') = "same").
  { intros s' (_ & Hw). vm_compute in Hw. destruct Hw as (Hw & _).
    injection Hw as Hw. symmetry. exact Hw. }
  split.
  - destruct (processInput_outside_running world_I initial "") as (H & _);
      [discriminate|].
    destruct H as (r & s' & Hrun & _ & _ & _ & _ & _ & _ & He);
      [vm_compute; reflexivity|].
    destruct He as (Ht & Hf & Hc & _); [reflexivity|].
    destruct Hc as (Hr & _ & Hs & _); [reflexivity|].
    exists r, s'. do 4 (split; [assumption|]). now apply Hword.
  - destruct (processInput_outside_running world_I initial "x") as (H & _);
      [discriminate|].
    destruct H as (r & s' & Hrun & _ & _ & _ & _ & _ & _ & He);
      [vm_compute; reflexivity|].
    destruct He as (Ht & Hf & _ & Hi); [reflexivity|].
    destruct Hi as (Hr & _ & Hm & _); [discriminate|].
    exists r, s'. do 4 (split; [assumption|]). now apply Hword.
Defined.

(** C10, as stated for every idle service, fails: after a [startGame]
    that named an unknown category the service is idle, its current word
    is the empty string and its settings serve no word. No call of
    [processInput] commits a word there: the empty text and any other
    text make it throw, and [totalWords], the score and the streak stay
    as they were. *)
Lemma processInput_outside_running_counterexample :
  ~ (forall (W : World) (s : GameService) (input : string),
       phase (gameState s) <> Running ->
       currentWord (gameState s) = "" ->
       exists r s',
         processInput W input s = Ok r s'
         /\ totalWords (gameState s') = totalWords (gameState s) + 1)
  /\ phase (gameState session_idle_failed) = Idle
  /\ currentWord (gameState session_idle_failed) = ""
  /\ processInput world_idle "" session_idle_failed
     = Throw "Category 'Poetry' not found" (input_stored "" session_idle_failed)
  /\ processInput world_idle "x" session_idle_failed
     = Throw "Category 'Poetry' not found" (input_stored "x" session_idle_failed)
  /\ totalWords (gameState (input_stored "" session_idle_failed)) = 0
  /\ score (gameState (input_stored "" session_idle_failed)) = 0
  /\ streak (gameState (input_stored "" session_idle_failed)) = 0.
Proof.
  assert (E : processInput world_idle "" session_idle_failed
              = Throw "Category 'Poetry' not found"
                      (input_stored "" session_idle_failed))
    by (vm_compute; reflexivity).
  split.
  - intros H.
    destruct (H world_idle session_idle_failed "") as (r & s' & Hrun & _);
      [vm_compute; discriminate | vm_compute; reflexivity |].
    rewrite E in Hrun. discriminate Hrun.
  - repeat apply conj; try exact E; vm_compute; reflexivity.
Qed.

(* ===================================================================== *)
(** * The session timer, whatever the duration *)
(* ===================================================================== *)







(** C9, as stated, fails where it says when the end is scheduled: on a
    text of two words the index is back at 0 when the first word is
    committed, one word has been completed then and [totalWords] is 1
    after the commit, and no end of the session is scheduled;
    [getNextCustomWord] runs inside the commit and reads the count of the
    words before it. *)
Lemma custom_text_serving_counterexample :
  ~ (forall (W : World) (s : GameService) (input : string) r s',
       isCustomMode (currentSettings s) = Some true ->
       processInput W input s = Ok r s' ->
       isCorrect r = true ->
       customTextIndex s' = 0%nat ->
       0 < totalWords (gameState s') ->
       timeouts s' <> [])
  /\ customTextWords session_F = ["alpha"; "beta"]
  /\ customTextIndex session_F = 1%nat
  /\ currentWord (gameState session_F) = "alpha"
  /\ exists r s',
       processInput world_A "alpha" session_F = Ok r s'
       /\ isCorrect r = true
       /\ customTextIndex s' = 0%nat
       /\ totalWords (gameState s') = 1
       /\ correctWords (gameState s') = 1
       /\ timeouts s' = []
       /\ phase (gameState s') = Running.
Proof.
  destruct (processInput world_A "alpha" session_F) as [r s'|msg s'] eqn:E;
    [|vm_compute in E; discriminate E].
  assert (Hr : isCorrect r = true /\ customTextIndex s' = 0%nat
               /\ totalWords (gameState s') = 1
               /\ correctWords (gameState s') = 1
               /\ timeouts s' = []
               /\ phase (gameState s') = Running).
  { vm_compute in E. injection E as <- <-.
    repeat apply conj; vm_compute; reflexivity. }
  destruct Hr as (Hc & Hi & Ht & Hcw & Hto & Hph).
  split.
  - intros H.
    apply (H world_A session_F "alpha" r s'); try assumption.
    + vm_compute; reflexivity.
    + rewrite Ht. reflexivity.
  - split; [vm_compute; reflexivity|]. split; [vm_compute; reflexivity|].
    split; [vm_compute; reflexivity|].
    exists r, s'. split; [reflexivity|]. repeat apply conj; assumption.
Qed.

(* ===================================================================== *)
(** * The clock at the start of a game on a custom text *)
(* ===================================================================== *)

(** X28. [startGame] on a custom text that the custom text service holds
    reads the clock three times: [recordUsage] takes the first reading for
    [lastUsed], and the start of the game and the start of the word are
    the second and the third. For a text the service does not hold, as for
    a game on a word list, they are the first and the second. The time of
    the first word is measured from the reading taken for the start of the
    word. *)
Theorem stored_text_takes_a_clock_reading (W : World)
    (settings : option PartialGameSettings) (s0 s : GameService)
    (text : CustomText) :
  isCustomMode (settings_after settings s0) = Some true ->
  customText (settings_after settings s0) = Some text ->
  startGame W settings s0 = Ok tt s ->
  let k := reads_before_start W text s0 in
  gameStartTime s = Date_now W k
  /\ wordStartTime s = Date_now W (S k)
  /\ clockReads s = S (S k)
  /\ timeTaken_in W s
     = JS.seconds_between (Date_now W (S (S k))) (Date_now W (S k)).
Proof.
  intros Hmode Htext.
  rewrite <- settings_merged_settings in Hmode, Htext.
  unfold startGame. unfold bind at 1.
  replace (match settings with
           | Some p => modify (fun s1 => set_currentSettings
                                 (merge_settings (currentSettings s1) p) s1)
           | None => ret tt
           end s0) with (Ok tt (settings_merged settings s0))
    by (destruct settings; reflexivity).
  unfold bind at 1, gets at 1. unfold bind at 1.
  rewrite Hmode, Htext. rewrite bool_decide_eq_true_2 by reflexivity.
  unfold bind at 1. rewrite initializeCustomText_returns.
  match goal with
  | |- context [getNextCustomWord ?x] =>
      destruct (getNextCustomWord_returns x)
        as (w & s1 & Hget & _ & _ & _ & _ & _ & _ & _ & _ & _ & Hclk);
      rewrite Hget
  end.
  assert (Hk : clockReads s1 = reads_before_start W text s0).
  { assert (Hc0 : clockReads (set_customText (words_of_text text) 0%nat
                                (settings_merged settings s0))
                  = clockReads s0)
      by (destruct settings; reflexivity).
    rewrite Hclk. unfold usage_recorded, reads_before_start. rewrite Hc0.
    destruct (Text_stored W (clockReads s0) (ct_id text)); cbn;
      [reflexivity|exact Hc0]. }
  unfold startGameTimer, startWordTimer; unfold_monad; cbn.
  intros [= <-]. unfold timeTaken_in. cbn. rewrite Hk.
  repeat apply conj; reflexivity.
Qed.

Lemma stored_text_takes_a_clock_reading_witness :
  startGame world_T (custom_settings text_E) initial = Ok tt session_T
  /\ gameStartTime session_T = 1000 /\ wordStartTime session_T = 1000
  /\ timeTaken_in world_T session_T = 1%float.
Proof.
  assert (E : startGame world_T (custom_settings text_E) initial
              = Ok tt session_T)
    by (vm_compute; reflexivity).
  destruct (stored_text_takes_a_clock_reading world_T
              (custom_settings text_E) initial session_T text_E)
    as (Hg & Hw & _ & Ht);
    [vm_compute; reflexivity | vm_compute; reflexivity | exact E |].
  split; [exact E|].
  split; [rewrite Hg; vm_compute; reflexivity|].
  split; [rewrite Hw; vm_compute; reflexivity|].
  rewrite Ht. vm_compute; reflexivity.
Defined.
